(** * The UDP binding of msquic (src/core/binding.c)

    A shallow embedding of the binding layer: the listener registry, the
    stateless-operation table, the stateless response builder, retry gating,
    connection creation and the receive-path demultiplexer, followed by the
    properties established about them.

    Conventions.  Fixed-width C integers are [Z] with the wrap-around written
    out ([mod 2^w]); bytes are [Z] in [0, 256); byte strings are [list Z].
    Objects that the C code reaches through pointers (connections, stateless
    contexts, receive datagrams) live in stores keyed by their address, a
    [nat]; [None] is the NULL pointer.  Calls that leave binding.c (datapath,
    allocator, random generator, crypto, lookup table) are either fields of the
    interface class [QuicLib] or explicit outcomes passed to the model. *)

From stdpp Require Import base numbers option list sorting gmap.
From Stdlib Require Import ZArith Lia.

Local Open Scope Z_scope.

(** ** Platform types *)

(** QUIC_ADDR: address family, IP bytes and port. *)
Record QUIC_ADDR := mkAddr {
  AddrFamily : Z;
  AddrIp : list Z;
  AddrPort : Z
}.

#[global] Instance QUIC_ADDR_eq_dec : EqDecision QUIC_ADDR.
Proof. solve_decision. Defined.

Definition AF_UNSPEC : Z := 0.
Definition AF_INET : Z := 2.
Definition AF_INET6 : Z := 23.

Definition QuicAddrGetFamily (a : QUIC_ADDR) : Z := AddrFamily a.

(** QuicAddrCompare: whole-address equality. *)
Definition QuicAddrCompare (a b : QUIC_ADDR) : bool := bool_decide (a = b).

(** QuicAddrCompareIp: equality of the IP part only. *)
Definition QuicAddrCompareIp (a b : QUIC_ADDR) : bool :=
  bool_decide (AddrIp a = AddrIp b).

(** memcmp(a, b, n) == 0 on byte strings. *)
Definition memcmp_eq (a b : list Z) (n : nat) : bool :=
  bool_decide (take n a = take n b).

Definition UINT16_MAX : Z := 65535.

(** ** Constants and external routines used by binding.c *)

Record QUIC_RETRY_TOKEN_CONTENTS := mkToken {
  TokRemoteAddress : QUIC_ADDR;
  TokOrigConnId : list Z;
  TokOrigConnIdLength : Z
}.

(** The receive packet scratch area (the fields binding.c reads or writes). *)
Record QUIC_RECV_PACKET := mkPacket {
  BufferLength : Z;                 (* uint16_t *)
  IsLongHeader : bool;              (* Invariant->IsLongHeader *)
  HdrVersion : Z;                   (* LONG_HDR.Version *)
  KeyPhase : bool;                  (* SH->KeyPhase *)
  IsHandshakePkt : bool;            (* QuicPacketIsHandshake(Invariant) *)
  DestCID : list Z;
  SourceCID : option (list Z);      (* NULL on short headers *)
  ValidatedHeaderInv : bool;
  ValidToken : bool;
  PktRemoteAddress : QUIC_ADDR;     (* Datagram->Tuple->RemoteAddress *)
  PktLocalAddress : QUIC_ADDR       (* Datagram->Tuple->LocalAddress *)
}.

Definition DestCIDLen (p : QUIC_RECV_PACKET) : Z := Z.of_nat (length (DestCID p)).
Definition SourceCIDBytes (p : QUIC_RECV_PACKET) : list Z := default [] (SourceCID p).
Definition SourceCIDLen (p : QUIC_RECV_PACKET) : Z :=
  Z.of_nat (length (SourceCIDBytes p)).

Definition set_ValidToken (p : QUIC_RECV_PACKET) (v : bool) : QUIC_RECV_PACKET :=
  mkPacket (BufferLength p) (IsLongHeader p) (HdrVersion p) (KeyPhase p)
    (IsHandshakePkt p) (DestCID p) (SourceCID p) (ValidatedHeaderInv p) v
    (PktRemoteAddress p) (PktLocalAddress p).

(** QUIC_RECV_DATAGRAM: the object handed up by the datapath, at address
    [DgPtr], with its packet scratch area
    (QuicDataPathRecvDatagramToRecvPacket). *)
Record QUIC_RECV_DATAGRAM := mkDatagram {
  DgPtr : nat;
  RecvPacket : QUIC_RECV_PACKET
}.

(** Constants whose definitions live in headers outside binding.c. *)
Class QuicDefs := {
  QUIC_MIN_STATELESS_RESET_PACKET_LENGTH : Z;
  QUIC_RECOMMENDED_STATELESS_RESET_PACKET_LENGTH : Z;
  QUIC_STATELESS_RESET_TOKEN_LENGTH : Z;
  QUIC_HASH_SHA256_SIZE : Z;
  QUIC_MAX_BINDING_STATELESS_OPERATIONS : Z;
  QUIC_STATELESS_OPERATION_EXPIRATION_MS : Z;
  QUIC_VERSION_VER_NEG : Z;
  QuicSupportedVersionList : list Z;            (* uint32_t[] *)
  sizeof_QUIC_VERSION_NEGOTIATION_PACKET : Z;
  QUIC_MAX_CONNECTION_ID_LENGTH_INVARIANT : Z;
  QUIC_DEFAULT_PATH_MTU : Z;
  MSQUIC_CONNECTION_ID_LENGTH : Z;
  QUIC_MIN_INITIAL_CONNECTION_ID_LENGTH : Z;
  QUIC_IV_LENGTH : Z;
  sizeof_QUIC_RETRY_TOKEN_CONTENTS : Z;
  sizeof_OrigConnId : Z;                        (* sizeof(Token.OrigConnId) *)
  QUIC_CONN_HANDSHAKE_MEMORY_USAGE : Z
}.

(** Routines of other modules that binding.c calls as black boxes. *)
Class QuicLib := {
  QuicAddrHash : QUIC_ADDR → Z;
  (* QuicHashCompute(ResetTokenHash, CID, ...): None on failure *)
  QuicHashCompute : list Z → list Z → option (list Z);
  (* QuicEncrypt(StatelessRetryKey, Iv, 0, NULL, sizeof(Token), &Token) *)
  QuicEncrypt : list Z → QUIC_RETRY_TOKEN_CONTENTS → list Z;
  QuicPacketMaxBufferSizeForRetryD23 : Z;
  QuicPacketEncodeRetryD23 :
    Z → list Z → list Z → list Z → list Z → Z → list Z;
  (* QuicRetryTokenDecrypt(Packet, TokenBuffer, &Token) *)
  QuicRetryTokenDecrypt :
    QUIC_RECV_PACKET → list Z → option QUIC_RETRY_TOKEN_CONTENTS;
  (* QuicPacketValidateLongHeaderD23(Binding, TRUE, Packet, &Token, &TokenLength):
     the packet as the validation leaves it, and None when it fails, else the
     token (TokenLength bytes at Token) *)
  QuicPacketValidateLongHeaderD23 :
    QUIC_RECV_PACKET → QUIC_RECV_PACKET * option (list Z)
}.

(** sizeof(QuicSupportedVersionList) *)
Definition sizeof_QuicSupportedVersionList `{QuicDefs} : Z :=
  4 * Z.of_nat (length QuicSupportedVersionList).

Definition MAX_VER_NEG_PACKET_LENGTH `{QuicDefs} : Z :=
  sizeof_QUIC_VERSION_NEGOTIATION_PACKET +
  QUIC_MAX_CONNECTION_ID_LENGTH_INVARIANT +
  QUIC_MAX_CONNECTION_ID_LENGTH_INVARIANT +
  4 +
  sizeof_QuicSupportedVersionList.

(** The two QUIC_STATIC_ASSERTs of binding.c. *)
Definition static_assert_ver_neg `{QuicDefs} : Prop :=
  QUIC_DEFAULT_PATH_MTU - 48 >= MAX_VER_NEG_PACKET_LENGTH.
Definition static_assert_reset_token `{QuicDefs} : Prop :=
  QUIC_HASH_SHA256_SIZE >= QUIC_STATELESS_RESET_TOKEN_LENGTH.

(** Trace labels of QuicPacketLogDrop as used in binding.c. *)
Inductive drop_reason :=
| Drop_InvalidRetryTokenLength
| Drop_RetryTokenDecryptionFailure
| Drop_InvalidRetryTokenOrigConnIdLength
| Drop_RetryTokenAddrMismatch
| Drop_MaxBindingOperationsReached
| Drop_AlreadyInStatelessOperTable
| Drop_AllocFailureStatelessOperCtx
| Drop_PacketTooShortForStatelessReset
| Drop_NoStatelessResetOnExclusiveBinding
| Drop_FailedToInitializeNewConnection
| Drop_WorkerOverloaded
| Drop_CleanUpInProgress
| Drop_FailedToInsertScid.

(** ** Random generator

    QuicRandom(n, buf) draws [n] bytes; the generator is a stream of bytes
    and each call consumes a prefix of it. *)
Definition rng := nat → Z.

Definition QuicRandom (n : nat) (r : rng) : list Z * rng :=
  (map (λ i, r i `mod` 256) (seq 0 n), λ i, r (n + i)%nat).

(** ** Data model of the binding *)

(** Rundown guard of a listener.
    Modelled from the spec: QuicRundownAcquire is platform code outside
    binding.c; acquiring fails once teardown has begun, and otherwise takes
    one more reference. *)
Record QUIC_RUNDOWN_REF := mkRundown {
  RundownReleased : bool;
  RundownCount : Z
}.

Definition QuicRundownAcquire (r : QUIC_RUNDOWN_REF) : bool * QUIC_RUNDOWN_REF :=
  if RundownReleased r then (false, r)
  else (true, mkRundown false (RundownCount r + 1)).

Record QUIC_LISTENER := mkListener {
  ListenerPtr : nat;                (* identity of the object (its address) *)
  LocalAddress : QUIC_ADDR;
  WildCard : bool;
  Alpn : list Z;                    (* Session->Alpn, Session->AlpnLength bytes *)
  Rundown : QUIC_RUNDOWN_REF
}.

Definition AlpnLength (l : QUIC_LISTENER) : Z := Z.of_nat (length (Alpn l)).

Definition set_Rundown (l : QUIC_LISTENER) (r : QUIC_RUNDOWN_REF) : QUIC_LISTENER :=
  mkListener (ListenerPtr l) (LocalAddress l) (WildCard l) (Alpn l) r.

Record QUIC_STATELESS_CONTEXT := mkStatelessCtx {
  CtxWorker : nat;
  CtxDatagram : option QUIC_RECV_DATAGRAM;
  CtxRemoteAddress : QUIC_ADDR;
  CreationTimeMs : Z;
  HasBindingRef : bool;
  IsProcessed : bool;
  IsExpired : bool
}.

Definition set_IsExpired (c : QUIC_STATELESS_CONTEXT) : QUIC_STATELESS_CONTEXT :=
  mkStatelessCtx (CtxWorker c) (CtxDatagram c) (CtxRemoteAddress c)
    (CreationTimeMs c) (HasBindingRef c) (IsProcessed c) true.

(** StatelessCtx->Datagram = NULL; ...; StatelessCtx->IsProcessed = TRUE *)
Definition set_IsProcessed (c : QUIC_STATELESS_CONTEXT) : QUIC_STATELESS_CONTEXT :=
  mkStatelessCtx (CtxWorker c) None (CtxRemoteAddress c)
    (CreationTimeMs c) (HasBindingRef c) true (IsExpired c).

(** QUIC_BINDING.  The hash table maps a signature to its bucket of entries;
    list members are addresses of stateless contexts. *)
Record QUIC_BINDING := mkBinding {
  Exclusive : bool;
  Connected : bool;
  HandshakeConnections : Z;
  StatelessOperCount : Z;                     (* uint32_t *)
  Listeners : list QUIC_LISTENER;
  StatelessOperTable : gmap Z (list nat);
  StatelessOperList : list nat;
  RandomReservedVersion : Z;
  ResetTokenHash : list Z
}.

Definition set_Listeners (b : QUIC_BINDING) (ls : list QUIC_LISTENER) : QUIC_BINDING :=
  mkBinding (Exclusive b) (Connected b) (HandshakeConnections b)
    (StatelessOperCount b) ls (StatelessOperTable b) (StatelessOperList b)
    (RandomReservedVersion b) (ResetTokenHash b).

Definition set_Stateless (b : QUIC_BINDING) (n : Z) (t : gmap Z (list nat))
    (l : list nat) : QUIC_BINDING :=
  mkBinding (Exclusive b) (Connected b) (HandshakeConnections b)
    n (Listeners b) t l (RandomReservedVersion b) (ResetTokenHash b).

Definition set_HandshakeConnections (b : QUIC_BINDING) (n : Z) : QUIC_BINDING :=
  mkBinding (Exclusive b) (Connected b) n (StatelessOperCount b) (Listeners b)
    (StatelessOperTable b) (StatelessOperList b) (RandomReservedVersion b)
    (ResetTokenHash b).

(** The state QuicBindingInitialize leaves behind (the reserved version and
    the hash salt are drawn at random there). *)
Definition QuicBindingInitialize (ShareBinding : bool) (HasRemoteAddress : bool)
    (reserved : Z) (salt : list Z) : QUIC_BINDING :=
  mkBinding (negb ShareBinding) HasRemoteAddress 0 0 [] ∅ [] reserved salt.

(** QuicBindingHasListenerRegistered *)
Definition QuicBindingHasListenerRegistered (b : QUIC_BINDING) : bool :=
  negb (bool_decide (Listeners b = [])).

(** ** Listener registry *)

(** Outcome of the search loop of QuicBindingRegisterListener: where the walk
    stopped ([None] is a walk back to the list head) and AddNewListener. *)
Fixpoint register_search (New : QUIC_LISTENER) (ls : list QUIC_LISTENER) (pos : nat)
    : option nat * bool :=
  match ls with
  | [] => (None, true)
  | Existing :: rest =>
    let NewFamily := QuicAddrGetFamily (LocalAddress New) in
    let ExistingFamily := QuicAddrGetFamily (LocalAddress Existing) in
    if bool_decide (NewFamily > ExistingFamily) then (Some pos, true)
    else if negb (bool_decide (NewFamily = ExistingFamily)) then
      register_search New rest (S pos)
    else if negb (WildCard New) && WildCard Existing then (Some pos, true)
    else if negb (bool_decide (WildCard New = WildCard Existing)) then
      register_search New rest (S pos)
    else if negb (bool_decide (NewFamily = AF_UNSPEC)) &&
            negb (QuicAddrCompareIp (LocalAddress New) (LocalAddress Existing)) then
      register_search New rest (S pos)
    else if bool_decide (AlpnLength New = AlpnLength Existing) &&
            memcmp_eq (Alpn New) (Alpn Existing) (length (Alpn New)) then
      (Some pos, false)
    else register_search New rest (S pos)
  end.

(** QuicListEntryRemove(&Listener->Link), for a listener that is linked in
    the list: its entry is taken out.  The code does not test that the
    listener is linked. *)
Definition QuicBindingUnregisterListener (b : QUIC_BINDING) (Listener : nat)
    : QUIC_BINDING :=
  set_Listeners b
    (filter (λ l, ListenerPtr l ≠ Listener) (Listeners b)).

(** QuicBindingRegisterListener.  [MaximizeOk] is the result that
    QuicLookupMaximizePartitioning would give if it is called. *)
Definition QuicBindingRegisterListener (b : QUIC_BINDING) (NewListener : QUIC_LISTENER)
    (MaximizeOk : bool) : bool * QUIC_BINDING :=
  let '(Link, AddNewListener) := register_search NewListener (Listeners b) 0 in
  if AddNewListener then
    let MaximizeLookup := bool_decide (Listeners b = []) in
    let b1 :=
      match Link with
      | None => set_Listeners b (Listeners b ++ [NewListener])
      | Some i =>
        set_Listeners b (take i (Listeners b) ++ NewListener :: drop i (Listeners b))
      end in
    if MaximizeLookup && negb MaximizeOk then
      (false, QuicBindingUnregisterListener b1 (ListenerPtr NewListener))
    else (true, b1)
  else (false, b).

(** QUIC_NEW_CONNECTION_INFO (the fields QuicBindingGetListener reads). *)
Record QUIC_NEW_CONNECTION_INFO := mkInfo {
  InfoLocalAddress : QUIC_ADDR;
  AlpnList : list Z                 (* AlpnListLength bytes, prevalidated *)
}.

(** The inner for loop of QuicBindingGetListener over the listener list for
    one client ALPN.  [Some r] is the jump to Done with Listener = r. *)
Fixpoint get_listener_scan (Addr : QUIC_ADDR) (Length : Z) (AlpnPtr : list Z)
    (ls : list QUIC_LISTENER) : option (option nat) * list QUIC_LISTENER :=
  match ls with
  | [] => (None, [])
  | Existing :: rest =>
    let Family := QuicAddrGetFamily Addr in
    let ExistingFamily := QuicAddrGetFamily (LocalAddress Existing) in
    if negb (bool_decide (ExistingFamily = AF_UNSPEC)) &&
       (negb (bool_decide (Family = ExistingFamily)) ||
        (negb (WildCard Existing) &&
         negb (QuicAddrCompareIp Addr (LocalAddress Existing)))) then
      let '(r, rest') := get_listener_scan Addr Length AlpnPtr rest in
      (r, Existing :: rest')
    else if bool_decide (Length = AlpnLength Existing) &&
            memcmp_eq AlpnPtr (Alpn Existing) (Z.to_nat Length) then
      let '(ok, rd) := QuicRundownAcquire (Rundown Existing) in
      (Some (if ok then Some (ListenerPtr Existing) else None),
       set_Rundown Existing rd :: rest)
    else
      let '(r, rest') := get_listener_scan Addr Length AlpnPtr rest in
      (r, Existing :: rest')
  end.

(** The while loop of QuicBindingGetListener; every iteration consumes at
    least the length byte, so [length AlpnList] iterations always suffice. *)
Fixpoint get_listener_loop (fuel : nat) (Addr : QUIC_ADDR) (AlpnList : list Z)
    (ls : list QUIC_LISTENER) : option nat * list QUIC_LISTENER :=
  match fuel with
  | O => (None, ls)
  | S fuel' =>
    match AlpnList with
    | [] => (None, ls)                              (* AlpnListLength == 0 *)
    | Length :: AlpnPtr =>
      match get_listener_scan Addr Length AlpnPtr ls with
      | (Some r, ls') => (r, ls')                   (* goto Done *)
      | (None, ls') =>
        get_listener_loop fuel' Addr (drop (Z.to_nat Length) AlpnPtr) ls'
      end
    end
  end.

Definition QuicBindingGetListener (b : QUIC_BINDING) (Info : QUIC_NEW_CONNECTION_INFO)
    : option nat * QUIC_BINDING :=
  let '(Listener, ls) :=
    get_listener_loop (length (AlpnList Info)) (InfoLocalAddress Info)
      (AlpnList Info) (Listeners b) in
  (Listener, set_Listeners b ls).

(** ** Stateless-operation table *)

(** QuicTimeDiff32(T1, T2): elapsed time on the wrapping 32-bit clock. *)
Definition QuicTimeDiff32 (T1 T2 : Z) : Z := (T2 - T1) `mod` 2^32.

(** QuicHashtableLookup / QuicHashtableLookupNext enumerate the bucket of a
    signature; QuicHashtableInsert and QuicHashtableRemove edit it. *)
Definition QuicHashtableLookup (t : gmap Z (list nat)) (Hash : Z) : list nat :=
  default [] (t !! Hash).

Definition QuicHashtableInsert (t : gmap Z (list nat)) (Entry : nat) (Hash : Z)
    : gmap Z (list nat) :=
  <[Hash := Entry :: QuicHashtableLookup t Hash]> t.

Definition QuicHashtableRemove (t : gmap Z (list nat)) (Entry : nat) (Hash : Z)
    : gmap Z (list nat) :=
  <[Hash := filter (λ e, e ≠ Entry) (QuicHashtableLookup t Hash)]> t.

(** The memory of the workers' StatelessContextPool: live contexts by address. *)
Abbreviation ctx_store := (gmap nat QUIC_STATELESS_CONTEXT).

(** The walk over a bucket in QuicBindingCreateStatelessOperation: is there an
    entry whose RemoteAddress compares equal? *)
Fixpoint bucket_has_address (st : ctx_store) (RemoteAddress : QUIC_ADDR)
    (bucket : list nat) : bool :=
  match bucket with
  | [] => false
  | TableEntry :: next =>
    match st !! TableEntry with
    | Some ExistingCtx =>
      if QuicAddrCompare (CtxRemoteAddress ExistingCtx) RemoteAddress then true
      else bucket_has_address st RemoteAddress next
    | None => bucket_has_address st RemoteAddress next
    end
  end.

Section StatelessTable.
Context `{QuicDefs} `{QuicLib}.

(** The ageing loop.  It stops at the first entry that is not yet expired
    (or at a dangling list entry, which a well-formed binding never has). *)
Fixpoint age_out (TimeMs : Z) (l : list nat) (st : ctx_store)
    (t : gmap Z (list nat)) (count : Z)
    : list nat * ctx_store * gmap Z (list nat) * Z :=
  match l with
  | [] => (l, st, t, count)
  | p :: rest =>
    match st !! p with
    | None => (l, st, t, count)
    | Some OldStatelessCtx =>
      if bool_decide (QuicTimeDiff32 (CreationTimeMs OldStatelessCtx) TimeMs <
                      QUIC_STATELESS_OPERATION_EXPIRATION_MS) then
        (l, st, t, count)
      else
        let t' :=
          QuicHashtableRemove t p
            (QuicAddrHash (CtxRemoteAddress OldStatelessCtx)) in
        let count' := (count - 1) `mod` 2^32 in
        let st' :=
          if IsProcessed OldStatelessCtx then delete p st
          else <[p := set_IsExpired OldStatelessCtx]> st in
        age_out TimeMs rest st' t' count'
    end
  end.

(** QuicBindingCreateStatelessOperation.  [TimeMs] is QuicTimeMs32() and
    [AllocOk] tells whether QuicPoolAlloc succeeds; a successful allocation
    returns an address that is not in use. *)
Definition QuicBindingCreateStatelessOperation (b : QUIC_BINDING) (st : ctx_store)
    (Worker : nat) (Datagram : QUIC_RECV_DATAGRAM) (TimeMs : Z) (AllocOk : bool)
    : option nat * QUIC_BINDING * ctx_store * list drop_reason :=
  let RemoteAddress := PktRemoteAddress (RecvPacket Datagram) in
  let Hash := QuicAddrHash RemoteAddress in
  let '(l, st1, t, count) :=
    age_out TimeMs (StatelessOperList b) st (StatelessOperTable b)
      (StatelessOperCount b) in
  let b1 := set_Stateless b count t l in
  if bool_decide (count >= QUIC_MAX_BINDING_STATELESS_OPERATIONS) then
    (None, b1, st1, [Drop_MaxBindingOperationsReached])
  else if bucket_has_address st1 RemoteAddress (QuicHashtableLookup t Hash) then
    (None, b1, st1, [Drop_AlreadyInStatelessOperTable])
  else if negb AllocOk then
    (None, b1, st1, [Drop_AllocFailureStatelessOperCtx])
  else
    let StatelessCtx := fresh (dom st1) in
    let ctx :=
      mkStatelessCtx Worker (Some Datagram) RemoteAddress TimeMs
        false false false in
    (Some StatelessCtx,
     set_Stateless b ((count + 1) `mod` 2^32)
       (QuicHashtableInsert t StatelessCtx Hash) (l ++ [StatelessCtx]),
     <[StatelessCtx := ctx]> st1,
     []).
End StatelessTable.

(** What QuicBindingReleaseStatelessOperation does outside the context
    itself. *)
Inductive release_effect :=
| ReturnRecvDatagrams (d : QUIC_RECV_DATAGRAM)
| ReleaseBinding
| PoolFree (p : nat).

(** QuicBindingReleaseStatelessOperation.  The binding's table, list and count
    are not touched; a context that is no longer allocated is left alone. *)
Definition QuicBindingReleaseStatelessOperation (st : ctx_store)
    (StatelessCtx : nat) (ReturnDatagram : bool) : ctx_store * list release_effect :=
  match st !! StatelessCtx with
  | None => (st, [])
  | Some c =>
    let e1 :=
      match CtxDatagram c with
      | Some d => if ReturnDatagram then [ReturnRecvDatagrams d] else []
      | None => []
      end in
    let FreeCtx := IsExpired c in
    let e2 := if HasBindingRef c then [ReleaseBinding] else [] in
    if FreeCtx then (delete StatelessCtx st, e1 ++ e2 ++ [PoolFree StatelessCtx])
    else (<[StatelessCtx := set_IsProcessed c]> st, e1 ++ e2)
  end.

Inductive QUIC_OPERATION_TYPE :=
| QUIC_OPER_TYPE_API_CALL
| QUIC_OPER_TYPE_FLUSH_RECV
| QUIC_OPER_TYPE_UNREACHABLE
| QUIC_OPER_TYPE_VERSION_NEGOTIATION
| QUIC_OPER_TYPE_STATELESS_RESET
| QUIC_OPER_TYPE_RETRY.

(** Outcomes of the calls QuicBindingQueueStatelessOperation makes outside the
    binding. *)
Record queue_outcomes := mkQueueOutcomes {
  WorkerPoolIsNull : bool;          (* MsQuicLib.WorkerPool == NULL *)
  LibraryWorker : nat;              (* QuicLibraryGetWorker() *)
  WorkerIsOverloaded : bool;
  NowMs : Z;                        (* QuicTimeMs32() *)
  CtxAllocOk : bool;                (* QuicPoolAlloc *)
  OperAllocOk : bool                (* QuicOperationAlloc *)
}.

Section StatelessQueue.
Context `{QuicDefs} `{QuicLib}.

(** QuicBindingQueueStatelessOperation; the third component is the operation
    queued on the worker (its type and STATELESS.Context). *)
Definition QuicBindingQueueStatelessOperation (b : QUIC_BINDING) (st : ctx_store)
    (OperType : QUIC_OPERATION_TYPE) (Datagram : QUIC_RECV_DATAGRAM)
    (o : queue_outcomes)
    : bool * QUIC_BINDING * ctx_store * option (QUIC_OPERATION_TYPE * nat) :=
  if WorkerPoolIsNull o then (false, b, st, None)
  else if WorkerIsOverloaded o then (false, b, st, None)
  else
    match QuicBindingCreateStatelessOperation b st (LibraryWorker o) Datagram
            (NowMs o) (CtxAllocOk o) with
    | (None, b', st', _) => (false, b', st', None)
    | (Some Context, b', st', _) =>
      if negb (OperAllocOk o) then
        (false, b', fst (QuicBindingReleaseStatelessOperation st' Context false), None)
      else (true, b', st', Some (OperType, Context))
    end.

(** QuicBindingQueueStatelessReset *)
Definition QuicBindingQueueStatelessReset (b : QUIC_BINDING) (st : ctx_store)
    (Datagram : QUIC_RECV_DATAGRAM) (o : queue_outcomes)
    : bool * QUIC_BINDING * ctx_store * option (QUIC_OPERATION_TYPE * nat) :=
  if IsLongHeader (RecvPacket Datagram) then (false, b, st, None)
  else if bool_decide (BufferLength (RecvPacket Datagram) <=
                       QUIC_MIN_STATELESS_RESET_PACKET_LENGTH) then
    (false, b, st, None)
  else if Exclusive b then (false, b, st, None)
  else
    QuicBindingQueueStatelessOperation b st QUIC_OPER_TYPE_STATELESS_RESET
      Datagram o.
End StatelessQueue.

(** ** Response builder *)

(** A send datagram as filled in by QuicBindingProcessStatelessOperation.
    The Version Negotiation packet is kept field by field: the fixed header
    (QUIC_VERSION_NEGOTIATION_PACKET), the bytes written through [Buffer]
    starting at VerNeg->DestCID, and the uint32_t array SupportedVersion that
    starts where [Buffer] ends up. *)
Record VER_NEG_DATAGRAM := mkVerNeg {
  VnLength : Z;                     (* SendDatagram->Length *)
  VnIsLongHeader : bool;
  VnUnused : Z;
  VnVersion : Z;
  VnDestCIDLength : Z;
  VnCidBytes : list Z;
  VnSupportedVersion : list Z
}.

Inductive SEND_DATAGRAM :=
| VerNegDatagram (vn : VER_NEG_DATAGRAM)
| RawDatagram (Length : Z) (Buffer : list Z).

(** Calls into the datapath that dispose of a send context. *)
Inductive datapath_call :=
| DataPathBindingFreeSendContext (SendContext : nat)
| DataPathBindingSendFromTo (LocalAddress RemoteAddress : QUIC_ADDR)
    (SendContext : nat) (Datagram : SEND_DATAGRAM).

(** Outcomes of the allocations and of the random generator during one
    QuicBindingProcessStatelessOperation. *)
Record send_outcomes := mkSendOutcomes {
  AllocSendContext : option nat;            (* NULL or the new context *)
  AllocSendDatagram : option (nat → Z);     (* NULL or the buffer's old bytes *)
  Random : rng
}.

(** memcpy(buf + off, data, |data|) *)
Definition write_at (off : nat) (data buf : list Z) : list Z :=
  take off buf ++ data ++ drop (off + length data) buf.

(** First byte of QUIC_SHORT_HEADER_D23.
    Modelled from the spec: the header declaration is outside binding.c; the
    bit positions are those of the short header on the wire (IsLongHeader is
    bit 7, FixedBit bit 6, KeyPhase bit 2). *)
Definition set_short_header_bits (b0 : Z) (KeyPhase : bool) : Z :=
  let b1 := Z.land b0 0x7F in                       (* IsLongHeader = FALSE *)
  let b2 := Z.lor b1 0x40 in                        (* FixedBit = 1 *)
  Z.lor (Z.land b2 0xFB) (if KeyPhase then 0x04 else 0).

Section ResponseBuilder.
Context `{QuicDefs} `{QuicLib}.

(** QuicBindingGenerateStatelessResetToken: [None] when QuicHashCompute
    fails, in which case ResetToken is not written. *)
Definition QuicBindingGenerateStatelessResetToken (b : QUIC_BINDING)
    (CID : list Z) : option (list Z) :=
  match QuicHashCompute (ResetTokenHash b)
          (take (Z.to_nat MSQUIC_CONNECTION_ID_LENGTH) CID) with
  | Some HashOutput =>
    Some (take (Z.to_nat QUIC_STATELESS_RESET_TOKEN_LENGTH) HashOutput)
  | None => None
  end.

(** uint16_t PacketLength of the Version Negotiation branch. *)
Definition ver_neg_packet_length (p : QUIC_RECV_PACKET) : Z :=
  (sizeof_QUIC_VERSION_NEGOTIATION_PACKET +
   SourceCIDLen p +
   1 +
   DestCIDLen p +
   4 +
   sizeof_QuicSupportedVersionList) `mod` 2^16.

(** uint8_t PacketLength of the Stateless Reset branch, from the random
    byte drawn for it. *)
Definition stateless_reset_packet_length (RandomByte : Z) (p : QUIC_RECV_PACKET)
    : Z :=
  let PacketLength := Z.shiftr RandomByte 5 in
  let PacketLength :=
    (PacketLength + QUIC_RECOMMENDED_STATELESS_RESET_PACKET_LENGTH) `mod` 2^8 in
  if bool_decide (PacketLength >= BufferLength p) then
    ((BufferLength p `mod` 2^8) - 1) `mod` 2^8
  else PacketLength.

(** The Exit label: free the send context unless it was handed over. *)
Definition process_exit (SendContext : option nat) : list datapath_call :=
  match SendContext with
  | Some c => [DataPathBindingFreeSendContext c]
  | None => []
  end.

(** QuicBindingSendFromTo (built without QUIC_SEND_FAKE_LOSS). *)
Definition QuicBindingSendFromTo (LocalAddress RemoteAddress : QUIC_ADDR)
    (SendContext : nat) (d : SEND_DATAGRAM) : list datapath_call :=
  [DataPathBindingSendFromTo LocalAddress RemoteAddress SendContext d].

(** Body of QuicBindingProcessStatelessOperation once StatelessCtx->Datagram
    has been read: the datapath calls made on the send context, in order. *)
Definition process_stateless_operation (Binding : QUIC_BINDING)
    (OperationType : QUIC_OPERATION_TYPE) (RecvPacket : QUIC_RECV_PACKET)
    (o : send_outcomes) : list datapath_call :=
  let send SendContext d :=
    QuicBindingSendFromTo (PktLocalAddress RecvPacket)
      (PktRemoteAddress RecvPacket) SendContext d ++ process_exit None in
  match AllocSendContext o with
  | None => process_exit None
  | Some SendContext =>
    match OperationType with
    | QUIC_OPER_TYPE_VERSION_NEGOTIATION =>
      let PacketLength := ver_neg_packet_length RecvPacket in
      match AllocSendDatagram o with
      | None => process_exit (Some SendContext)
      | Some _ =>
        let Buffer := SourceCIDBytes RecvPacket in
        let Buffer := Buffer ++ [DestCIDLen RecvPacket] in
        let Buffer := Buffer ++ DestCID RecvPacket in
        let '(RandomValue, _) := QuicRandom 1 (Random o) in
        let VerNeg :=
          mkVerNeg PacketLength true
            (Z.land 0x7F (default 0 (head RandomValue)))
            QUIC_VERSION_VER_NEG
            (SourceCIDLen RecvPacket)
            Buffer
            (RandomReservedVersion Binding :: QuicSupportedVersionList) in
        send SendContext (VerNegDatagram VerNeg)
      end
    | QUIC_OPER_TYPE_STATELESS_RESET =>
      let '(RandomByte, r1) := QuicRandom 1 (Random o) in
      let PacketLength :=
        stateless_reset_packet_length (default 0 (head RandomByte)) RecvPacket in
      match AllocSendDatagram o with
      | None => process_exit (Some SendContext)
      | Some old =>
        let Buffer := map old (seq 0 (Z.to_nat PacketLength)) in
        let n := Z.to_nat (PacketLength - QUIC_STATELESS_RESET_TOKEN_LENGTH) in
        let '(bytes, _) := QuicRandom n r1 in
        let Buffer := write_at 0 bytes Buffer in
        let Buffer :=
          match Buffer with
          | b0 :: tl => set_short_header_bits b0 (KeyPhase RecvPacket) :: tl
          | [] => []
          end in
        let Buffer :=
          match QuicBindingGenerateStatelessResetToken Binding
                  (DestCID RecvPacket) with
          | Some ResetToken => write_at n ResetToken Buffer
          | None => Buffer
          end in
        send SendContext (RawDatagram PacketLength Buffer)
      end
    | QUIC_OPER_TYPE_RETRY =>
      let PacketLength := QuicPacketMaxBufferSizeForRetryD23 in
      match AllocSendDatagram o with
      | None =>
        DataPathBindingFreeSendContext SendContext ::
        process_exit (Some SendContext)
      | Some _ =>
        let '(NewDestCID, _) :=
          QuicRandom (Z.to_nat MSQUIC_CONNECTION_ID_LENGTH) (Random o) in
        let Token :=
          mkToken (PktRemoteAddress RecvPacket) (DestCID RecvPacket)
            (DestCIDLen RecvPacket) in
        let Iv :=
          NewDestCID ++
          replicate (Z.to_nat (QUIC_IV_LENGTH - MSQUIC_CONNECTION_ID_LENGTH)) 0 in
        let EncryptedToken := QuicEncrypt Iv Token in
        let Buffer :=
          QuicPacketEncodeRetryD23 (HdrVersion RecvPacket)
            (SourceCIDBytes RecvPacket) NewDestCID (DestCID RecvPacket)
            EncryptedToken PacketLength in
        send SendContext (RawDatagram (Z.of_nat (length Buffer)) Buffer)
      end
    | _ => process_exit (Some SendContext)
    end
  end.

(** QuicBindingProcessStatelessOperation; [None] when the context holds no
    datagram (a NULL dereference in the C code). *)
Definition QuicBindingProcessStatelessOperation (Binding : QUIC_BINDING)
    (OperationType : QUIC_OPERATION_TYPE) (StatelessCtx : QUIC_STATELESS_CONTEXT)
    (o : send_outcomes) : option (list datapath_call) :=
  match CtxDatagram StatelessCtx with
  | Some RecvDatagram =>
    Some (process_stateless_operation Binding OperationType
            (RecvPacket RecvDatagram) o)
  | None => None
  end.

(** ** Retry token validation and retry gating *)

(** QuicBindingProcessRetryToken, with the drop trace it logs. *)
Definition QuicBindingProcessRetryToken (Packet : QUIC_RECV_PACKET)
    (TokenLength : Z) (TokenBuffer : list Z) : bool * list drop_reason :=
  if negb (bool_decide (TokenLength = sizeof_QUIC_RETRY_TOKEN_CONTENTS)) then
    (false, [Drop_InvalidRetryTokenLength])
  else
    match QuicRetryTokenDecrypt Packet TokenBuffer with
    | None => (false, [Drop_RetryTokenDecryptionFailure])
    | Some Token =>
      if bool_decide (TokOrigConnIdLength Token > sizeof_OrigConnId) then
        (false, [Drop_InvalidRetryTokenOrigConnIdLength])
      else if negb (QuicAddrCompare (TokRemoteAddress Token)
                      (PktRemoteAddress Packet)) then
        (false, [Drop_RetryTokenAddrMismatch])
      else (true, [])
    end.

(** uint64_t CurrentMemoryLimit *)
Definition CurrentMemoryLimit (RetryMemoryLimit QuicTotalMemory : Z) : Z :=
  ((RetryMemoryLimit * QuicTotalMemory) `mod` 2^64) `div` UINT16_MAX.

(** QuicBindingShouldRetryConnection: the result, the packet and
    *DropPacket afterwards. *)
Definition QuicBindingShouldRetryConnection
    (RetryMemoryLimit QuicTotalMemory CurrentHandshakeMemoryUsage : Z)
    (Packet : QUIC_RECV_PACKET) (DropPacket : bool)
    : bool * QUIC_RECV_PACKET * bool :=
  if bool_decide (CurrentHandshakeMemoryUsage <
                  CurrentMemoryLimit RetryMemoryLimit QuicTotalMemory) then
    (false, Packet, DropPacket)
  else
    match QuicPacketValidateLongHeaderD23 Packet with
    | (Packet1, None) => (false, Packet1, true)
    | (Packet1, Some Token) =>
      let TokenLength := Z.of_nat (length Token) in
      if bool_decide (TokenLength = 0) then (true, Packet1, DropPacket)
      else if negb (fst (QuicBindingProcessRetryToken Packet1 TokenLength Token)) then
        (false, Packet1, true)
      else (false, set_ValidToken Packet1 true, DropPacket)
    end.
End ResponseBuilder.

(** ** Connection creation *)

Inductive QUIC_API_TYPE :=
| QUIC_API_TYPE_CONN_CLOSE
| QUIC_API_TYPE_CONN_SHUTDOWN
| QUIC_API_TYPE_CONN_START.

Definition QUIC_CONNECTION_SHUTDOWN_FLAG_NONE : Z := 0.
Definition QUIC_CONNECTION_SHUTDOWN_FLAG_SILENT : Z := 1.

Record QUIC_API_CONTEXT := mkApiContext {
  ApiType : QUIC_API_TYPE;
  ShutdownFlags : Z;                (* CONN_SHUTDOWN.Flags *)
  ShutdownErrorCode : Z             (* CONN_SHUTDOWN.ErrorCode *)
}.

(** An operation object is named by where it lives: the BackUpOper embedded in
    a connection, or a block of the operation pool. *)
Inductive oper_ptr :=
| BackUpOperOf (Connection : nat)
| PoolOper (p : nat).

(** Contents of Connection->BackUpOper; its API_CALL.Context points at the
    BackupApiContext of the connection named there. *)
Record QUIC_OPERATION := mkOper {
  FreeAfterProcess : bool;
  OperType : QUIC_OPERATION_TYPE;
  ApiCallContext : option nat
}.

Record QUIC_CONNECTION := mkConn {
  RefCount : Z;
  ConnHasBinding : bool;            (* Connection->Binding != NULL *)
  ConnWorker : option nat;
  HasSourceCID : bool;              (* SourceCIDs.Next != NULL *)
  BackUpOperUsed : Z;               (* short *)
  BackUpOper : QUIC_OPERATION;
  BackupApiContext : QUIC_API_CONTEXT;
  OperQ : list oper_ptr             (* operations queued by QuicConnQueueOper *)
}.

Abbreviation conn_store := (gmap nat QUIC_CONNECTION).

Definition conn_update (f : QUIC_CONNECTION → QUIC_CONNECTION) (c : nat)
    (cs : conn_store) : conn_store := alter f c cs.

(** QuicConnAddRef / QuicConnRelease.
    Modelled from the spec: the connection is outside binding.c; a reference
    count per connection, the object being freed when the last reference is
    released. *)
Definition QuicConnAddRef (c : nat) (cs : conn_store) : conn_store :=
  conn_update (λ x, mkConn (RefCount x + 1) (ConnHasBinding x) (ConnWorker x)
                      (HasSourceCID x) (BackUpOperUsed x) (BackUpOper x)
                      (BackupApiContext x) (OperQ x)) c cs.

Definition QuicConnRelease (c : nat) (cs : conn_store) : conn_store :=
  match cs !! c with
  | Some x =>
    if bool_decide (RefCount x - 1 = 0) then delete c cs
    else <[c := mkConn (RefCount x - 1) (ConnHasBinding x) (ConnWorker x)
                  (HasSourceCID x) (BackUpOperUsed x) (BackUpOper x)
                  (BackupApiContext x) (OperQ x)]> cs
  | None => cs
  end.

(** QuicConnQueueOper(Connection, Oper) *)
Definition QuicConnQueueOper (c : nat) (Oper : oper_ptr) (cs : conn_store)
    : conn_store :=
  conn_update (λ x, mkConn (RefCount x) (ConnHasBinding x) (ConnWorker x)
                      (HasSourceCID x) (BackUpOperUsed x) (BackUpOper x)
                      (BackupApiContext x) (OperQ x ++ [Oper])) c cs.

(** The connection QuicConnInitialize hands back: one handle-owner reference,
    a first source CID, the backup operation unused. *)
Definition new_connection : QUIC_CONNECTION :=
  mkConn 1 false None true 0
    (mkOper false QUIC_OPER_TYPE_API_CALL None)
    (mkApiContext QUIC_API_TYPE_CONN_CLOSE 0 0) [].

(** Result of QuicLookupAddSourceConnectionID(&Binding->Lookup, SourceCID,
    &Connection): inserted, or a collision that stores the existing connection
    (with a lookup reference) in Connection, or a memory failure that leaves
    Connection NULL. *)
Inductive lookup_add_result :=
| LookupInserted
| LookupCollision (Existing : nat)
| LookupNoMemory.

Record create_outcomes := mkCreateOutcomes {
  ConnInitializeOk : bool;          (* QUIC_SUCCEEDED(QuicConnInitialize) *)
  CreateWorker : nat;               (* QuicLibraryGetWorker() *)
  CreateWorkerOverloaded : bool;
  TryAddRefBindingOk : bool;        (* QuicLibraryTryAddRefBinding *)
  LookupAdd : lookup_add_result
}.

(** The part of the world QuicBindingCreateConnection acts on. *)
Record create_state := mkCreateState {
  CsBinding : QUIC_BINDING;
  CsConns : conn_store;
  CurrentHandshakeMemoryUsage : Z;          (* MsQuicLib, uint64_t *)
  WorkerConnQ : list (nat * nat);           (* QuicWorkerQueueConnection *)
  CsDrops : list drop_reason
}.

(** A run either faults (a NULL pointer is dereferenced) or returns. *)
Inductive outcome (A : Type) :=
| Fault
| Returns (a : A).
Arguments Fault {A}.
Arguments Returns {A} a.

Section CreateConnection.
Context `{QuicDefs}.

(** The interlocked compare-exchange on Connection->BackUpOperUsed and, when
    it wins, the set-up of Connection->BackUpOper. *)
Definition claim_backup_oper (Connection : nat) (cs : conn_store)
    : option (bool * conn_store) :=
  match cs !! Connection with
  | None => None
  | Some x =>
    if bool_decide (BackUpOperUsed x = 0) then
      Some (true,
            <[Connection :=
                mkConn (RefCount x) (ConnHasBinding x) (ConnWorker x)
                  (HasSourceCID x) 1
                  (mkOper false QUIC_OPER_TYPE_API_CALL (Some Connection))
                  (mkApiContext QUIC_API_TYPE_CONN_SHUTDOWN
                     QUIC_CONNECTION_SHUTDOWN_FLAG_SILENT 0)
                  (OperQ x)]> cs)
    else Some (false, cs)
  end.

(** The Exit label of QuicBindingCreateConnection. *)
Definition create_connection_exit (NewConnection : nat)
    (Connection : option nat) (BindingRefAdded : bool) (s : create_state)
    : outcome (option nat * create_state) :=
  let cs :=
    conn_update (λ x, mkConn (RefCount x) (ConnHasBinding x) (ConnWorker x)
                        false (BackUpOperUsed x) (BackUpOper x)
                        (BackupApiContext x) (OperQ x))
      NewConnection (CsConns s) in
  let cs := QuicConnRelease NewConnection cs in
  if BindingRefAdded then
    match Connection with
    | None => Fault                       (* &Connection->BackUpOperUsed *)
    | Some c =>
      match claim_backup_oper c cs with
      | None => Fault
      | Some (true, cs') =>
        Returns (Connection,
                 mkCreateState (CsBinding s)
                   (QuicConnQueueOper NewConnection (BackUpOperOf c) cs')
                   (CurrentHandshakeMemoryUsage s) (WorkerConnQ s) (CsDrops s))
      | Some (false, cs') =>
        Returns (Connection,
                 mkCreateState (CsBinding s) cs'
                   (CurrentHandshakeMemoryUsage s) (WorkerConnQ s) (CsDrops s))
      end
    end
  else
    Returns (Connection,
             mkCreateState (CsBinding s) (QuicConnRelease NewConnection cs)
               (CurrentHandshakeMemoryUsage s) (WorkerConnQ s) (CsDrops s)).

Definition log_drop (r : drop_reason) (s : create_state) : create_state :=
  mkCreateState (CsBinding s) (CsConns s) (CurrentHandshakeMemoryUsage s)
    (WorkerConnQ s) (CsDrops s ++ [r]).

(** QuicBindingCreateConnection.  The new connection object is placed at an
    address not in use. *)
Definition QuicBindingCreateConnection (s : create_state) (o : create_outcomes)
    : outcome (option nat * create_state) :=
  let NewConnection := fresh (dom (CsConns s)) in
  if negb (ConnInitializeOk o) then
    Returns (None, log_drop Drop_FailedToInitializeNewConnection s)
  else
    let cs := <[NewConnection := new_connection]> (CsConns s) in
    let cs := QuicConnAddRef NewConnection cs in
    let s1 :=
      mkCreateState (CsBinding s) cs (CurrentHandshakeMemoryUsage s)
        (WorkerConnQ s) (CsDrops s) in
    if CreateWorkerOverloaded o then
      create_connection_exit NewConnection None false
        (log_drop Drop_WorkerOverloaded s1)
    else
      let cs :=
        conn_update (λ x, mkConn (RefCount x) (ConnHasBinding x)
                            (Some (CreateWorker o)) (HasSourceCID x)
                            (BackUpOperUsed x) (BackUpOper x)
                            (BackupApiContext x) (OperQ x))
          NewConnection cs in
      let s2 :=
        mkCreateState (CsBinding s) cs (CurrentHandshakeMemoryUsage s)
          (WorkerConnQ s) (CsDrops s) in
      if negb (TryAddRefBindingOk o) then
        create_connection_exit NewConnection None false
          (log_drop Drop_CleanUpInProgress s2)
      else
        let cs :=
          conn_update (λ x, mkConn (RefCount x) true (ConnWorker x)
                              (HasSourceCID x) (BackUpOperUsed x) (BackUpOper x)
                              (BackupApiContext x) (OperQ x))
            NewConnection cs in
        let s3 :=
          mkCreateState
            (set_HandshakeConnections (CsBinding s)
               (HandshakeConnections (CsBinding s) + 1))
            cs
            ((CurrentHandshakeMemoryUsage s + QUIC_CONN_HANDSHAKE_MEMORY_USAGE)
               `mod` 2^64)
            (WorkerConnQ s) (CsDrops s) in
        match LookupAdd o with
        | LookupInserted =>
          Returns (Some NewConnection,
                   mkCreateState (CsBinding s3) (CsConns s3)
                     (CurrentHandshakeMemoryUsage s3)
                     (WorkerConnQ s3 ++ [(CreateWorker o, NewConnection)])
                     (CsDrops s3))
        | LookupCollision Existing =>
          create_connection_exit NewConnection (Some Existing) true
            (mkCreateState (CsBinding s3) (QuicConnAddRef Existing (CsConns s3))
               (CurrentHandshakeMemoryUsage s3) (WorkerConnQ s3) (CsDrops s3))
        | LookupNoMemory =>
          create_connection_exit NewConnection None true
            (log_drop Drop_FailedToInsertScid s3)
        end.
End CreateConnection.

(** ** Receive path: preprocessing and chain splitting *)

(** Outcomes of the calls QuicBindingPreprocessPacket makes for one datagram. *)
Record preprocess_outcomes := mkPreprocessOutcomes {
  (* QuicPacketValidateInvariant: None when it fails, else the packet fields *)
  ValidateInvariant : option QUIC_RECV_PACKET;
  VersionIsSupported : bool;        (* QuicIsVersionSupported *)
  VerNegQueued : bool               (* QuicBindingQueueStatelessOperation(VN) *)
}.

Section Preprocess.
Context `{QuicDefs}.

(** QuicBindingPreprocessPacket: the result, *ReleasePacket, and the packet
    scratch area when the invariants were validated. *)
Definition QuicBindingPreprocessPacket (b : QUIC_BINDING) (o : preprocess_outcomes)
    : bool * bool * option QUIC_RECV_PACKET :=
  match ValidateInvariant o with
  | None => (false, true, None)
  | Some Packet =>
    if (if Exclusive b then negb (bool_decide (DestCIDLen Packet = 0))
        else bool_decide (DestCIDLen Packet = 0) ||
             bool_decide (DestCIDLen Packet < QUIC_MIN_INITIAL_CONNECTION_ID_LENGTH))
    then (false, true, Some Packet)
    else if IsLongHeader Packet && negb (VersionIsSupported o) then
      if negb (QuicBindingHasListenerRegistered b) then (false, true, Some Packet)
      else (false, negb (VerNegQueued o), Some Packet)
    else (true, false, Some Packet)
  end.
End Preprocess.

(** What a QUIC_RECV_DATAGRAM** of QuicBindingReceive can point at. *)
Inductive chain_slot :=
| SlotReleaseChain                  (* &ReleaseChain *)
| SlotConnectionChain               (* &ConnectionChain *)
| SlotNext (Datagram : nat).        (* &Datagram->Next *)

(** Local variables of QuicBindingReceive and the memory they point into:
    the Next field and the packet scratch area of every datagram.  A datagram
    absent from [NextOf] has Next == NULL. *)
Record recv_state := mkRecv {
  NextOf : gmap nat nat;
  PacketOf : gmap nat QUIC_RECV_PACKET;
  DatagramChain : option nat;
  ReleaseChain : option nat;
  ReleaseChainTail : chain_slot;
  ConnectionChain : option nat;
  ConnectionChainTail : chain_slot;
  ConnectionChainDataTail : chain_slot;
  ConnectionChainLength : Z;                        (* uint32_t *)
  (* calls of QuicBindingDeliverPackets so far: chain head, length, and the
     Next fields and packet scratch areas at the time of the call *)
  Delivered : list (nat * Z * gmap nat nat * gmap nat QUIC_RECV_PACKET)
}.

(** *slot *)
Definition slot_load (s : recv_state) (slot : chain_slot) : option nat :=
  match slot with
  | SlotReleaseChain => ReleaseChain s
  | SlotConnectionChain => ConnectionChain s
  | SlotNext d => NextOf s !! d
  end.

Definition set_next (d : nat) (v : option nat) (m : gmap nat nat) : gmap nat nat :=
  match v with
  | Some x => <[d := x]> m
  | None => delete d m
  end.

(** *slot = v *)
Definition slot_store (slot : chain_slot) (v : option nat) (s : recv_state)
    : recv_state :=
  match slot with
  | SlotReleaseChain =>
    mkRecv (NextOf s) (PacketOf s) (DatagramChain s) v (ReleaseChainTail s)
      (ConnectionChain s) (ConnectionChainTail s) (ConnectionChainDataTail s)
      (ConnectionChainLength s) (Delivered s)
  | SlotConnectionChain =>
    mkRecv (NextOf s) (PacketOf s) (DatagramChain s) (ReleaseChain s)
      (ReleaseChainTail s) v (ConnectionChainTail s) (ConnectionChainDataTail s)
      (ConnectionChainLength s) (Delivered s)
  | SlotNext d =>
    mkRecv (set_next d v (NextOf s)) (PacketOf s) (DatagramChain s)
      (ReleaseChain s) (ReleaseChainTail s) (ConnectionChain s)
      (ConnectionChainTail s) (ConnectionChainDataTail s)
      (ConnectionChainLength s) (Delivered s)
  end.

Definition set_DatagramChain (v : option nat) (s : recv_state) : recv_state :=
  mkRecv (NextOf s) (PacketOf s) v (ReleaseChain s) (ReleaseChainTail s)
    (ConnectionChain s) (ConnectionChainTail s) (ConnectionChainDataTail s)
    (ConnectionChainLength s) (Delivered s).

Definition set_PacketOf (d : nat) (p : option QUIC_RECV_PACKET) (s : recv_state)
    : recv_state :=
  mkRecv (NextOf s)
    (match p with Some x => <[d := x]> (PacketOf s) | None => PacketOf s end)
    (DatagramChain s) (ReleaseChain s) (ReleaseChainTail s)
    (ConnectionChain s) (ConnectionChainTail s) (ConnectionChainDataTail s)
    (ConnectionChainLength s) (Delivered s).

Definition set_ReleaseChainTail (t : chain_slot) (s : recv_state) : recv_state :=
  mkRecv (NextOf s) (PacketOf s) (DatagramChain s) (ReleaseChain s) t
    (ConnectionChain s) (ConnectionChainTail s) (ConnectionChainDataTail s)
    (ConnectionChainLength s) (Delivered s).

Definition set_ConnectionChainTail (t : chain_slot) (s : recv_state) : recv_state :=
  mkRecv (NextOf s) (PacketOf s) (DatagramChain s) (ReleaseChain s)
    (ReleaseChainTail s) (ConnectionChain s) t (ConnectionChainDataTail s)
    (ConnectionChainLength s) (Delivered s).

Definition set_ConnectionChainDataTail (t : chain_slot) (s : recv_state)
    : recv_state :=
  mkRecv (NextOf s) (PacketOf s) (DatagramChain s) (ReleaseChain s)
    (ReleaseChainTail s) (ConnectionChain s) (ConnectionChainTail s) t
    (ConnectionChainLength s) (Delivered s).

Definition set_ConnectionChainLength (n : Z) (s : recv_state) : recv_state :=
  mkRecv (NextOf s) (PacketOf s) (DatagramChain s) (ReleaseChain s)
    (ReleaseChainTail s) (ConnectionChain s) (ConnectionChainTail s)
    (ConnectionChainDataTail s) n (Delivered s).

(** Record a call QuicBindingDeliverPackets(Binding, chain, length). *)
Definition record_delivery (chain : nat) (s : recv_state) : recv_state :=
  mkRecv (NextOf s) (PacketOf s) (DatagramChain s) (ReleaseChain s)
    (ReleaseChainTail s) (ConnectionChain s) (ConnectionChainTail s)
    (ConnectionChainDataTail s) (ConnectionChainLength s)
    (Delivered s ++ [(chain, ConnectionChainLength s, NextOf s, PacketOf s)]).

(** The destination-CID test that ends the current subchain. *)
Definition dest_cid_differs (Packet ConnectionChainRecvCtx : QUIC_RECV_PACKET)
    : bool :=
  negb (bool_decide (DestCIDLen Packet = DestCIDLen ConnectionChainRecvCtx)) ||
  negb (memcmp_eq (DestCID Packet) (DestCID ConnectionChainRecvCtx)
          (length (DestCID Packet))).

Section Receive.
Context `{QuicDefs}.

(** What the environment decides during one QuicBindingReceive: the outcomes
    of preprocessing per datagram, and the result of the n-th call of
    QuicBindingDeliverPackets. *)
Variable pre : nat → preprocess_outcomes.
Variable deliver : nat → bool.

(** DatagramChain = Datagram->Next; Datagram->Next = NULL; *)
Definition detach_datagram (Datagram : nat) (s : recv_state) : recv_state :=
  let s := set_DatagramChain (NextOf s !! Datagram) s in
  slot_store (SlotNext Datagram) None s.

(** *ReleaseChainTail = Datagram; ReleaseChainTail = &Datagram->Next; *)
Definition release_datagram (Datagram : nat) (s : recv_state) : recv_state :=
  let s := slot_store (ReleaseChainTail s) (Some Datagram) s in
  set_ReleaseChainTail (SlotNext Datagram) s.

(** if (!QuicBindingDeliverPackets(Binding, ConnectionChain, ConnectionChainLength)) {
      *ReleaseChainTail = ConnectionChain; ReleaseChainTail = tail; } *)
Definition deliver_chain (head : nat) (tail : chain_slot) (s : recv_state)
    : recv_state :=
  let s := record_delivery head s in
  if negb (deliver (length (Delivered s) - 1)%nat) then
    let s := slot_store (ReleaseChainTail s) (ConnectionChain s) s in
    set_ReleaseChainTail tail s
  else s.

(** ConnectionChain = NULL; both tails = &ConnectionChain; length = 0 *)
Definition start_new_chain (s : recv_state) : recv_state :=
  let s := slot_store SlotConnectionChain None s in
  let s := set_ConnectionChainTail SlotConnectionChain s in
  let s := set_ConnectionChainDataTail SlotConnectionChain s in
  set_ConnectionChainLength 0 s.

(** The packet does not match the current subchain: deliver it and start a
    new one. *)
Definition split_chain (Binding : QUIC_BINDING) (Packet : QUIC_RECV_PACKET)
    (s : recv_state) : recv_state :=
  match ConnectionChain s with
  | Some head =>
    if negb (Exclusive Binding) &&
       match PacketOf s !! head with
       | Some ConnectionChainRecvCtx =>
         dest_cid_differs Packet ConnectionChainRecvCtx
       | None => false
       end
    then start_new_chain (deliver_chain head (ConnectionChainDataTail s) s)
    else s
  | None => s
  end.

(** Insert the packet in the current chain, handshake packets first. *)
Definition insert_datagram (Datagram : nat) (Packet : QUIC_RECV_PACKET)
    (s : recv_state) : recv_state :=
  let s :=
    set_ConnectionChainLength ((ConnectionChainLength s + 1) `mod` 2^32) s in
  if negb (IsHandshakePkt Packet) then
    let s := slot_store (ConnectionChainDataTail s) (Some Datagram) s in
    set_ConnectionChainDataTail (SlotNext Datagram) s
  else
    match slot_load s (ConnectionChainTail s) with
    | None =>
      let s := slot_store (ConnectionChainTail s) (Some Datagram) s in
      let s := set_ConnectionChainTail (SlotNext Datagram) s in
      set_ConnectionChainDataTail (SlotNext Datagram) s
    | Some after =>
      let s := slot_store (SlotNext Datagram) (Some after) s in
      let s := slot_store (ConnectionChainTail s) (Some Datagram) s in
      set_ConnectionChainTail (SlotNext Datagram) s
    end.

(** One turn of the while loop, for the datagram at the chain head. *)
Definition receive_step (Binding : QUIC_BINDING) (Datagram : nat)
    (s : recv_state) : recv_state :=
  let s := detach_datagram Datagram s in
  let '(ok, ReleasePacket, pkt) :=
    QuicBindingPreprocessPacket Binding (pre Datagram) in
  let s := set_PacketOf Datagram pkt s in
  if negb ok then
    if ReleasePacket then release_datagram Datagram s else s
  else
    match PacketOf s !! Datagram with
    | None => s
    | Some Packet =>
      insert_datagram Datagram Packet (split_chain Binding Packet s)
    end.

(** The while loop; it ends when DatagramChain is NULL. *)
Fixpoint receive_loop (fuel : nat) (Binding : QUIC_BINDING) (s : recv_state)
    : option recv_state :=
  match DatagramChain s with
  | None => Some s
  | Some Datagram =>
    match fuel with
    | O => None
    | S fuel' => receive_loop fuel' Binding (receive_step Binding Datagram s)
    end
  end.

(** After the loop: deliver the last chain. *)
Definition receive_finish (s : recv_state) : recv_state :=
  match ConnectionChain s with
  | Some head => deliver_chain head (ConnectionChainTail s) s
  | None => s
  end.

(** QuicBindingReceive on the chain starting at [chain], with the Next
    fields [next] on entry.  [None]: the loop did not end within [fuel]
    turns. *)
Definition QuicBindingReceive (fuel : nat) (Binding : QUIC_BINDING)
    (next : gmap nat nat) (chain : nat) : option recv_state :=
  receive_finish <$>
    receive_loop fuel Binding
      (mkRecv next ∅ (Some chain) None SlotReleaseChain None
         SlotConnectionChain SlotConnectionChain 0 []).
End Receive.

(** ** A concrete configuration

    The values of the draft-23 code base, used to run the model on concrete
    inputs. *)
Definition example_defs : QuicDefs := {|
  QUIC_MIN_STATELESS_RESET_PACKET_LENGTH := 39;
  QUIC_RECOMMENDED_STATELESS_RESET_PACKET_LENGTH := 41;
  QUIC_STATELESS_RESET_TOKEN_LENGTH := 16;
  QUIC_HASH_SHA256_SIZE := 32;
  QUIC_MAX_BINDING_STATELESS_OPERATIONS := 100;
  QUIC_STATELESS_OPERATION_EXPIRATION_MS := 100;
  QUIC_VERSION_VER_NEG := 0;
  QuicSupportedVersionList := [0xff000017; 0xabcd0000];
  sizeof_QUIC_VERSION_NEGOTIATION_PACKET := 6;
  QUIC_MAX_CONNECTION_ID_LENGTH_INVARIANT := 255;
  QUIC_DEFAULT_PATH_MTU := 1280;
  MSQUIC_CONNECTION_ID_LENGTH := 8;
  QUIC_MIN_INITIAL_CONNECTION_ID_LENGTH := 8;
  QUIC_IV_LENGTH := 12;
  sizeof_QUIC_RETRY_TOKEN_CONTENTS := 47;
  sizeof_OrigConnId := 18;
  QUIC_CONN_HANDSHAKE_MEMORY_USAGE := 4096
|}.

(** Stand-ins for the external routines: the hash of an address is its port,
    the keyed hash returns 32 zero bytes, encryption is the identity on a
    serialised token, a token decrypts to the address read back from it, and
    long-header validation finds the token in the source-CID field. *)
Definition example_lib : QuicLib := {|
  QuicAddrHash := AddrPort;
  QuicHashCompute := λ _ _, Some (replicate 32 0);
  QuicEncrypt := λ _ tok, AddrPort (TokRemoteAddress tok) :: TokOrigConnId tok;
  QuicPacketMaxBufferSizeForRetryD23 := 128;
  QuicPacketEncodeRetryD23 := λ v d s o tok _, v :: d ++ s ++ o ++ tok;
  QuicRetryTokenDecrypt := λ _ buf,
    match buf with
    | port :: cid => Some (mkToken (mkAddr AF_INET [10; 0; 0; 1] port) cid
                             (Z.of_nat (length cid)))
    | [] => None
    end;
  QuicPacketValidateLongHeaderD23 := λ p,
    (p, if IsLongHeader p then Some (SourceCIDBytes p) else None)
|}.

Definition example_addr (port : Z) : QUIC_ADDR := mkAddr AF_INET [10; 0; 0; 1] port.

Definition example_short_packet (len : Z) (port : Z) : QUIC_RECV_PACKET :=
  mkPacket len false 0 true false [1; 2; 3; 4; 5; 6; 7; 8] None true false
    (example_addr port) (example_addr 443).

Definition example_long_packet (version : Z) (token : list Z) (port : Z)
    : QUIC_RECV_PACKET :=
  mkPacket 1200 true version false true [0xA1; 0xA2; 0xA3; 0xA4; 0xA5; 0xA6; 0xA7; 0xA8]
    (Some token) true false (example_addr port) (example_addr 443).

Definition example_binding : QUIC_BINDING :=
  QuicBindingInitialize true false 0x1a2a3a4a [7; 7; 7].

(** How often a trace disposes of a send context: handing it to the datapath
    for sending and freeing it both end its life. *)
Definition disposes (c : nat) (e : datapath_call) : bool :=
  match e with
  | DataPathBindingFreeSendContext c' => bool_decide (c' = c)
  | DataPathBindingSendFromTo _ _ c' _ => bool_decide (c' = c)
  end.

Definition disposals (c : nat) (trace : list datapath_call) : nat :=
  length (filter (λ e, disposes c e = true) trace).

Definition is_free_of (c : nat) (e : datapath_call) : bool :=
  match e with
  | DataPathBindingFreeSendContext c' => bool_decide (c' = c)
  | DataPathBindingSendFromTo _ _ _ _ => false
  end.

Definition frees (c : nat) (trace : list datapath_call) : nat :=
  length (filter (λ e, is_free_of c e = true) trace).

(** A connection that is already in the lookup table; [used] is its
    BackUpOperUsed flag. *)
Definition example_existing_connection (used : Z) : QUIC_CONNECTION :=
  mkConn 1 true (Some 0%nat) true used
    (mkOper false QUIC_OPER_TYPE_API_CALL None)
    (mkApiContext QUIC_API_TYPE_CONN_CLOSE 0 0) [].

(** The world with one existing connection, at address 1. *)
Definition example_create_state (used : Z) : create_state :=
  mkCreateState example_binding {[ 1%nat := example_existing_connection used ]}
    0 [] [].

(** The new connection is created, a worker and the binding reference are
    obtained, and then the source-CID insertion gives [r]. *)
Definition example_create_outcomes (r : lookup_add_result) : create_outcomes :=
  mkCreateOutcomes true 0 false true r.

(** The connection at address [c] after a run, if the run returned. *)
Definition conn_after (c : nat) (r : outcome (option nat * create_state))
    : option QUIC_CONNECTION :=
  match r with
  | Fault => None
  | Returns (_, s) => CsConns s !! c
  end.

Definition returned (r : outcome (option nat * create_state))
    : option (option nat) :=
  match r with
  | Fault => None
  | Returns (c, _) => Some c
  end.

(** ** Vocabulary for the listener registry *)

(** "The listener's family and address match the packet's local address":
    an AF_UNSPEC listener matches every address; otherwise the families are
    equal and the listener is a wildcard or has the same IP. *)
Definition listener_address_matches (Addr : QUIC_ADDR) (L : QUIC_LISTENER) : bool :=
  bool_decide (QuicAddrGetFamily (LocalAddress L) = AF_UNSPEC) ||
  (bool_decide (QuicAddrGetFamily Addr = QuicAddrGetFamily (LocalAddress L)) &&
   (WildCard L || QuicAddrCompareIp Addr (LocalAddress L))).

(** "Family/address and ALPN match". *)
Definition listener_matches (Addr : QUIC_ADDR) (alpn : list Z) (L : QUIC_LISTENER)
    : bool :=
  listener_address_matches Addr L && bool_decide (alpn = Alpn L).

(** One entry of a length-prefixed ALPN list, and the whole list. *)
Definition alpn_entry (alpn : list Z) : list Z := Z.of_nat (length alpn) :: alpn.
Definition alpn_list (alpns : list (list Z)) : list Z := concat (alpn_entry <$> alpns).

Definition ALPN_H3 : list Z := [104; 51].
Definition ALPN_HQ : list Z := [104; 113].

(** A v4 wildcard listener for h3 that is being torn down, and a live
    AF_UNSPEC listener for h3 sorted after it. *)
Definition example_torn_down_listener : QUIC_LISTENER :=
  mkListener 1 (mkAddr AF_INET [0; 0; 0; 0] 443) true ALPN_H3 (mkRundown true 0).
Definition example_live_listener : QUIC_LISTENER :=
  mkListener 2 (mkAddr AF_UNSPEC [] 443) true ALPN_H3 (mkRundown false 1).

Definition example_listener_binding : QUIC_BINDING :=
  (QuicBindingRegisterListener
     (QuicBindingRegisterListener example_binding example_torn_down_listener true).2
     example_live_listener true).2.

Definition example_info : QUIC_NEW_CONNECTION_INFO :=
  mkInfo (example_addr 443) (alpn_list [ALPN_HQ; ALPN_H3]).

Definition listener_family (L : QUIC_LISTENER) : Z :=
  QuicAddrGetFamily (LocalAddress L).

(** The sort order of the listener list: [x] may stand before [y] when its
    family is greater (v6 before v4 before unspec), or the families are equal
    and [x] is not a wildcard standing before a specific address. *)
Definition listener_order (x y : QUIC_LISTENER) : Prop :=
  listener_family x > listener_family y ∨
  (listener_family x = listener_family y ∧
   (WildCard x = false ∨ WildCard y = true)).

(** The (family, wildcard) bucket of [x] comes strictly before that of [y]. *)
Definition bucket_before (x y : QUIC_LISTENER) : Prop :=
  listener_family x > listener_family y ∨
  (listener_family x = listener_family y ∧
   WildCard x = false ∧ WildCard y = true).

Definition listeners_sorted (ls : list QUIC_LISTENER) : Prop :=
  StronglySorted listener_order ls.

(** Two listeners agree on family, wildcardness, IP (when the family is not
    AF_UNSPEC) and ALPN bytes. *)
Definition same_registration (x y : QUIC_LISTENER) : Prop :=
  listener_family x = listener_family y ∧
  WildCard x = WildCard y ∧
  (listener_family x ≠ AF_UNSPEC →
   AddrIp (LocalAddress x) = AddrIp (LocalAddress y)) ∧
  Alpn x = Alpn y.

(** What the registration loop has established about an entry it walked
    past: it may stand before the new listener and is no duplicate of it. *)
Definition passed_over (New x : QUIC_LISTENER) : Prop :=
  listener_order x New ∧ ¬ same_registration New x.

(** No two entries of the list agree in that way. *)
Definition listeners_distinct (ls : list QUIC_LISTENER) : Prop :=
  StronglySorted (λ x y, ¬ same_registration x y) ls.

(** Calls made on the registry of one binding. *)
Inductive listener_op :=
| OpRegister (NewListener : QUIC_LISTENER) (MaximizeOk : bool)
| OpUnregister (Listener : nat).

Definition listener_step (b : QUIC_BINDING) (op : listener_op) : QUIC_BINDING :=
  match op with
  | OpRegister NewListener MaximizeOk =>
    (QuicBindingRegisterListener b NewListener MaximizeOk).2
  | OpUnregister Listener => QuicBindingUnregisterListener b Listener
  end.

Definition run_listener_ops (b : QUIC_BINDING) (ops : list listener_op)
    : QUIC_BINDING :=
  foldl listener_step b ops.

(** The three registrations of the spec's listener-ordering scenario. *)
Definition example_listener_ops : list listener_op :=
  [OpRegister (mkListener 1 (mkAddr AF_INET [0; 0; 0; 0] 443) true ALPN_H3
                 (mkRundown false 1)) true;
   OpRegister (mkListener 2 (mkAddr AF_INET6 [0x20; 0x01; 0x0d; 0xb8; 1] 443)
                 false ALPN_H3 (mkRundown false 1)) true;
   OpRegister (mkListener 3 (mkAddr AF_INET [10; 0; 0; 1] 443) false ALPN_H3
                 (mkRundown false 1)) true].

(** ** Vocabulary for the stateless-operation table *)

(** Calls made on the stateless-operation table of one binding. *)
Inductive stateless_op :=
| OpCreate (Worker : nat) (Datagram : QUIC_RECV_DATAGRAM) (TimeMs : Z)
    (AllocOk : bool)
| OpRelease (StatelessCtx : nat) (ReturnDatagram : bool).

Section StatelessVocabulary.
Context `{QuicDefs} `{QuicLib}.

Definition stateless_step (s : QUIC_BINDING * ctx_store) (op : stateless_op)
    : QUIC_BINDING * ctx_store :=
  match op with
  | OpCreate Worker Datagram TimeMs AllocOk =>
    let r :=
      QuicBindingCreateStatelessOperation s.1 s.2 Worker Datagram TimeMs AllocOk in
    (r.1.1.2, r.1.2)
  | OpRelease StatelessCtx ReturnDatagram =>
    (s.1, (QuicBindingReleaseStatelessOperation s.2 StatelessCtx ReturnDatagram).1)
  end.

Definition run_stateless_ops (s : QUIC_BINDING * ctx_store)
    (ops : list stateless_op) : QUIC_BINDING * ctx_store :=
  foldl stateless_step s ops.

(** [p] is an entry of the hash table. *)
Definition in_table (t : gmap Z (list nat)) (p : nat) : Prop :=
  ∃ h, p ∈ QuicHashtableLookup t h.

(** The tracking structures are consistent: the count is the length of the
    list and within the maximum, the list has no repeats, its members are
    allocated and not expired, the hash table holds exactly the members of
    the list, each once and under the hash of its remote address, and no two
    members have the same remote address. *)
Record table_inv (l : list nat) (st : ctx_store) (t : gmap Z (list nat))
    (count : Z) : Prop := mkTableInv {
  inv_count : count = Z.of_nat (length l);
  inv_bound : count <= QUIC_MAX_BINDING_STATELESS_OPERATIONS;
  inv_nodup : NoDup l;
  inv_live : ∀ p, p ∈ l → ∃ c, st !! p = Some c ∧ IsExpired c = false;
  inv_table : ∀ h p,
    p ∈ QuicHashtableLookup t h ↔
    p ∈ l ∧ ∃ c, st !! p = Some c ∧ QuicAddrHash (CtxRemoteAddress c) = h;
  inv_bucket : ∀ h, NoDup (QuicHashtableLookup t h);
  inv_addr : ∀ p q cp cq,
    p ∈ l → q ∈ l → p ≠ q → st !! p = Some cp → st !! q = Some cq →
    CtxRemoteAddress cp ≠ CtxRemoteAddress cq
}.

Definition binding_table_inv (s : QUIC_BINDING * ctx_store) : Prop :=
  table_inv (StatelessOperList s.1) s.2 (StatelessOperTable s.1)
    (StatelessOperCount s.1).
End StatelessVocabulary.

(** Three datagrams from two remotes, ten milliseconds apart, then the
    release of the first context and a datagram after the expiration time. *)
Definition example_stateless_ops : list stateless_op :=
  [OpCreate 0 (mkDatagram 1 (example_short_packet 60 5000)) 1000 true;
   OpCreate 0 (mkDatagram 2 (example_short_packet 60 5000)) 1010 true;
   OpCreate 0 (mkDatagram 3 (example_short_packet 60 5001)) 1020 true;
   OpRelease 0 false;
   OpCreate 0 (mkDatagram 4 (example_short_packet 60 5000)) 1105 true].

(** The store [st'] still holds every member of [l] that [st] holds, with
    the same remote address and expiry flag. *)
Definition store_agrees (l : list nat) (st st' : ctx_store) : Prop :=
  ∀ q c, q ∈ l → st !! q = Some c →
    ∃ c', st' !! q = Some c' ∧
      CtxRemoteAddress c' = CtxRemoteAddress c ∧ IsExpired c' = IsExpired c.

(** ** Vocabulary for the receive path *)

(** Following Next from [head] visits exactly the datagrams [l] and then
    reaches NULL. *)
Fixpoint is_chain (next : gmap nat nat) (head : option nat) (l : list nat) : Prop :=
  match l with
  | [] => head = None
  | d :: l' => head = Some d ∧ is_chain next (next !! d) l'
  end.

(** The address of the Next field of the last datagram of [l], or of the
    chain variable itself when [l] is empty. *)
Definition tail_slot (l : list nat) : chain_slot :=
  match last l with
  | Some d => SlotNext d
  | None => SlotConnectionChain
  end.

(** The packet of datagram [d] in [pk] is a handshake packet. *)
Definition handshake_in (pk : gmap nat QUIC_RECV_PACKET) (d : nat) : Prop :=
  IsHandshakePkt <$> pk !! d = Some true.

#[global] Instance handshake_in_dec pk d : Decision (handshake_in pk d).
Proof. unfold handshake_in. apply _. Defined.

(** The same, read off what preprocessing validated. *)
Definition is_handshake (pre : nat → preprocess_outcomes) (d : nat) : Prop :=
  IsHandshakePkt <$> ValidateInvariant (pre d) = Some true.

#[global] Instance is_handshake_dec pre d : Decision (is_handshake pre d).
Proof. unfold is_handshake. apply _. Defined.

(** What holds of one call QuicBindingDeliverPackets(chain, length) during a
    receive of the datagrams [ds]: the chain is a NULL-terminated list [l] of
    that length; every packet of it has been validated; all its packets have
    the same destination CID (hence equal length and bytes); and [l] is some
    of the datagrams of [ds], taken in arrival order, with the handshake
    packets moved in front of the others. *)
Definition delivered_ok (ds : list nat)
    (call : nat * Z * gmap nat nat * gmap nat QUIC_RECV_PACKET) : Prop :=
  let '(head, len, next, pk) := call in
  ∃ l seg,
    is_chain next (Some head) l ∧
    len = Z.of_nat (length l) `mod` 2^32 ∧
    (∀ d, d ∈ l → is_Some (pk !! d)) ∧
    (∀ d1 d2 p1 p2, d1 ∈ l → d2 ∈ l → pk !! d1 = Some p1 → pk !! d2 = Some p2 →
       DestCIDLen p1 = DestCIDLen p2 ∧ DestCID p1 = DestCID p2) ∧
    seg `sublist_of` ds ∧
    l = filter (handshake_in pk) seg ++ filter (λ d, ¬ handshake_in pk d) seg.

(** The loop invariant of QuicBindingReceive on the datagrams [ds]: [done]
    are the datagrams already dealt with, [rem] those still on the input,
    [hs] and [da] the handshake and data packets of the current subchain. *)
Record recv_inv (pre : nat → preprocess_outcomes) (ds done rem hs da : list nat)
    (s : recv_state) : Prop := mkRecvInv {
  ri_done : done `sublist_of` ds;
  ri_input : is_chain (NextOf s) (DatagramChain s) rem;
  ri_chain : is_chain (NextOf s) (ConnectionChain s) (hs ++ da);
  ri_tail : ConnectionChainTail s = tail_slot hs;
  ri_data_tail : ConnectionChainDataTail s = tail_slot (hs ++ da);
  ri_length : ConnectionChainLength s = Z.of_nat (length (hs ++ da)) `mod` 2^32;
  ri_nodup : NoDup (done ++ rem);
  ri_sub : ∃ seg, seg `sublist_of` done ∧
    hs = filter (is_handshake pre) seg ∧
    da = filter (λ d, ¬ is_handshake pre d) seg;
  ri_packets : ∀ d, d ∈ hs ++ da →
    is_Some (PacketOf s !! d) ∧ PacketOf s !! d = ValidateInvariant (pre d);
  ri_cid : ∀ d1 d2 p1 p2, d1 ∈ hs ++ da → d2 ∈ hs ++ da →
    PacketOf s !! d1 = Some p1 → PacketOf s !! d2 = Some p2 →
    DestCID p1 = DestCID p2;
  ri_release : ReleaseChainTail s = SlotReleaseChain ∨
    ∃ r, ReleaseChainTail s = SlotNext r ∧ r ∈ done ∧ r ∉ hs ++ da;
  ri_delivered : Forall (delivered_ok ds) (Delivered s)
}.

(** Five datagrams on one chain: data and handshake packets for the CID X,
    then one for Y, then X again; every delivery succeeds. *)
Definition example_next : gmap nat nat :=
  {[ 1%nat := 2%nat; 2%nat := 3%nat; 3%nat := 4%nat; 4%nat := 5%nat ]}.

Definition example_cid_packet (cid : list Z) (handshake : bool) : QUIC_RECV_PACKET :=
  mkPacket 1200 handshake 0xff000017 false handshake cid
    (if handshake then Some [0xB1; 0xB2] else None) true false
    (example_addr 5000) (example_addr 443).

Definition CID_X : list Z := [1; 1; 1; 1; 1; 1; 1; 1].
Definition CID_Y : list Z := [2; 2; 2; 2; 2; 2; 2; 2].

Definition example_pre (d : nat) : preprocess_outcomes :=
  mkPreprocessOutcomes
    (Some (match d with
           | 1%nat => example_cid_packet CID_X false
           | 2%nat => example_cid_packet CID_X true
           | 3%nat => example_cid_packet CID_X true
           | 4%nat => example_cid_packet CID_Y false
           | _ => example_cid_packet CID_X false
           end))
    true false.

(** The chains handed to QuicBindingDeliverPackets, read off the recorded
    Next fields (at most [length] steps each). *)
Fixpoint read_chain (n : nat) (next : gmap nat nat) (head : option nat) : list nat :=
  match n, head with
  | S n', Some d => d :: read_chain n' next (next !! d)
  | _, _ => []
  end.

Definition delivered_chains (s : recv_state) : list (list nat) :=
  (λ call : nat * Z * gmap nat nat * gmap nat QUIC_RECV_PACKET,
     read_chain (Z.to_nat call.1.1.2) call.1.2 (Some call.1.1.1)) <$> Delivered s.

(** Insertion order inside the buckets.  The address of a listener object
    serves as the time stamp of its registration when listeners are
    registered at increasing addresses; the list then keeps every bucket in
    the order of registration. *)
Definition same_bucket (x y : QUIC_LISTENER) : Prop :=
  listener_family x = listener_family y ∧ WildCard x = WildCard y.

Definition registration_ptrs (ops : list listener_op) : list nat :=
  omap (λ op, match op with
              | OpRegister NewListener _ => Some (ListenerPtr NewListener)
              | OpUnregister _ => None
              end) ops.

Definition registered_in_order (ops : list listener_op) : Prop :=
  StronglySorted lt (registration_ptrs ops).

Definition bucket_insertion_order (ls : list QUIC_LISTENER) : Prop :=
  StronglySorted (λ x y, same_bucket x y → (ListenerPtr x < ListenerPtr y)%nat) ls.

(** ** Vocabulary for the response builder *)

Section RetryVocabulary.
Context `{QuicDefs} `{QuicLib}.

(** The pieces of the Retry branch of QuicBindingProcessStatelessOperation:
    the new connection ID drawn from the generator, the IV made from it, the
    token before encryption, and the encrypted token put in the packet. *)
Definition retry_new_dest_cid (r : rng) : list Z :=
  (QuicRandom (Z.to_nat MSQUIC_CONNECTION_ID_LENGTH) r).1.

Definition retry_iv (NewDestCID : list Z) : list Z :=
  NewDestCID ++
  replicate (Z.to_nat (QUIC_IV_LENGTH - MSQUIC_CONNECTION_ID_LENGTH)) 0.

Definition retry_token (RecvPacket : QUIC_RECV_PACKET) : QUIC_RETRY_TOKEN_CONTENTS :=
  mkToken (PktRemoteAddress RecvPacket) (DestCID RecvPacket)
    (DestCIDLen RecvPacket).

Definition retry_encrypted_token (RecvPacket : QUIC_RECV_PACKET) (r : rng) : list Z :=
  QuicEncrypt (retry_iv (retry_new_dest_cid r)) (retry_token RecvPacket).
End RetryVocabulary.

(** A configuration whose token size is the size of the stand-in
    encryption (the port and an 8-byte connection ID). *)
Definition example_retry_defs : QuicDefs := {|
  QUIC_MIN_STATELESS_RESET_PACKET_LENGTH := 39;
  QUIC_RECOMMENDED_STATELESS_RESET_PACKET_LENGTH := 41;
  QUIC_STATELESS_RESET_TOKEN_LENGTH := 16;
  QUIC_HASH_SHA256_SIZE := 32;
  QUIC_MAX_BINDING_STATELESS_OPERATIONS := 100;
  QUIC_STATELESS_OPERATION_EXPIRATION_MS := 100;
  QUIC_VERSION_VER_NEG := 0;
  QuicSupportedVersionList := [0xff000017; 0xabcd0000];
  sizeof_QUIC_VERSION_NEGOTIATION_PACKET := 6;
  QUIC_MAX_CONNECTION_ID_LENGTH_INVARIANT := 255;
  QUIC_DEFAULT_PATH_MTU := 1280;
  MSQUIC_CONNECTION_ID_LENGTH := 8;
  QUIC_MIN_INITIAL_CONNECTION_ID_LENGTH := 8;
  QUIC_IV_LENGTH := 12;
  sizeof_QUIC_RETRY_TOKEN_CONTENTS := 9;
  sizeof_OrigConnId := 18;
  QUIC_CONN_HANDSHAKE_MEMORY_USAGE := 4096
|}.

(** The listener list after [L], found between [l1] and [l2], has given out
    one more rundown reference. *)
Definition acquired_in (l1 : list QUIC_LISTENER) (L : QUIC_LISTENER)
    (l2 : list QUIC_LISTENER) : list QUIC_LISTENER :=
  l1 ++ set_Rundown L (mkRundown false (RundownCount (Rundown L) + 1)) :: l2.

(** ** Vocabulary for the life of a stateless context *)

(** Every allocated context is accounted for: one that has not expired is
    still tracked in the list, one that has expired has not been processed
    yet (its worker still holds it), and a context holds its datagram
    exactly until it is processed. *)
Definition ctx_accounted (l : list nat) (st : ctx_store) : Prop :=
  ∀ p c, st !! p = Some c →
    (IsExpired c = false → p ∈ l) ∧
    (IsExpired c = true → IsProcessed c = false) ∧
    (IsProcessed c = false ↔ is_Some (CtxDatagram c)).

(** No allocated context holds the datagram object [D] (the object at its
    address). *)
Definition datagram_unowned (st : ctx_store) (D : QUIC_RECV_DATAGRAM) : Prop :=
  ∀ p c d, st !! p = Some c → CtxDatagram c = Some d → DgPtr d ≠ DgPtr D.

(** ** Delivery of a subchain: QuicBindingDeliverPackets *)

(** Outcomes of the calls QuicBindingDeliverPackets and its callees make
    outside binding.c. *)
Record deliver_outcomes := mkDeliverOutcomes {
  LookupFind : option nat;          (* QuicLookupFindConnection *)
  CanCreateNewConnection : bool;    (* QuicPacketCanCreateNewConnection *)
  RetryMemoryLimit : Z;             (* MsQuicLib.Settings.RetryMemoryLimit *)
  QuicTotalMemory : Z;
  DeliverQueue : queue_outcomes;
  DeliverCreate : create_outcomes
}.

(** The part of the world QuicBindingDeliverPackets acts on: the state of
    connection creation (binding, connections, handshake memory, worker
    queue), the stateless contexts, the stateless operations queued on
    workers, and the datagram chains queued on connections
    (QuicConnQueueRecvDatagram: connection, head of the chain, length). *)
Record deliver_state := mkDeliverState {
  DsCreate : create_state;
  DsCtx : ctx_store;
  DsOperQ : list (QUIC_OPERATION_TYPE * nat);
  DsRecvQ : list (nat * nat * Z)
}.

Definition set_CsBinding (s : create_state) (b : QUIC_BINDING) : create_state :=
  mkCreateState b (CsConns s) (CurrentHandshakeMemoryUsage s) (WorkerConnQ s)
    (CsDrops s).

Definition set_CsConns (s : create_state) (cs : conn_store) : create_state :=
  mkCreateState (CsBinding s) cs (CurrentHandshakeMemoryUsage s) (WorkerConnQ s)
    (CsDrops s).

Section DeliverPackets.
Context `{QuicDefs} `{QuicLib}.

(** QuicBindingShouldCreateConnection (the drops it logs are not recorded);
    [CanCreate] is the result of QuicPacketCanCreateNewConnection. *)
Definition QuicBindingShouldCreateConnection (Binding : QUIC_BINDING)
    (Packet : QUIC_RECV_PACKET) (CanCreate : bool) : bool :=
  if negb (IsLongHeader Packet) then false
  else if negb (QuicBindingHasListenerRegistered Binding) then false
  else if bool_decide (HdrVersion Packet = QUIC_VERSION_VER_NEG) then false
  else if negb CanCreate then false
  else true.

(** The state after a stateless operation was (or was not) queued. *)
Definition after_queue (s : deliver_state)
    (r : bool * QUIC_BINDING * ctx_store * option (QUIC_OPERATION_TYPE * nat))
    : bool * deliver_state :=
  let '(ok, b, st, oper) := r in
  (ok,
   mkDeliverState (set_CsBinding (DsCreate s) b) st
     (DsOperQ s ++ match oper with Some op => [op] | None => [] end)
     (DsRecvQ s)).

(** The tail of QuicBindingDeliverPackets for a connection that was found or
    created: QuicConnQueueRecvDatagram, then the lookup reference is
    released. *)
Definition deliver_to_connection (Connection : nat)
    (DatagramChain : QUIC_RECV_DATAGRAM) (DatagramChainLength : Z)
    (s : deliver_state) : bool * deliver_state :=
  (true,
   mkDeliverState
     (set_CsConns (DsCreate s)
        (QuicConnRelease Connection (CsConns (DsCreate s))))
     (DsCtx s) (DsOperQ s)
     (DsRecvQ s ++ [(Connection, DgPtr DatagramChain, DatagramChainLength)])).

(** QuicBindingDeliverPackets.  A connection found by
    QuicLookupFindConnection comes with a lookup reference (taken by the
    lookup, outside binding.c).  The packet scratch area of the head datagram
    is written by QuicBindingShouldRetryConnection before the datagram goes
    on. *)
Definition QuicBindingDeliverPackets (s : deliver_state)
    (DatagramChain : QUIC_RECV_DATAGRAM) (DatagramChainLength : Z)
    (o : deliver_outcomes) : outcome (bool * deliver_state) :=
  let Packet := RecvPacket DatagramChain in
  let Binding := CsBinding (DsCreate s) in
  match LookupFind o with
  | Some Connection =>
    let s1 :=
      mkDeliverState
        (set_CsConns (DsCreate s)
           (QuicConnAddRef Connection (CsConns (DsCreate s))))
        (DsCtx s) (DsOperQ s) (DsRecvQ s) in
    Returns (deliver_to_connection Connection DatagramChain
               DatagramChainLength s1)
  | None =>
    if negb (QuicBindingShouldCreateConnection Binding Packet
               (CanCreateNewConnection o)) then
      Returns (after_queue s
                 (QuicBindingQueueStatelessReset Binding (DsCtx s)
                    DatagramChain (DeliverQueue o)))
    else
      match QuicBindingShouldRetryConnection (RetryMemoryLimit o)
              (QuicTotalMemory o) (CurrentHandshakeMemoryUsage (DsCreate s))
              Packet false with
      | (true, Packet1, _) =>
        Returns (after_queue s
                   (QuicBindingQueueStatelessOperation Binding (DsCtx s)
                      QUIC_OPER_TYPE_RETRY
                      (mkDatagram (DgPtr DatagramChain) Packet1)
                      (DeliverQueue o)))
      | (false, Packet1, DropPacket) =>
        if negb DropPacket then
          match QuicBindingCreateConnection (DsCreate s) (DeliverCreate o) with
          | Fault => Fault
          | Returns (Some Connection, cs) =>
            Returns (deliver_to_connection Connection
                       (mkDatagram (DgPtr DatagramChain) Packet1)
                       DatagramChainLength
                       (mkDeliverState cs (DsCtx s) (DsOperQ s) (DsRecvQ s)))
          | Returns (None, cs) =>
            Returns (false,
                     mkDeliverState cs (DsCtx s) (DsOperQ s) (DsRecvQ s))
          end
        else Returns (false, s)
      end
  end.
End DeliverPackets.

(** A state with the existing connection of the example and nothing
    queued, and outcomes under which the lookup finds that connection. *)
Definition example_deliver_state : deliver_state :=
  mkDeliverState (example_create_state 0) ∅ [] [].

Definition example_deliver_outcomes (found : option nat) : deliver_outcomes :=
  mkDeliverOutcomes found true 0 0
    (mkQueueOutcomes false 0 false 1000 true true)
    (example_create_outcomes LookupInserted).

(** The result and the state of a run that returned ([s] when it did
    not). *)
Definition deliver_result (r : outcome (bool * deliver_state))
    (s : deliver_state) : bool * deliver_state :=
  match r with
  | Returns x => x
  | Fault => (false, s)
  end.

(** A state whose binding has the listeners of the example, and outcomes
    under which no connection is found and the handshake memory is below the
    retry limit. *)
Definition example_listening_state : deliver_state :=
  mkDeliverState
    (mkCreateState example_listener_binding
       {[ 1%nat := example_existing_connection 0 ]} 0 [] [])
    ∅ [] [].

Definition example_create_deliver_outcomes : deliver_outcomes :=
  mkDeliverOutcomes None true 65535 1000
    (mkQueueOutcomes false 0 false 1000 true true)
    (example_create_outcomes LookupInserted).

(** ** QuicBindingUninitialize: the clean-up of stateless operations *)

Section Uninitialize.
Context `{QuicLib}.


End Uninitialize.

(** * Properties *)

(** ** Send-context ownership in QuicBindingProcessStatelessOperation *)

Section SendContextOwnership.
Context `{QuicDefs} `{QuicLib}.

Lemma disposals_free_once c : disposals c [DataPathBindingFreeSendContext c] = 1%nat.
Proof.
  unfold disposals. rewrite filter_cons_True; [done|].
  simpl. by rewrite bool_decide_eq_true.
Qed.

(** Version Negotiation and Stateless Reset dispose of the context exactly
    once on every path. *)
Lemma ver_neg_disposes_once Binding p c dg r :
  disposals c
    (process_stateless_operation Binding QUIC_OPER_TYPE_VERSION_NEGOTIATION p
       (mkSendOutcomes (Some c) dg r)) = 1%nat.
Proof.
  unfold process_stateless_operation; simpl.
  destruct dg; simpl; [|apply disposals_free_once].
  unfold disposals. rewrite filter_cons_True; [done|].
  simpl. by rewrite bool_decide_eq_true.
Qed.

Lemma stateless_reset_disposes_once Binding p c dg r :
  disposals c
    (process_stateless_operation Binding QUIC_OPER_TYPE_STATELESS_RESET p
       (mkSendOutcomes (Some c) dg r)) = 1%nat.
Proof.
  unfold process_stateless_operation; simpl.
  destruct dg; simpl; [|apply disposals_free_once].
  unfold disposals. rewrite filter_cons_True; [done|].
  simpl. by rewrite bool_decide_eq_true.
Qed.

(** A Retry whose datagram is allocated hands the context over once. *)
Lemma retry_sent_disposes_once Binding p c old r :
  disposals c
    (process_stateless_operation Binding QUIC_OPER_TYPE_RETRY p
       (mkSendOutcomes (Some c) (Some old) r)) = 1%nat.
Proof.
  unfold process_stateless_operation; simpl.
  unfold disposals. rewrite filter_cons_True; [done|].
  simpl. by rewrite bool_decide_eq_true.
Qed.

(** C10 (fails on the code): when the Retry send datagram cannot be
    allocated, the send context is freed in the branch and once more at the
    Exit label, so the context allocated at entry is freed twice. *)
Theorem retry_alloc_failure_frees_twice Binding p c r :
  process_stateless_operation Binding QUIC_OPER_TYPE_RETRY p
    (mkSendOutcomes (Some c) None r) =
    [DataPathBindingFreeSendContext c; DataPathBindingFreeSendContext c] ∧
  frees c
    (process_stateless_operation Binding QUIC_OPER_TYPE_RETRY p
       (mkSendOutcomes (Some c) None r)) = 2%nat.
Proof.
  split; [reflexivity|].
  unfold process_stateless_operation, frees; simpl.
  rewrite !filter_cons_True; simpl; rewrite ?bool_decide_eq_true; done.
Qed.
End SendContextOwnership.

(** ** Retry token validation and retry gating *)

Section RetryGating.
Context `{QuicDefs} `{QuicLib}.

(** C8: QuicBindingProcessRetryToken returns TRUE exactly when the token
    length is sizeof(QUIC_RETRY_TOKEN_CONTENTS), the token decrypts, the
    decrypted OrigConnIdLength fits the OrigConnId array, and the token's
    remote address is the datagram's; each failing check drops the packet
    with its own trace and returns FALSE. *)
Theorem retry_token_accepted_iff Packet TokenLength TokenBuffer :
  (fst (QuicBindingProcessRetryToken Packet TokenLength TokenBuffer) = true ↔
     TokenLength = sizeof_QUIC_RETRY_TOKEN_CONTENTS ∧
     ∃ Token, QuicRetryTokenDecrypt Packet TokenBuffer = Some Token ∧
       TokOrigConnIdLength Token <= sizeof_OrigConnId ∧
       TokRemoteAddress Token = PktRemoteAddress Packet) ∧
  (TokenLength ≠ sizeof_QUIC_RETRY_TOKEN_CONTENTS →
     QuicBindingProcessRetryToken Packet TokenLength TokenBuffer =
       (false, [Drop_InvalidRetryTokenLength])) ∧
  (TokenLength = sizeof_QUIC_RETRY_TOKEN_CONTENTS →
     QuicRetryTokenDecrypt Packet TokenBuffer = None →
     QuicBindingProcessRetryToken Packet TokenLength TokenBuffer =
       (false, [Drop_RetryTokenDecryptionFailure])) ∧
  (∀ Token, TokenLength = sizeof_QUIC_RETRY_TOKEN_CONTENTS →
     QuicRetryTokenDecrypt Packet TokenBuffer = Some Token →
     TokOrigConnIdLength Token > sizeof_OrigConnId →
     QuicBindingProcessRetryToken Packet TokenLength TokenBuffer =
       (false, [Drop_InvalidRetryTokenOrigConnIdLength])) ∧
  (∀ Token, TokenLength = sizeof_QUIC_RETRY_TOKEN_CONTENTS →
     QuicRetryTokenDecrypt Packet TokenBuffer = Some Token →
     TokOrigConnIdLength Token <= sizeof_OrigConnId →
     TokRemoteAddress Token ≠ PktRemoteAddress Packet →
     QuicBindingProcessRetryToken Packet TokenLength TokenBuffer =
       (false, [Drop_RetryTokenAddrMismatch])).
Proof.
  unfold QuicBindingProcessRetryToken, QuicAddrCompare.
  split; [split|split; [|split; [|split]]].
  - intros Hacc.
    case_bool_decide as Hlen; simpl in Hacc; [|discriminate].
    destruct (QuicRetryTokenDecrypt Packet TokenBuffer) as [Token|] eqn:Hdec;
      [|discriminate].
    case_bool_decide as Hcap; simpl in Hacc; [discriminate|].
    case_bool_decide as Haddr; simpl in Hacc; [|discriminate].
    split; [done|]. exists Token. split; [done|]. split; [lia|done].
  - intros (-> & Token & -> & Hcap & Haddr).
    rewrite bool_decide_eq_true_2 by done. simpl.
    rewrite bool_decide_eq_false_2 by lia.
    by rewrite bool_decide_eq_true_2.
  - intros Hlen. by rewrite bool_decide_eq_false_2.
  - intros -> ->. by rewrite bool_decide_eq_true_2.
  - intros Token -> -> Hcap. rewrite bool_decide_eq_true_2 by done. simpl.
    by rewrite bool_decide_eq_true_2.
  - intros Token -> -> Hcap Haddr. rewrite bool_decide_eq_true_2 by done. simpl.
    rewrite bool_decide_eq_false_2 by lia.
    by rewrite bool_decide_eq_false_2.
Qed.

(** C7: QuicBindingShouldRetryConnection.  The limit is
    RetryMemoryLimit * QuicTotalMemory / UINT16_MAX, the product being taken
    on 64 bits and UINT16_MAX being 65535; while the product fits 64 bits
    this is the quotient of the exact product.  Below the limit the function
    returns FALSE and leaves the packet and the drop flag alone.  At or above
    it: a failed long-header validation or a token that fails validation sets
    the drop flag and asks for no retry; an absent token asks for a Retry; a
    token that validates sets ValidToken and asks for no retry. *)
Theorem should_retry_connection_cases
    (RetryMemoryLimit QuicTotalMemory Usage : Z) Packet DropPacket :
  let Limit := ((RetryMemoryLimit * QuicTotalMemory) `mod` 2^64) `div` 65535 in
  let run :=
    QuicBindingShouldRetryConnection RetryMemoryLimit QuicTotalMemory Usage
      Packet DropPacket in
  (Usage < Limit → run = (false, Packet, DropPacket)) ∧
  (∀ Packet1, Usage >= Limit →
     QuicPacketValidateLongHeaderD23 Packet = (Packet1, None) →
     run = (false, Packet1, true)) ∧
  (∀ Packet1 Token, Usage >= Limit →
     QuicPacketValidateLongHeaderD23 Packet = (Packet1, Some Token) →
     Token = [] →
     run = (true, Packet1, DropPacket)) ∧
  (∀ Packet1 Token, Usage >= Limit →
     QuicPacketValidateLongHeaderD23 Packet = (Packet1, Some Token) →
     Token ≠ [] →
     fst (QuicBindingProcessRetryToken Packet1 (Z.of_nat (length Token)) Token)
       = false →
     run = (false, Packet1, true)) ∧
  (∀ Packet1 Token, Usage >= Limit →
     QuicPacketValidateLongHeaderD23 Packet = (Packet1, Some Token) →
     Token ≠ [] →
     fst (QuicBindingProcessRetryToken Packet1 (Z.of_nat (length Token)) Token)
       = true →
     run = (false, set_ValidToken Packet1 true, DropPacket) ∧
     ValidToken (snd (fst run)) = true) ∧
  (0 <= RetryMemoryLimit * QuicTotalMemory < 2^64 →
   Limit = (RetryMemoryLimit * QuicTotalMemory) `div` 65535).
Proof.
  intros Limit run. subst run Limit.
  unfold QuicBindingShouldRetryConnection, CurrentMemoryLimit, UINT16_MAX.
  assert (Hlen : ∀ Token : list Z, Token ≠ [] → Z.of_nat (length Token) ≠ 0).
  { intros [|x l] Hne; [done|]. simpl. lia. }
  split; [|split; [|split; [|split; [|split]]]];
    [..|intros Hfit; by rewrite Z.mod_small].
  - intros Hlt. by rewrite bool_decide_eq_true_2.
  - intros Packet1 Hge ->. by rewrite bool_decide_eq_false_2 by lia.
  - intros Packet1 Token Hge -> ->. by rewrite bool_decide_eq_false_2 by lia.
  - intros Packet1 Token Hge -> Hne Hrej.
    rewrite bool_decide_eq_false_2 by lia.
    rewrite bool_decide_eq_false_2 by (by apply Hlen). by rewrite Hrej.
  - intros Packet1 Token Hge -> Hne Hacc.
    rewrite bool_decide_eq_false_2 by lia.
    rewrite bool_decide_eq_false_2 by (by apply Hlen). by rewrite Hacc.
Qed.

(** Without overflow of the 64-bit product the limit is the one of the
    mathematical formula. *)
Lemma CurrentMemoryLimit_exact RetryMemoryLimit QuicTotalMemory :
  0 <= RetryMemoryLimit * QuicTotalMemory < 2^64 →
  CurrentMemoryLimit RetryMemoryLimit QuicTotalMemory =
    (RetryMemoryLimit * QuicTotalMemory) `div` UINT16_MAX.
Proof.
  intros Hr. unfold CurrentMemoryLimit. rewrite Z.mod_small by exact Hr. done.
Qed.
End RetryGating.

(** ** Stateless Reset length *)

Section StatelessResetLength.
Context `{QuicDefs} `{QuicLib}.

Lemma shiftr5_byte (x : Z) : 0 <= x < 256 → 0 <= Z.shiftr x 5 < 8.
Proof.
  intros Hx. rewrite Z.shiftr_div_pow2 by lia.
  change (2 ^ 5) with 32. split.
  - apply Z.div_pos; lia.
  - apply Z.div_lt_upper_bound; lia.
Qed.


(** What QuicBindingQueueStatelessReset checks before it queues anything. *)
Lemma queue_stateless_reset_admits b st Datagram o :
  (QuicBindingQueueStatelessReset b st Datagram o).1.1.1 = true →
  Exclusive b = false ∧
  IsLongHeader (RecvPacket Datagram) = false ∧
  BufferLength (RecvPacket Datagram) > QUIC_MIN_STATELESS_RESET_PACKET_LENGTH.
Proof.
  unfold QuicBindingQueueStatelessReset.
  destruct (IsLongHeader (RecvPacket Datagram)); [discriminate|].
  case_bool_decide as Hlen; [discriminate|].
  destruct (Exclusive b); [discriminate|].
  intros _. repeat split. lia.
Qed.

(** The length computed on the 8-bit PacketLength, for an inbound packet
    longer than the minimum. *)
Lemma stateless_reset_packet_length_spec (RandomByte : Z) (p : QUIC_RECV_PACKET) :
  0 <= QUIC_MIN_STATELESS_RESET_PACKET_LENGTH →
  QUIC_MIN_STATELESS_RESET_PACKET_LENGTH <=
    QUIC_RECOMMENDED_STATELESS_RESET_PACKET_LENGTH →
  QUIC_RECOMMENDED_STATELESS_RESET_PACKET_LENGTH + 7 <= 255 →
  0 <= RandomByte < 256 →
  BufferLength p > QUIC_MIN_STATELESS_RESET_PACKET_LENGTH →
  stateless_reset_packet_length RandomByte p =
    (if bool_decide (Z.shiftr RandomByte 5 +
                     QUIC_RECOMMENDED_STATELESS_RESET_PACKET_LENGTH >=
                     BufferLength p)
     then BufferLength p - 1
     else Z.shiftr RandomByte 5 + QUIC_RECOMMENDED_STATELESS_RESET_PACKET_LENGTH).
Proof.
  intros Hmin Hrec Hfit Hbyte Hlen.
  pose proof (shiftr5_byte RandomByte Hbyte) as Hhi.
  unfold stateless_reset_packet_length.
  change (2 ^ 8) with 256.
  rewrite (Z.mod_small (_ + _) 256) by lia.
  case_bool_decide as Hclamp; [|done].
  rewrite (Z.mod_small (BufferLength p) 256) by lia.
  rewrite Z.mod_small by lia. done.
Qed.

(** C4: a datagram that QuicBindingQueueStatelessReset admits comes from a
    non-exclusive binding, has a short header and is longer than
    QUIC_MIN_STATELESS_RESET_PACKET_LENGTH; the reset built for it has length
    (random byte >> 5) + QUIC_RECOMMENDED_STATELESS_RESET_PACKET_LENGTH,
    replaced by BufferLength - 1 when that would reach BufferLength, and this
    length lies in [QUIC_MIN_STATELESS_RESET_PACKET_LENGTH, BufferLength). *)
Theorem stateless_reset_length_bounds b st Datagram o (c : nat) (old : nat → Z)
    (r : rng) :
  0 <= QUIC_MIN_STATELESS_RESET_PACKET_LENGTH →
  QUIC_MIN_STATELESS_RESET_PACKET_LENGTH <=
    QUIC_RECOMMENDED_STATELESS_RESET_PACKET_LENGTH →
  QUIC_RECOMMENDED_STATELESS_RESET_PACKET_LENGTH + 7 <= 255 →
  (QuicBindingQueueStatelessReset b st Datagram o).1.1.1 = true →
  let p := RecvPacket Datagram in
  let b' := (QuicBindingQueueStatelessReset b st Datagram o).1.1.2 in
  let HighBits := Z.shiftr (r 0%nat `mod` 256) 5 in
  let PacketLength :=
    if bool_decide (HighBits + QUIC_RECOMMENDED_STATELESS_RESET_PACKET_LENGTH >=
                    BufferLength p)
    then BufferLength p - 1
    else HighBits + QUIC_RECOMMENDED_STATELESS_RESET_PACKET_LENGTH in
  Exclusive b = false ∧ IsLongHeader p = false ∧
  BufferLength p > QUIC_MIN_STATELESS_RESET_PACKET_LENGTH ∧
  0 <= HighBits < 8 ∧
  QUIC_MIN_STATELESS_RESET_PACKET_LENGTH <= PacketLength < BufferLength p ∧
  ∃ Buffer,
    process_stateless_operation b' QUIC_OPER_TYPE_STATELESS_RESET p
      (mkSendOutcomes (Some c) (Some old) r) =
    [DataPathBindingSendFromTo (PktLocalAddress p) (PktRemoteAddress p) c
       (RawDatagram PacketLength Buffer)].
Proof.
  intros Hmin Hrec Hfit Hadm p b' HighBits PacketLength.
  destruct (queue_stateless_reset_admits _ _ _ _ Hadm) as (Hex & Hsh & Hlen).
  assert (Hbyte : 0 <= r 0%nat `mod` 256 < 256) by (apply Z.mod_pos_bound; lia).
  pose proof (shiftr5_byte _ Hbyte) as Hhi.
  split; [done|]. split; [done|]. split; [done|]. split; [done|].
  split.
  - subst PacketLength. fold HighBits in Hhi. fold p in Hlen.
    case_bool_decide; lia.
  - unfold process_stateless_operation. simpl.
    rewrite (stateless_reset_packet_length_spec _ p Hmin Hrec Hfit Hbyte Hlen).
    fold HighBits. fold PacketLength. eexists. reflexivity.
Qed.

End StatelessResetLength.

(** The theorem at a 45-byte packet and the random byte 0xFF: 7 + 41 would
    exceed the packet, so the reset is 44 bytes long. *)
Lemma stateless_reset_length_bounds_witness :
  let Datagram := mkDatagram 1 (example_short_packet 45 5000) in
  let o := mkQueueOutcomes false 0 false 1000 true true in
  (@QuicBindingQueueStatelessReset example_defs example_lib example_binding ∅
     Datagram o).1.1.1 = true ∧
  @stateless_reset_packet_length example_defs 255 (RecvPacket Datagram) = 44 ∧
  39 <= 44 < BufferLength (RecvPacket Datagram).
Proof.
  intros Datagram o.
  assert (Hadm : (@QuicBindingQueueStatelessReset example_defs example_lib
                    example_binding ∅ Datagram o).1.1.1 = true)
    by (vm_compute; reflexivity).
  pose proof (@stateless_reset_length_bounds example_defs example_lib
                example_binding ∅ Datagram o 7%nat (λ _, 0) (λ _, 255)
                ltac:(simpl; lia) ltac:(simpl; lia) ltac:(simpl; lia) Hadm)
    as (_ & _ & _ & _ & Hb & _).
  split; [exact Hadm|]. split; [vm_compute; reflexivity|].
  vm_compute in Hb. vm_compute. exact Hb.
Defined.

(** ** Version Negotiation response *)

Section VersionNegotiation.
Context `{QuicDefs} `{QuicLib}.

(** Under the static assertion on MAX_VER_NEG_PACKET_LENGTH the 16-bit
    PacketLength does not wrap. *)
Lemma ver_neg_packet_length_exact (p : QUIC_RECV_PACKET) :
  static_assert_ver_neg →
  QUIC_DEFAULT_PATH_MTU <= UINT16_MAX →
  0 <= sizeof_QUIC_VERSION_NEGOTIATION_PACKET →
  DestCIDLen p <= QUIC_MAX_CONNECTION_ID_LENGTH_INVARIANT →
  SourceCIDLen p <= QUIC_MAX_CONNECTION_ID_LENGTH_INVARIANT →
  ver_neg_packet_length p =
    sizeof_QUIC_VERSION_NEGOTIATION_PACKET + SourceCIDLen p + 1 +
    DestCIDLen p + 4 + sizeof_QuicSupportedVersionList.
Proof.
  unfold static_assert_ver_neg, MAX_VER_NEG_PACKET_LENGTH, UINT16_MAX,
    ver_neg_packet_length, sizeof_QuicSupportedVersionList, DestCIDLen,
    SourceCIDLen.
  intros Hsa Hmtu Hhdr Hd Hs.
  apply Z.mod_small. change (2 ^ 16) with 65536. lia.
Qed.

(** C6: the Version Negotiation datagram built for a validated inbound
    packet has the long-header bit set and the VN marker as version; its
    destination-CID slot is the inbound source CID (length byte, then bytes)
    and its source-CID slot the inbound destination CID; Unused is a random
    byte masked with 0x7F; the advertised versions are the binding's
    RandomReservedVersion followed by QuicSupportedVersionList; and its length
    is header + SourceCIDLen + 1 + DestCIDLen + 4 +
    sizeof(QuicSupportedVersionList). *)
Theorem ver_neg_response_layout (Binding : QUIC_BINDING) (p : QUIC_RECV_PACKET)
    (c : nat) (old : nat → Z) (r : rng) :
  static_assert_ver_neg →
  QUIC_DEFAULT_PATH_MTU <= UINT16_MAX →
  0 <= sizeof_QUIC_VERSION_NEGOTIATION_PACKET →
  DestCIDLen p <= QUIC_MAX_CONNECTION_ID_LENGTH_INVARIANT →
  SourceCIDLen p <= QUIC_MAX_CONNECTION_ID_LENGTH_INVARIANT →
  ∃ vn,
    process_stateless_operation Binding QUIC_OPER_TYPE_VERSION_NEGOTIATION p
      (mkSendOutcomes (Some c) (Some old) r) =
      [DataPathBindingSendFromTo (PktLocalAddress p) (PktRemoteAddress p) c
         (VerNegDatagram vn)] ∧
    VnIsLongHeader vn = true ∧
    VnVersion vn = QUIC_VERSION_VER_NEG ∧
    VnDestCIDLength vn = SourceCIDLen p ∧
    VnCidBytes vn = SourceCIDBytes p ++ [DestCIDLen p] ++ DestCID p ∧
    VnUnused vn = Z.land 0x7F (r 0%nat `mod` 256) ∧
    VnSupportedVersion vn =
      RandomReservedVersion Binding :: QuicSupportedVersionList ∧
    VnLength vn =
      sizeof_QUIC_VERSION_NEGOTIATION_PACKET + SourceCIDLen p + 1 +
      DestCIDLen p + 4 + sizeof_QuicSupportedVersionList ∧
    VnLength vn =
      sizeof_QUIC_VERSION_NEGOTIATION_PACKET +
      Z.of_nat (length (VnCidBytes vn)) +
      4 * Z.of_nat (length (VnSupportedVersion vn)).
Proof.
  intros Hsa Hmtu Hhdr Hd Hs.
  pose proof (ver_neg_packet_length_exact p Hsa Hmtu Hhdr Hd Hs) as Hlen.
  eexists. split; [reflexivity|]. simpl.
  split; [done|]. split; [done|]. split; [done|].
  split; [by rewrite <- app_assoc|]. split; [done|]. split; [done|].
  split; [exact Hlen|].
  rewrite Hlen. rewrite !length_app. simpl.
  unfold sizeof_QuicSupportedVersionList, SourceCIDLen, DestCIDLen. lia.
Qed.
End VersionNegotiation.

(** The theorem on the spec's first seed scenario: version 0xdeadbeef,
    destination CID A1..A8, source CID B1 B2. *)
Lemma ver_neg_response_layout_witness :
  ∃ vn,
    @process_stateless_operation example_defs example_lib example_binding
      QUIC_OPER_TYPE_VERSION_NEGOTIATION
      (example_long_packet 0xdeadbeef [0xB1; 0xB2] 5000)
      (mkSendOutcomes (Some 7%nat) (Some (λ _, 0)) (λ _, 0xC5)) =
      [DataPathBindingSendFromTo (example_addr 443) (example_addr 5000) 7%nat
         (VerNegDatagram vn)] ∧
    VnCidBytes vn =
      [0xB1; 0xB2; 8; 0xA1; 0xA2; 0xA3; 0xA4; 0xA5; 0xA6; 0xA7; 0xA8] ∧
    VnDestCIDLength vn = 2 ∧
    VnUnused vn = 0x45 ∧
    VnSupportedVersion vn = [0x1a2a3a4a; 0xff000017; 0xabcd0000] ∧
    VnLength vn = 6 + 2 + 1 + 8 + 4 + 8.
Proof.
  destruct (@ver_neg_response_layout example_defs example_lib example_binding
              (example_long_packet 0xdeadbeef [0xB1; 0xB2] 5000) 7%nat
              (λ _, 0) (λ _, 0xC5))
    as (vn & Hrun & _ & _ & Hdl & Hcid & Hun & Hsv & Hlen & _).
  - vm_compute. discriminate.
  - vm_compute. discriminate.
  - vm_compute. discriminate.
  - vm_compute. discriminate.
  - vm_compute. discriminate.
  - exists vn. split; [exact Hrun|]. split; [exact Hcid|]. split; [exact Hdl|].
    split; [exact Hun|]. split; [exact Hsv|]. exact Hlen.
Defined.

(** ** Connection creation: the unwind after the binding reference *)

(** The new connection of the example world is placed at address 2. *)
Lemma example_new_connection_address used :
  fresh (dom (CsConns (example_create_state used))) = 2%nat.
Proof. vm_compute. reflexivity. Qed.

(** C1 (fails on the code): after QuicLibraryTryAddRefBinding has succeeded
    and the source-CID insertion fails, the compare-exchange is done on the
    connection returned by the lookup, not on the new connection.  On a
    collision with a connection whose backup operation is already used,
    nothing is queued on the new connection (address 2) and its
    BackUpOperUsed stays 0; when the existing connection's flag is free it is
    that flag which is taken and that connection's BackUpOper which is queued;
    and on a memory failure the lookup leaves Connection NULL, which the Exit
    path dereferences. *)
Theorem create_connection_unwind_uses_lookup_result :
  let run used r :=
    @QuicBindingCreateConnection example_defs (example_create_state used)
      (example_create_outcomes r) in
  (returned (run 1 (LookupCollision 1%nat)) = Some (Some 1%nat) ∧
   OperQ <$> conn_after 2%nat (run 1 (LookupCollision 1%nat)) = Some [] ∧
   BackUpOperUsed <$> conn_after 2%nat (run 1 (LookupCollision 1%nat)) = Some 0) ∧
  (OperQ <$> conn_after 2%nat (run 0 (LookupCollision 1%nat)) =
     Some [BackUpOperOf 1%nat] ∧
   BackUpOperUsed <$> conn_after 2%nat (run 0 (LookupCollision 1%nat)) = Some 0 ∧
   BackUpOperUsed <$> conn_after 1%nat (run 0 (LookupCollision 1%nat)) = Some 1) ∧
  run 0 LookupNoMemory = Fault.
Proof.
  vm_compute. repeat split.
Qed.

(** ** Listener matching *)

Section ListenerMatching.
Implicit Types (L : QUIC_LISTENER) (ls : list QUIC_LISTENER) (alpn : list Z).

(** The test of the inner loop is [listener_matches] on the ALPN entry the
    cursor stands on. *)
Lemma alpn_test_matches alpn rest L :
  bool_decide (Z.of_nat (length alpn) = AlpnLength L) &&
  memcmp_eq (alpn ++ rest) (Alpn L) (Z.to_nat (Z.of_nat (length alpn))) =
  bool_decide (alpn = Alpn L).
Proof.
  unfold AlpnLength, memcmp_eq. rewrite Nat2Z.id.
  rewrite take_app_length.
  destruct (decide (alpn = Alpn L)) as [->|Hne].
  - rewrite firstn_all. by rewrite !bool_decide_eq_true_2.
  - rewrite (bool_decide_eq_false_2 (alpn = Alpn L)) by done.
    apply andb_false_iff.
    destruct (decide (length alpn = length (Alpn L))) as [Hlen|Hlen].
    + right. apply bool_decide_eq_false_2. rewrite Hlen, firstn_all. done.
    + left. apply bool_decide_eq_false_2. lia.
Qed.

Lemma address_test_matches Addr L :
  negb (bool_decide (QuicAddrGetFamily (LocalAddress L) = AF_UNSPEC)) &&
  (negb (bool_decide (QuicAddrGetFamily Addr = QuicAddrGetFamily (LocalAddress L))) ||
   (negb (WildCard L) && negb (QuicAddrCompareIp Addr (LocalAddress L)))) =
  negb (listener_address_matches Addr L).
Proof.
  unfold listener_address_matches.
  destruct (bool_decide _), (bool_decide _), (WildCard L), (QuicAddrCompareIp _ _);
    reflexivity.
Qed.

(** One step of the inner loop, by cases on [listener_matches]. *)
Lemma get_listener_scan_cons Addr alpn rest L ls :
  get_listener_scan Addr (Z.of_nat (length alpn)) (alpn ++ rest) (L :: ls) =
  if listener_matches Addr alpn L then
    (Some (if RundownReleased (Rundown L) then None else Some (ListenerPtr L)),
     set_Rundown L (QuicRundownAcquire (Rundown L)).2 :: ls)
  else
    let '(r, ls') :=
      get_listener_scan Addr (Z.of_nat (length alpn)) (alpn ++ rest) ls in
    (r, L :: ls').
Proof.
  unfold listener_matches. simpl get_listener_scan.
  rewrite address_test_matches, alpn_test_matches.
  destruct (listener_address_matches Addr L); simpl; [|done].
  destruct (bool_decide (alpn = Alpn L)); simpl; [|done].
  unfold QuicRundownAcquire. by destruct (RundownReleased (Rundown L)).
Qed.

(** No match: the loop runs off the end of the list and changes nothing. *)
Lemma get_listener_scan_no_match Addr alpn rest ls :
  Forall (λ L, listener_matches Addr alpn L = false) ls →
  get_listener_scan Addr (Z.of_nat (length alpn)) (alpn ++ rest) ls = (None, ls).
Proof.
  induction 1 as [|L ls HL _ IH]; [done|].
  rewrite get_listener_scan_cons, HL. simpl. by rewrite IH.
Qed.

(** First match: the loop jumps to Done there, whatever follows. *)
Lemma get_listener_scan_first_match Addr alpn rest l1 L l2 :
  Forall (λ L', listener_matches Addr alpn L' = false) l1 →
  listener_matches Addr alpn L = true →
  (get_listener_scan Addr (Z.of_nat (length alpn)) (alpn ++ rest)
     (l1 ++ L :: l2)).1 =
  Some (if RundownReleased (Rundown L) then None else Some (ListenerPtr L)).
Proof.
  intros Hl1 HL. induction Hl1 as [|L' l1 HL' _ IH].
  - simpl app. by rewrite get_listener_scan_cons, HL.
  - simpl app. rewrite get_listener_scan_cons, HL'. simpl.
    destruct (get_listener_scan _ _ _ (l1 ++ L :: l2)) as [r ls']. exact IH.
Qed.

Lemma alpn_list_length alpns : (length alpns ≤ length (alpn_list alpns))%nat.
Proof.
  induction alpns as [|a alpns IH]; [simpl; lia|].
  unfold alpn_list in *. rewrite fmap_cons. simpl.
  rewrite length_app. lia.
Qed.

(** The outer loop over the client's ALPNs, up to the first ALPN that some
    listener matches. *)
Lemma get_listener_loop_first_match fuel Addr before alpn rest l1 L l2 :
  (length before < fuel)%nat →
  Forall (λ x, Forall (λ L', listener_matches Addr x L' = false) (l1 ++ L :: l2))
    before →
  Forall (λ L', listener_matches Addr alpn L' = false) l1 →
  listener_matches Addr alpn L = true →
  (get_listener_loop fuel Addr (alpn_list before ++ alpn_entry alpn ++ rest)
     (l1 ++ L :: l2)).1 =
  if RundownReleased (Rundown L) then None else Some (ListenerPtr L).
Proof.
  intros Hfuel Hbefore Hl1 HL. revert fuel Hfuel.
  induction Hbefore as [|x before Hx _ IH]; intros fuel Hfuel.
  - destruct fuel as [|fuel]; [simpl in Hfuel; lia|].
    simpl. pose proof (get_listener_scan_first_match Addr alpn rest l1 L l2 Hl1 HL)
      as Hscan.
    destruct (get_listener_scan _ _ _ _) as [r ls']. simpl in Hscan.
    rewrite Hscan. done.
  - destruct fuel as [|fuel]; [simpl in Hfuel; lia|].
    unfold alpn_list. simpl. rewrite <- !app_assoc.
    rewrite (get_listener_scan_no_match Addr x _ _ Hx).
    rewrite Nat2Z.id, drop_app_length.
    apply IH. simpl in Hfuel. lia.
Qed.

(** C2 (amended): the listener returned by QuicBindingGetListener is decided
    by the first listener, in client-ALPN order and then list order, whose
    family/address and ALPN match: it is returned when its rundown is
    acquired, and when the rundown cannot be acquired the search ends there
    and NULL is returned; later listeners are not tried. *)
Theorem get_listener_first_match_decides (b : QUIC_BINDING)
    (Info : QUIC_NEW_CONNECTION_INFO) before alpn after l1 L l2 :
  AlpnList Info = alpn_list (before ++ alpn :: after) →
  Listeners b = l1 ++ L :: l2 →
  Forall (λ x, Forall (λ L', listener_matches (InfoLocalAddress Info) x L' = false)
                 (Listeners b)) before →
  Forall (λ L', listener_matches (InfoLocalAddress Info) alpn L' = false) l1 →
  listener_matches (InfoLocalAddress Info) alpn L = true →
  (QuicBindingGetListener b Info).1 =
    if RundownReleased (Rundown L) then None else Some (ListenerPtr L).
Proof.
  intros Halpn Hls Hbefore Hl1 HL.
  unfold QuicBindingGetListener.
  pose proof (alpn_list_length (before ++ alpn :: after)) as Hlen.
  rewrite length_app in Hlen. simpl in Hlen.
  rewrite Halpn, Hls. rewrite Hls in Hbefore.
  assert (Hsplit : alpn_list (before ++ alpn :: after) =
                   alpn_list before ++ alpn_entry alpn ++ alpn_list after).
  { unfold alpn_list. rewrite fmap_app, concat_app. done. }
  rewrite Hsplit in *.
  pose proof (get_listener_loop_first_match
                (length (alpn_list before ++ alpn_entry alpn ++ alpn_list after))
                (InfoLocalAddress Info) before alpn (alpn_list after) l1 L l2
                ltac:(lia) Hbefore Hl1 HL) as Hloop.
  destruct (get_listener_loop _ _ _ _) as [r ls']. exact Hloop.
Qed.
End ListenerMatching.

(** The registry of the example holds both listeners, the one being torn
    down first. *)
Lemma example_listener_binding_listeners :
  Listeners example_listener_binding =
    [example_torn_down_listener; example_live_listener].
Proof. vm_compute. reflexivity. Qed.

(** C2 as stated fails: the client offers "hq" and "h3" on a v4 address; the
    first matching listener is being torn down, a live listener for h3 that
    accepts every address is registered after it, and QuicBindingGetListener
    returns NULL instead of that listener. *)
Lemma get_listener_does_not_skip_torn_down :
  listener_matches (InfoLocalAddress example_info) ALPN_H3
    example_live_listener = true ∧
  RundownReleased (Rundown example_live_listener) = false ∧
  (QuicBindingGetListener example_listener_binding example_info).1 = None ∧
  (QuicBindingGetListener example_listener_binding example_info).1 ≠
    Some (ListenerPtr example_live_listener).
Proof. vm_compute. repeat split; discriminate. Qed.

(** The amended statement on the same input. *)
Lemma get_listener_first_match_decides_witness :
  (QuicBindingGetListener example_listener_binding example_info).1 = None.
Proof.
  apply (get_listener_first_match_decides example_listener_binding example_info
           [ALPN_HQ] ALPN_H3 [] [] example_torn_down_listener
           [example_live_listener]).
  - reflexivity.
  - apply example_listener_binding_listeners.
  - rewrite example_listener_binding_listeners.
    repeat constructor.
  - constructor.
  - reflexivity.
Defined.

(** ** Listener registry: order and uniqueness *)

Section ListenerRegistry.
Implicit Types (L New x y : QUIC_LISTENER) (ls : list QUIC_LISTENER).

Ltac unfold_order :=
  unfold passed_over, listener_order, bucket_before, same_registration,
    listener_family, QuicAddrGetFamily in *.

Ltac order_solve :=
  unfold_order; intuition (try lia; try congruence).

Lemma bucket_before_order x y : bucket_before x y → listener_order x y.
Proof. order_solve. Qed.

Lemma bucket_before_not_order x y : bucket_before x y → ¬ listener_order y x.
Proof.
  unfold bucket_before, listener_order.
  intros [Hgt|(Heq & Hx & Hy)] [Hgt'|(Heq' & [Hy'|Hx'])]; try lia; congruence.
Qed.

Lemma bucket_before_distinct x y : bucket_before x y → ¬ same_registration x y.
Proof.
  unfold bucket_before, same_registration.
  intros [Hgt|(Heq & Hx & Hy)] (Hf & Hw & _); [lia|congruence].
Qed.

Lemma bucket_before_trans x y z :
  bucket_before x y → listener_order y z → bucket_before x z.
Proof.
  unfold bucket_before, listener_order.
  intros [Hgt|(Heq & Hx & Hy)] [Hgt'|(Heq' & [Hy'|Hz])];
    try (left; lia); try congruence.
  right. split; [lia|]. done.
Qed.

Lemma same_registration_sym x y : same_registration x y → same_registration y x.
Proof.
  unfold same_registration. intros (Hf & Hw & Hip & Ha).
  split; [done|]. split; [done|]. split; [|done].
  intros Hne. symmetry. apply Hip. by rewrite Hf.
Qed.

(** The ALPN comparison of the registration loop. *)
Lemma register_alpn_test New L :
  bool_decide (AlpnLength New = AlpnLength L) &&
  memcmp_eq (Alpn New) (Alpn L) (length (Alpn New)) =
  bool_decide (Alpn New = Alpn L).
Proof.
  unfold AlpnLength, memcmp_eq. rewrite firstn_all.
  destruct (decide (Alpn New = Alpn L)) as [Heq|Hne].
  - rewrite <- Heq, firstn_all. by rewrite !bool_decide_eq_true_2.
  - rewrite (bool_decide_eq_false_2 (Alpn New = Alpn L)) by done.
    apply andb_false_iff.
    destruct (decide (length (Alpn New) = length (Alpn L))) as [Hlen|Hlen].
    + right. apply bool_decide_eq_false_2. rewrite Hlen, firstn_all. done.
    + left. apply bool_decide_eq_false_2. lia.
Qed.

Lemma register_search_spec New ls pos :
  listeners_sorted ls →
  match register_search New ls pos with
  | (None, true) => Forall (passed_over New) ls
  | (Some i, true) =>
    ∃ k, i = (pos + k)%nat ∧ (k < length ls)%nat ∧
      Forall (passed_over New) (take k ls) ∧
      Forall (bucket_before New) (drop k ls)
  | (Some i, false) => ∃ x, x ∈ ls ∧ same_registration New x
  | (None, false) => False
  end.
Proof.
  unfold listeners_sorted. intros Hsorted. revert pos.
  induction Hsorted as [|E rest Hrest IH Hord]; intros pos; [by constructor|].
  assert (Hshift :
    passed_over New E →
    match register_search New rest (S pos) with
    | (None, true) => Forall (passed_over New) (E :: rest)
    | (Some i, true) =>
      ∃ k, i = (pos + k)%nat ∧ (k < length (E :: rest))%nat ∧
        Forall (passed_over New) (take k (E :: rest)) ∧
        Forall (bucket_before New) (drop k (E :: rest))
    | (Some i, false) => ∃ x, x ∈ E :: rest ∧ same_registration New x
    | (None, false) => False
    end).
  { intros HE. specialize (IH (S pos)).
    destruct (register_search New rest (S pos)) as [[i|] [|]]; try done.
    - destruct IH as (k & -> & Hk & Htake & Hdrop).
      exists (S k). simpl. split; [lia|]. split; [lia|]. split; [|done].
      by constructor.
    - destruct IH as (x & Hx & Hsame). exists x. split; [|done].
      by apply elem_of_cons; right.
    - by constructor. }
  assert (Hstop :
    bucket_before New E →
    ∃ k, pos = (pos + k)%nat ∧ (k < length (E :: rest))%nat ∧
      Forall (passed_over New) (take k (E :: rest)) ∧
      Forall (bucket_before New) (drop k (E :: rest))).
  { intros HE. exists 0%nat. simpl. split; [lia|]. split; [lia|].
    split; [constructor|]. constructor; [done|].
    eapply Forall_impl; [exact Hord|]. intros y Hy.
    by eapply bucket_before_trans. }
  simpl register_search.
  case_bool_decide as Hgt.
  { apply Hstop. order_solve. }
  case_bool_decide as Hfam; simpl.
  2:{ apply Hshift. order_solve. }
  destruct (WildCard New) eqn:HwN, (WildCard E) eqn:HwE; simpl.
  3:{ apply Hstop. order_solve. }
  2:{ apply Hshift. order_solve. }
  all: rewrite register_alpn_test; unfold QuicAddrCompareIp.
  all: case_bool_decide as Hunspec; simpl.
  2,4: case_bool_decide as Hip; simpl; [|apply Hshift; order_solve].
  all: case_bool_decide as Halpn; [|apply Hshift; order_solve].
  all: exists E; (split; [by apply elem_of_cons; left|order_solve]).
Qed.

Lemma StronglySorted_list_filter {A} (R : relation A) (P : A → Prop)
    `{∀ a, Decision (P a)} (l : list A) :
  StronglySorted R l → StronglySorted R (filter P l).
Proof.
  induction 1 as [|a l Hl IH Ha]; [constructor|].
  destruct (decide (P a)) as [HP|HP].
  - rewrite filter_cons_True by done. constructor; [done|].
    rewrite Forall_forall in Ha. apply Forall_forall.
    intros y [_ Hy]%list_elem_of_filter. by apply Ha.
  - by rewrite filter_cons_False.
Qed.

(** Inserting after everything walked past and before everything of a later
    bucket keeps the list sorted and free of duplicates. *)
Lemma insert_keeps_sorted New l1 l2 :
  listeners_sorted (l1 ++ l2) →
  Forall (passed_over New) l1 →
  Forall (bucket_before New) l2 →
  listeners_sorted (l1 ++ New :: l2).
Proof.
  unfold listeners_sorted. rewrite !StronglySorted_app, StronglySorted_cons.
  intros (Hcross & Hs1 & Hs2) H1 H2.
  rewrite Forall_forall in H1. rewrite Forall_forall in H2.
  split; [|split; [done|split; [|done]]].
  - intros x1 x2 Hx1 [->|Hx2]%elem_of_cons; [|by apply Hcross].
    by destruct (H1 x1 Hx1).
  - apply Forall_forall. intros y Hy. apply bucket_before_order. by apply H2.
Qed.

Lemma insert_keeps_distinct New l1 l2 :
  listeners_distinct (l1 ++ l2) →
  Forall (passed_over New) l1 →
  Forall (bucket_before New) l2 →
  listeners_distinct (l1 ++ New :: l2).
Proof.
  unfold listeners_distinct. rewrite !StronglySorted_app, StronglySorted_cons.
  intros (Hcross & Hs1 & Hs2) H1 H2.
  rewrite Forall_forall in H1. rewrite Forall_forall in H2.
  split; [|split; [done|split; [|done]]].
  - intros x1 x2 Hx1 [->|Hx2]%elem_of_cons; [|by apply Hcross].
    destruct (H1 x1 Hx1) as [_ Hne]. intros Hs. by apply Hne, same_registration_sym.
  - apply Forall_forall. intros y Hy. apply bucket_before_distinct. by apply H2.
Qed.

Lemma passed_over_no_duplicate New ls :
  Forall (passed_over New) ls → ¬ ∃ x, x ∈ ls ∧ same_registration New x.
Proof.
  rewrite Forall_forall. intros Hall (x & Hx & Hsame).
  by destruct (Hall x Hx).
Qed.

(** One registration on a sorted, duplicate-free list. *)
Lemma register_listener_spec (b : QUIC_BINDING) New (MaximizeOk : bool) :
  listeners_sorted (Listeners b) →
  listeners_distinct (Listeners b) →
  let r := QuicBindingRegisterListener b New MaximizeOk in
  listeners_sorted (Listeners r.2) ∧
  listeners_distinct (Listeners r.2) ∧
  ((∃ x, x ∈ Listeners b ∧ same_registration New x) → r = (false, b)) ∧
  ((¬ ∃ x, x ∈ Listeners b ∧ same_registration New x) →
   Listeners b ≠ [] ∨ MaximizeOk = true → r.1 = true) ∧
  (r.1 = true →
   ∃ l1 l2, Listeners b = l1 ++ l2 ∧ Listeners r.2 = l1 ++ New :: l2 ∧
     Forall (λ x, listener_order x New) l1 ∧
     Forall (bucket_before New) l2) ∧
  (r.1 = false → Listeners r.2 = Listeners b).
Proof.
  intros Hsorted Hdistinct r. subst r.
  unfold QuicBindingRegisterListener.
  pose proof (register_search_spec New (Listeners b) 0 Hsorted) as Hsearch.
  destruct (register_search New (Listeners b) 0) as [[i|] [|]]; [| | |done].
  - (* the walk stopped before an entry of a later bucket *)
    destruct Hsearch as (k & -> & Hk & Htake & Hdrop). simpl.
    assert (Hne : Listeners b ≠ []).
    { intros Hnil. rewrite Hnil in Hk. simpl in Hk. lia. }
    rewrite (bool_decide_eq_false_2 (Listeners b = [])) by done. simpl.
    assert (Hsplit : Listeners b = take k (Listeners b) ++ drop k (Listeners b))
      by (by rewrite take_drop).
    split; [apply insert_keeps_sorted; [by rewrite <- Hsplit|done..]|].
    split; [apply insert_keeps_distinct; [by rewrite <- Hsplit|done..]|].
    split.
    { intros (x & Hx & Hsame). exfalso.
      rewrite Hsplit in Hx. apply elem_of_app in Hx as [Hx|Hx].
      - rewrite Forall_forall in Htake. by destruct (Htake x Hx).
      - rewrite Forall_forall in Hdrop.
        by apply (bucket_before_distinct New x (Hdrop x Hx)). }
    split; [done|]. split; [|done].
    intros _. exists (take k (Listeners b)), (drop k (Listeners b)).
    split; [done|]. split; [done|]. split; [|done].
    eapply Forall_impl; [exact Htake|]. by intros x [Hx _].
  - (* a duplicate was found *)
    simpl. split; [done|]. split; [done|]. split; [done|].
    split; [|split; [done|done]].
    intros Hnone. by destruct Hnone.
  - (* the walk came back to the list head *)
    assert (Hins : listeners_sorted (Listeners b ++ [New]) ∧
                   listeners_distinct (Listeners b ++ [New])).
    { split; [apply insert_keeps_sorted|apply insert_keeps_distinct];
        rewrite ?app_nil_r; done || constructor. }
    destruct Hins as [Hs Hd].
    destruct (decide (Listeners b = [])) as [Hnil|Hne].
    + rewrite (bool_decide_eq_true_2 (Listeners b = [])) by done.
      destruct MaximizeOk; simpl.
      * split; [done|]. split; [done|].
        split; [intros (x & Hx & _); rewrite Hnil in Hx; by apply elem_of_nil in Hx|].
        split; [done|]. split; [|done].
        intros _. exists (Listeners b), []. rewrite app_nil_r.
        split; [done|]. split; [done|]. split; [|constructor].
        rewrite Hnil. constructor.
      * rewrite Hnil. simpl. rewrite filter_cons_False by (intros Hp; by apply Hp).
        rewrite filter_nil.
        split; [constructor|]. split; [constructor|].
        split; [intros (x & Hx & _); by apply elem_of_nil in Hx|].
        split; [|split; [done|done]].
        intros _ [Hc|Hc]; done.
    + rewrite (bool_decide_eq_false_2 (Listeners b = [])) by done. simpl.
      split; [done|]. split; [done|].
      split; [intros Hdup; by destruct (passed_over_no_duplicate _ _ Hsearch)|].
      split; [done|]. split; [|done].
      intros _. exists (Listeners b), []. rewrite app_nil_r.
      split; [done|]. split; [done|]. split; [|constructor].
      eapply Forall_impl; [exact Hsearch|]. by intros x [Hx _].
Qed.

Lemma unregister_listener_spec (b : QUIC_BINDING) (Listener : nat) :
  listeners_sorted (Listeners b) →
  listeners_distinct (Listeners b) →
  listeners_sorted (Listeners (QuicBindingUnregisterListener b Listener)) ∧
  listeners_distinct (Listeners (QuicBindingUnregisterListener b Listener)).
Proof.
  intros Hs Hd. unfold QuicBindingUnregisterListener. simpl.
  split; by apply StronglySorted_list_filter.
Qed.

Lemma run_listener_ops_invariant (b : QUIC_BINDING) ops :
  listeners_sorted (Listeners b) →
  listeners_distinct (Listeners b) →
  listeners_sorted (Listeners (run_listener_ops b ops)) ∧
  listeners_distinct (Listeners (run_listener_ops b ops)).
Proof.
  revert b. induction ops as [|op ops IH]; intros b Hs Hd; [done|].
  simpl. apply IH; destruct op as [New ok|p]; simpl.
  - by destruct (register_listener_spec b New ok Hs Hd) as (? & _).
  - by destruct (unregister_listener_spec b p Hs Hd).
  - by destruct (register_listener_spec b New ok Hs Hd) as (_ & ? & _).
  - by destruct (unregister_listener_spec b p Hs Hd).
Qed.

Lemma bucket_before_not_same x y : bucket_before x y → ¬ same_bucket x y.
Proof.
  unfold bucket_before, same_bucket.
  intros [Hgt|(Heq & Hx & Hy)] [Hf Hw]; [lia|congruence].
Qed.

(** Registrations at increasing addresses keep every bucket in the order
    of registration. *)
Lemma run_listener_ops_insertion_order (b : QUIC_BINDING) ops :
  listeners_sorted (Listeners b) →
  listeners_distinct (Listeners b) →
  bucket_insertion_order (Listeners b) →
  registered_in_order ops →
  (∀ x p, x ∈ Listeners b → p ∈ registration_ptrs ops → (ListenerPtr x < p)%nat) →
  bucket_insertion_order (Listeners (run_listener_ops b ops)).
Proof.
  revert b. induction ops as [|op ops IH]; intros b Hs Hd Hio Hreg Hlt; [done|].
  simpl. destruct op as [New ok|p].
  - (* a registration *)
    unfold registered_in_order, registration_ptrs in Hreg. simpl in Hreg.
    apply StronglySorted_cons in Hreg as [Hnew Hreg].
    fold (registration_ptrs ops) in Hnew, Hreg.
    rewrite Forall_forall in Hnew.
    destruct (register_listener_spec b New ok Hs Hd)
      as (Hs' & Hd' & _ & _ & Htrue & Hfalse).
    simpl. destruct (QuicBindingRegisterListener b New ok).1 eqn:Hres.
    + destruct (Htrue eq_refl) as (l1 & l2 & Hold & Hnewl & Hl1 & Hl2).
      apply IH; [done|done| |done|].
      * rewrite Hnewl. unfold bucket_insertion_order in *. rewrite Hold in Hio, Hlt.
        rewrite StronglySorted_app in Hio. destruct Hio as (Hcross & Hio1 & Hio2).
        rewrite StronglySorted_app, StronglySorted_cons.
        split; [|split; [done|split; [|done]]].
        -- intros x1 x2 Hx1 [->|Hx2]%elem_of_cons; [|by apply Hcross].
           intros _. apply Hlt.
           ++ apply elem_of_app. by left.
           ++ unfold registration_ptrs. simpl. by apply elem_of_cons; left.
        -- rewrite Forall_forall in Hl2. apply Forall_forall.
           intros y Hy Hsame. by destruct (bucket_before_not_same New y (Hl2 y Hy)).
      * intros x q. rewrite Hnewl, elem_of_app, elem_of_cons.
        intros [Hx|[->|Hx]] Hq.
        -- apply Hlt; [rewrite Hold; apply elem_of_app; by left|].
           unfold registration_ptrs. simpl. by apply elem_of_cons; right.
        -- by apply Hnew.
        -- apply Hlt; [rewrite Hold; apply elem_of_app; by right|].
           unfold registration_ptrs. simpl. by apply elem_of_cons; right.
    + apply IH; [done|done| |done|].
      * by rewrite (Hfalse eq_refl).
      * intros x q. rewrite (Hfalse eq_refl). intros Hx Hq. apply Hlt; [done|].
        unfold registration_ptrs. simpl. by apply elem_of_cons; right.
  - (* an unregistration *)
    destruct (unregister_listener_spec b p Hs Hd) as [Hs' Hd'].
    apply IH; [done|done| |done|].
    + unfold QuicBindingUnregisterListener. simpl.
      by apply StronglySorted_list_filter.
    + unfold QuicBindingUnregisterListener. simpl.
      intros x q [_ Hx]%list_elem_of_filter Hq. by apply Hlt.
Qed.

(** C9: after any sequence of QuicBindingRegisterListener and
    QuicBindingUnregisterListener calls on a fresh binding the listener list
    is sorted by family (descending) and then specific before wildcard, and
    holds no two entries that agree on family, wildcardness, IP (for a family
    other than AF_UNSPEC) and ALPN.  A registration of such a duplicate
    returns FALSE and changes nothing; any registration that returns FALSE
    leaves the list as it was; one that returns TRUE puts the new listener
    behind every entry of its own and of earlier buckets and before all later
    buckets, the other entries keeping their order.  Hence, with the
    listeners' addresses as time stamps of their registration, every bucket
    is in the order of registration. *)
Theorem listener_registry_invariant (ShareBinding HasRemote : bool)
    (reserved : Z) (salt : list Z) (ops : list listener_op) :
  let b :=
    run_listener_ops (QuicBindingInitialize ShareBinding HasRemote reserved salt)
      ops in
  listeners_sorted (Listeners b) ∧
  listeners_distinct (Listeners b) ∧
  (registered_in_order ops → bucket_insertion_order (Listeners b)) ∧
  ∀ New MaximizeOk,
    let r := QuicBindingRegisterListener b New MaximizeOk in
    ((∃ x, x ∈ Listeners b ∧ same_registration New x) → r = (false, b)) ∧
    ((¬ ∃ x, x ∈ Listeners b ∧ same_registration New x) →
     Listeners b ≠ [] ∨ MaximizeOk = true → r.1 = true) ∧
    (r.1 = true →
     ∃ l1 l2, Listeners b = l1 ++ l2 ∧ Listeners r.2 = l1 ++ New :: l2 ∧
       Forall (λ x, listener_order x New) l1 ∧
       Forall (bucket_before New) l2) ∧
    (r.1 = false → Listeners r.2 = Listeners b).
Proof.
  intros b.
  destruct (run_listener_ops_invariant
              (QuicBindingInitialize ShareBinding HasRemote reserved salt) ops)
    as [Hs Hd]; [constructor..|].
  fold b in Hs, Hd.
  split; [done|]. split; [done|]. split.
  { intros Hreg. apply run_listener_ops_insertion_order; try done; try constructor.
    intros x p Hx. by apply elem_of_nil in Hx. }
  intros New MaximizeOk.
  by destruct (register_listener_spec b New MaximizeOk Hs Hd) as (_ & _ & ?).
Qed.

(** The spec's listener-ordering scenario: v4 wildcard, v6 specific and v4
    specific registered in this order end up as v6, v4 specific, v4
    wildcard. *)
Lemma example_listener_order :
  ListenerPtr <$> Listeners (run_listener_ops example_binding example_listener_ops)
    = [2; 3; 1]%nat.
Proof. vm_compute. reflexivity. Qed.
End ListenerRegistry.

(** ** Stateless-operation table: bound and uniqueness *)

Section StatelessTableInvariant.
Context `{QuicDefs} `{QuicLib}.
Hypothesis Hmax : 0 <= QUIC_MAX_BINDING_STATELESS_OPERATIONS < 2^32.

Lemma lookup_hashtable_remove t p hp h :
  QuicHashtableLookup (QuicHashtableRemove t p hp) h =
  if decide (hp = h) then filter (λ e, e ≠ p) (QuicHashtableLookup t hp)
  else QuicHashtableLookup t h.
Proof.
  unfold QuicHashtableRemove, QuicHashtableLookup at 1.
  destruct (decide (hp = h)) as [->|Hne].
  - by rewrite lookup_insert_eq.
  - by rewrite lookup_insert_ne.
Qed.

Lemma lookup_hashtable_insert t p hp h :
  QuicHashtableLookup (QuicHashtableInsert t p hp) h =
  if decide (hp = h) then p :: QuicHashtableLookup t hp
  else QuicHashtableLookup t h.
Proof.
  unfold QuicHashtableInsert, QuicHashtableLookup at 1.
  destruct (decide (hp = h)) as [->|Hne].
  - by rewrite lookup_insert_eq.
  - by rewrite lookup_insert_ne.
Qed.

(** The invariant only looks at the members' addresses and expiry flags. *)
Lemma table_inv_agrees l st st' t count :
  table_inv l st t count → store_agrees l st st' → table_inv l st' t count.
Proof.
  intros [Hc Hb Hn Hl Ht Hk Ha] Hag.
  assert (Hback : ∀ q c', q ∈ l → st' !! q = Some c' →
            ∃ c, st !! q = Some c ∧
              CtxRemoteAddress c' = CtxRemoteAddress c ∧ IsExpired c' = IsExpired c).
  { intros q c' Hq Hc'. destruct (Hl q Hq) as (c & Hst & _).
    destruct (Hag q c Hq Hst) as (c'' & Hst' & Haddr & Hexp).
    rewrite Hst' in Hc'. injection Hc' as <-. by exists c. }
  constructor; try done.
  - intros p Hp. destruct (Hl p Hp) as (c & Hst & Hexp).
    destruct (Hag p c Hp Hst) as (c' & Hst' & _ & Hexp').
    exists c'. split; [done|]. congruence.
  - intros h p. rewrite Ht. split.
    + intros (Hp & c & Hst & Hh). split; [done|].
      destruct (Hag p c Hp Hst) as (c' & Hst' & Haddr & _).
      exists c'. split; [done|]. by rewrite Haddr.
    + intros (Hp & c' & Hst' & Hh). split; [done|].
      destruct (Hback p c' Hp Hst') as (c & Hst & Haddr & _).
      exists c. split; [done|]. by rewrite <- Haddr.
  - intros p q cp cq Hp Hq Hne Hcp Hcq.
    destruct (Hback p cp Hp Hcp) as (cp0 & Hcp0 & Hap & _).
    destruct (Hback q cq Hq Hcq) as (cq0 & Hcq0 & Haq & _).
    rewrite Hap, Haq. exact (Ha p q cp0 cq0 Hp Hq Hne Hcp0 Hcq0).
Qed.

(** Dropping the head of the list and its table entry. *)
Lemma table_inv_remove_head p rest st t count c :
  table_inv (p :: rest) st t count →
  st !! p = Some c →
  table_inv rest st
    (QuicHashtableRemove t p (QuicAddrHash (CtxRemoteAddress c)))
    ((count - 1) `mod` 2^32).
Proof.
  intros [Hc Hb Hn Hl Ht Hk Ha] Hst.
  apply NoDup_cons in Hn as [Hp Hn].
  simpl in Hc.
  constructor.
  - rewrite Z.mod_small; lia.
  - rewrite Z.mod_small; lia.
  - done.
  - intros q Hq. apply Hl. by apply elem_of_cons; right.
  - intros h q. rewrite lookup_hashtable_remove.
    destruct (decide (QuicAddrHash (CtxRemoteAddress c) = h)) as [Hh|Hh].
    + rewrite list_elem_of_filter, Ht, elem_of_cons. split.
      * intros (Hne & [->|Hq] & Hex); [done|]. rewrite <- Hh. done.
      * intros (Hq & Hex). rewrite Hh.
        split; [intros ->; done|]. split; [by right|done].
    + rewrite Ht, elem_of_cons. split.
      * intros ([->|Hq] & c' & Hst' & Hh'); [congruence|]. eauto.
      * intros (Hq & Hex). split; [by right|done].
  - intros h. rewrite lookup_hashtable_remove.
    destruct (decide _); [apply NoDup_filter|]; apply Hk.
  - intros q1 q2 c1 c2 H1 H2. apply Ha; by apply elem_of_cons; right.
Qed.

(** A store that differs from [st] only at [p] agrees with it on a list that
    does not contain [p]. *)
Lemma store_agrees_off p l (st st' : ctx_store) :
  p ∉ l → (∀ q, q ≠ p → st' !! q = st !! q) → store_agrees l st st'.
Proof.
  intros Hp Hoff q c Hq Hst. exists c. rewrite Hoff; [done|].
  intros ->. done.
Qed.

(** Ageing keeps the structures consistent and allocates nothing. *)
Lemma age_out_inv TimeMs l st t count :
  table_inv l st t count →
  let r := age_out TimeMs l st t count in
  table_inv r.1.1.1 r.1.1.2 r.1.2 r.2 ∧ dom r.1.1.2 ⊆ dom st.
Proof.
  revert st t count. induction l as [|p rest IH]; intros st t count Hinv; [done|].
  simpl. destruct (inv_live _ _ _ _ Hinv p) as (c & Hst & Hexp);
    [by apply elem_of_cons; left|].
  rewrite Hst. case_bool_decide as Hage; [done|].
  pose proof (table_inv_remove_head _ _ _ _ _ _ Hinv Hst) as Hrest.
  assert (Hp : p ∉ rest).
  { pose proof (inv_nodup _ _ _ _ Hinv) as Hn. by apply NoDup_cons in Hn as [? _]. }
  destruct (IsProcessed c).
  - assert (Hag : store_agrees rest st (delete p st)).
    { apply (store_agrees_off p); [done|]. intros q Hq. by rewrite lookup_delete_ne. }
    destruct (IH _ _ _ (table_inv_agrees _ _ _ _ _ Hrest Hag)) as [Hi Hd].
    split; [exact Hi|]. etrans; [exact Hd|]. apply subseteq_dom, delete_subseteq.
  - assert (Hag : store_agrees rest st (<[p := set_IsExpired c]> st)).
    { apply (store_agrees_off p); [done|]. intros q Hq. by rewrite lookup_insert_ne. }
    destruct (IH _ _ _ (table_inv_agrees _ _ _ _ _ Hrest Hag)) as [Hi Hd].
    split; [exact Hi|]. etrans; [exact Hd|].
    rewrite dom_insert_lookup_L; [done|]. by exists c.
Qed.

(** The bucket walk finds an entry with the address exactly when one is in
    the bucket. *)
Lemma bucket_has_address_false st RemoteAddress bucket :
  bucket_has_address st RemoteAddress bucket = false →
  ∀ p c, p ∈ bucket → st !! p = Some c → CtxRemoteAddress c ≠ RemoteAddress.
Proof.
  induction bucket as [|e bucket IH]; intros Hwalk p c Hp Hst.
  - by apply elem_of_nil in Hp.
  - simpl in Hwalk. apply elem_of_cons in Hp as [->|Hp].
    + rewrite Hst in Hwalk. unfold QuicAddrCompare in Hwalk.
      case_bool_decide; [discriminate|done].
    + destruct (st !! e) as [ce|]; [|by eapply IH].
      destruct (QuicAddrCompare _ _); [discriminate|by eapply IH].
Qed.

(** Appending a fresh context for an address no member has. *)
Lemma table_inv_insert l st t count p Worker Datagram TimeMs RemoteAddress :
  table_inv l st t count →
  count < QUIC_MAX_BINDING_STATELESS_OPERATIONS →
  st !! p = None →
  (∀ q c, q ∈ l → st !! q = Some c → CtxRemoteAddress c ≠ RemoteAddress) →
  table_inv (l ++ [p])
    (<[p := mkStatelessCtx Worker Datagram RemoteAddress TimeMs false false false]> st)
    (QuicHashtableInsert t p (QuicAddrHash RemoteAddress))
    ((count + 1) `mod` 2^32).
Proof.
  intros [Hc Hb Hn Hl Ht Hk Ha] Hlt Hfresh Hnew.
  assert (Hp : p ∉ l).
  { intros Hp. destruct (Hl p Hp) as (c & Hst & _). congruence. }
  assert (Hold : ∀ q, q ∈ l → q ≠ p) by (intros q Hq ->; done).
  constructor.
  - rewrite Z.mod_small by lia. rewrite length_app. simpl. lia.
  - rewrite Z.mod_small by lia. lia.
  - apply NoDup_app. split; [done|]. split; [|apply NoDup_singleton].
    intros q Hq ->%list_elem_of_singleton. done.
  - intros q [Hq| ->%list_elem_of_singleton]%elem_of_app.
    + rewrite lookup_insert_ne by (by apply not_eq_sym, Hold). by apply Hl.
    + rewrite lookup_insert_eq. eauto.
  - intros h q. rewrite lookup_hashtable_insert, elem_of_app, list_elem_of_singleton.
    destruct (decide (QuicAddrHash RemoteAddress = h)) as [Hh|Hh].
    + rewrite elem_of_cons, Ht. split.
      * intros [->|(Hq & c & Hst & Hhash)].
        -- split; [by right|]. rewrite lookup_insert_eq. eauto.
        -- split; [by left|]. rewrite lookup_insert_ne by (by apply not_eq_sym, Hold).
           exists c. split; [done|]. congruence.
      * intros ([Hq| ->] & c & Hst & Hhash); [|by left].
        right. split; [done|].
        rewrite lookup_insert_ne in Hst by (by apply not_eq_sym, Hold).
        exists c. split; [done|]. congruence.
    + rewrite Ht. split.
      * intros (Hq & c & Hst & Hhash). split; [by left|].
        rewrite lookup_insert_ne by (by apply not_eq_sym, Hold). eauto.
      * intros ([Hq| ->] & c & Hst & Hhash).
        -- rewrite lookup_insert_ne in Hst by (by apply not_eq_sym, Hold). eauto.
        -- rewrite lookup_insert_eq in Hst. injection Hst as <-. done.
  - intros h. rewrite lookup_hashtable_insert.
    destruct (decide _) as [Hh|Hh]; [|apply Hk].
    apply NoDup_cons. split; [|apply Hk].
    rewrite Ht. intros [Hq _]. done.
  - intros q1 q2 c1 c2.
    intros [H1| ->%list_elem_of_singleton]%elem_of_app
           [H2| ->%list_elem_of_singleton]%elem_of_app Hne.
    + rewrite !lookup_insert_ne by (by apply not_eq_sym, Hold). by apply Ha.
    + rewrite lookup_insert_ne by (by apply not_eq_sym, Hold).
      rewrite lookup_insert_eq. intros Hc1 [= <-]. simpl. by eapply Hnew.
    + rewrite lookup_insert_eq.
      rewrite lookup_insert_ne by (by apply not_eq_sym, Hold).
      intros [= <-] Hc2. simpl. apply not_eq_sym. by eapply Hnew.
    + done.
Qed.

Lemma create_stateless_operation_inv (s : QUIC_BINDING * ctx_store)
    Worker Datagram TimeMs AllocOk :
  binding_table_inv s →
  let r :=
    QuicBindingCreateStatelessOperation s.1 s.2 Worker Datagram TimeMs AllocOk in
  binding_table_inv (r.1.1.2, r.1.2).
Proof.
  destruct s as [b st]. unfold binding_table_inv. simpl. intros Hinv.
  unfold QuicBindingCreateStatelessOperation.
  pose proof (age_out_inv TimeMs _ _ _ _ Hinv) as [Haged _]. simpl in Haged.
  destruct (age_out TimeMs (StatelessOperList b) st (StatelessOperTable b)
              (StatelessOperCount b)) as [[[l st1] t] count].
  simpl in Haged.
  case_bool_decide as Hfull; [done|].
  destruct (bucket_has_address st1 _ _) eqn:Hwalk; [done|].
  destruct AllocOk; simpl; [|done].
  apply table_inv_insert; [done|lia| |].
  - apply not_elem_of_dom, is_fresh.
  - intros q c Hq Hst Heq.
    apply (bucket_has_address_false _ _ _ Hwalk q c); [|done..].
    apply (inv_table _ _ _ _ Haged). split; [done|].
    exists c. by rewrite Heq.
Qed.

Lemma release_stateless_operation_inv (s : QUIC_BINDING * ctx_store)
    StatelessCtx ReturnDatagram :
  binding_table_inv s →
  binding_table_inv
    (s.1, (QuicBindingReleaseStatelessOperation s.2 StatelessCtx ReturnDatagram).1).
Proof.
  destruct s as [b st]. unfold binding_table_inv. simpl. intros Hinv.
  apply (table_inv_agrees _ st); [done|].
  unfold QuicBindingReleaseStatelessOperation.
  intros q c Hq Hst.
  destruct (st !! StatelessCtx) as [c0|] eqn:Hctx; simpl; [|by exists c].
  destruct (decide (q = StatelessCtx)) as [->|Hne].
  - assert (c0 = c) as -> by congruence.
    destruct (inv_live _ _ _ _ Hinv StatelessCtx Hq) as (c' & Hst' & Hexp).
    assert (c' = c) as -> by congruence.
    rewrite Hexp. simpl. rewrite lookup_insert_eq.
    exists (set_IsProcessed c). done.
  - destruct (IsExpired c0); simpl.
    + rewrite lookup_delete_ne by done. by exists c.
    + rewrite lookup_insert_ne by done. by exists c.
Qed.

Lemma run_stateless_ops_inv (s : QUIC_BINDING * ctx_store) ops :
  binding_table_inv s → binding_table_inv (run_stateless_ops s ops).
Proof.
  revert s. induction ops as [|op ops IH]; intros s Hinv; [done|].
  simpl. apply IH. destruct op as [Worker Datagram TimeMs AllocOk|p rd]; simpl.
  - by apply create_stateless_operation_inv.
  - by apply release_stateless_operation_inv.
Qed.

Lemma initial_table_inv ShareBinding HasRemote reserved salt :
  binding_table_inv
    (QuicBindingInitialize ShareBinding HasRemote reserved salt, ∅).
Proof.
  unfold binding_table_inv. simpl. constructor; simpl.
  - done.
  - lia.
  - constructor.
  - intros p Hp. by apply elem_of_nil in Hp.
  - intros h p. unfold QuicHashtableLookup. rewrite lookup_empty. simpl. split.
    + intros Hp. by apply elem_of_nil in Hp.
    + intros [Hp _]. by apply elem_of_nil in Hp.
  - intros h. unfold QuicHashtableLookup. rewrite lookup_empty. constructor.
  - intros p q cp cq Hp. by apply elem_of_nil in Hp.
Qed.

(** C5: after any sequence of QuicBindingCreateStatelessOperation and
    QuicBindingReleaseStatelessOperation calls on a fresh binding,
    StatelessOperCount is at most QUIC_MAX_BINDING_STATELESS_OPERATIONS, every
    entry of the hash table is an allocated, non-expired context, and two
    different entries never have remote addresses that compare equal.  A
    create call that finds the count at the maximum after ageing returns
    NULL with the trace of the drop, allocates no context and leaves the
    count within the maximum. *)
Theorem stateless_table_bounded_and_unique (ShareBinding HasRemote : bool)
    (reserved : Z) (salt : list Z) (ops : list stateless_op) :
  let s :=
    run_stateless_ops
      (QuicBindingInitialize ShareBinding HasRemote reserved salt, ∅) ops in
  let t := StatelessOperTable s.1 in
  StatelessOperCount s.1 <= QUIC_MAX_BINDING_STATELESS_OPERATIONS ∧
  (∀ p, in_table t p → ∃ c, s.2 !! p = Some c ∧ IsExpired c = false) ∧
  (∀ p q cp cq,
     in_table t p → in_table t q → p ≠ q →
     s.2 !! p = Some cp → s.2 !! q = Some cq →
     IsExpired cp = false → IsExpired cq = false →
     QuicAddrCompare (CtxRemoteAddress cp) (CtxRemoteAddress cq) = false) ∧
  (∀ Worker Datagram TimeMs AllocOk,
     let aged :=
       age_out TimeMs (StatelessOperList s.1) s.2 t (StatelessOperCount s.1) in
     let r :=
       QuicBindingCreateStatelessOperation s.1 s.2 Worker Datagram TimeMs
         AllocOk in
     aged.2 >= QUIC_MAX_BINDING_STATELESS_OPERATIONS →
     r.1.1.1 = None ∧ r.2 = [Drop_MaxBindingOperationsReached] ∧
     dom r.1.2 ⊆ dom s.2 ∧
     StatelessOperCount r.1.1.2 <= QUIC_MAX_BINDING_STATELESS_OPERATIONS).
Proof.
  intros s t.
  pose proof (run_stateless_ops_inv _ ops
                (initial_table_inv ShareBinding HasRemote reserved salt)) as Hinv.
  fold s in Hinv. unfold binding_table_inv in Hinv. fold t in Hinv.
  destruct Hinv as [Hc Hb Hn Hl Ht Hk Ha].
  split; [done|]. split; [|split].
  - intros p [h Hp]. apply Ht in Hp as [Hp _]. by apply Hl.
  - intros p q cp cq [hp Hp] [hq Hq] Hne Hcp Hcq _ _.
    apply Ht in Hp as [Hp _]. apply Ht in Hq as [Hq _].
    unfold QuicAddrCompare. apply bool_decide_eq_false_2.
    exact (Ha p q cp cq Hp Hq Hne Hcp Hcq).
  - intros Worker Datagram TimeMs AllocOk aged r Hfull.
    pose proof (age_out_inv TimeMs _ _ _ _
                  (mkTableInv _ _ _ _ Hc Hb Hn Hl Ht Hk Ha)) as [Haged Hdom].
    fold aged in Haged, Hdom.
    subst r. unfold QuicBindingCreateStatelessOperation. fold t. fold aged.
    destruct aged as [[[l st1] t1] count]. simpl in *.
    rewrite bool_decide_eq_true_2 by done. simpl.
    split; [done|]. split; [done|]. split; [done|]. apply Haged.
Qed.
End StatelessTableInvariant.

(** The theorem on the example run: the second datagram repeats the remote
    of the first and is dropped, the third is admitted, the fifth arrives
    after the first context has expired and is admitted again. *)
Lemma stateless_table_bounded_and_unique_witness :
  let s :=
    @run_stateless_ops example_defs example_lib (example_binding, ∅)
      example_stateless_ops in
  StatelessOperList s.1 = [1; 2]%nat ∧
  StatelessOperCount s.1 <= 100.
Proof.
  intros s. split; [vm_compute; reflexivity|].
  apply (@stateless_table_bounded_and_unique example_defs example_lib
           ltac:(simpl; lia) true false 0x1a2a3a4a [7; 7; 7]
           example_stateless_ops).
Defined.

(** ** Receive path: the subchains handed to QuicBindingDeliverPackets *)

(** On the example the three subchains are [2; 3; 1] (handshake packets
    first, each class in arrival order), then [4], then [5]. *)
Lemma example_receive_chains :
  delivered_chains <$>
    @QuicBindingReceive example_defs example_pre (λ _, true) 5 example_binding
      example_next 1 = Some [[2; 3; 1]; [4]; [5]]%nat.
Proof. vm_compute. reflexivity. Qed.

Section Chains.
Implicit Types (next : gmap nat nat) (h : option nat) (l : list nat) (d : nat).

Lemma is_chain_head next h l : is_chain next h l → h = head l.
Proof. destruct l; simpl; [done|]. by intros [-> _]. Qed.

(** A chain only depends on the Next fields of its own datagrams. *)
Lemma is_chain_frame next next' h l :
  is_chain next h l → (∀ d, d ∈ l → next' !! d = next !! d) → is_chain next' h l.
Proof.
  revert h. induction l as [|d l IH]; intros h; simpl; [done|].
  intros [-> Hl] Hsame. split; [done|].
  rewrite Hsame by (by apply elem_of_cons; left).
  apply IH; [done|]. intros d' Hd'. apply Hsame. by apply elem_of_cons; right.
Qed.

Lemma is_chain_set_next next h l x v :
  is_chain next h l → x ∉ l → is_chain (set_next x v next) h l.
Proof.
  intros Hl Hx. apply (is_chain_frame next); [done|].
  intros d Hd. assert (x ≠ d) by (intros ->; done).
  unfold set_next. destruct v; [by rewrite lookup_insert_ne|by rewrite lookup_delete_ne].
Qed.

Lemma is_chain_functional next h l l' :
  is_chain next h l → is_chain next h l' → l = l'.
Proof.
  revert h l'. induction l as [|d l IH]; intros h [|d' l']; simpl.
  - done.
  - intros -> [? _]. done.
  - intros [-> _] ?. done.
  - intros [-> Hl] [[= <-] Hl']. f_equal. by eapply IH.
Qed.

Lemma is_chain_app_r next h l1 l2 :
  is_chain next h (l1 ++ l2) → is_chain next (head l2) l2.
Proof.
  revert h. induction l1 as [|d l1 IH]; intros h; simpl.
  - intros Hl. by rewrite <- (is_chain_head _ _ _ Hl).
  - intros [_ Hl]. by eapply IH.
Qed.

(** A chain that reaches NULL visits no datagram twice. *)
Lemma is_chain_NoDup next h l : is_chain next h l → NoDup l.
Proof.
  revert h. induction l as [|d l IH]; intros h; [constructor|].
  simpl. intros [-> Hl]. apply NoDup_cons. split; [|by eapply IH].
  intros [a [b ->]]%list_elem_of_split.
  pose proof (is_chain_app_r _ _ _ _ Hl) as Hd. simpl in Hd.
  destruct Hd as [_ Hb].
  pose proof (is_chain_functional _ _ _ _ Hl Hb) as Heq.
  apply (f_equal length) in Heq. rewrite length_app in Heq. simpl in Heq. lia.
Qed.

(** The Next field of the last datagram of a prefix points at what follows. *)
Lemma is_chain_last_next next h l1 l2 x :
  is_chain next h (l1 ++ l2) → last l1 = Some x → next !! x = head l2.
Proof.
  revert h. induction l1 as [|d l1 IH]; intros h; [done|].
  simpl. intros [-> Hl]. destruct l1 as [|d' l1].
  - simpl. intros [= ->]. simpl in Hl. by apply is_chain_head in Hl.
  - intros Hlast. by eapply IH.
Qed.

Lemma tail_slot_snoc l d : tail_slot (l ++ [d]) = SlotNext d.
Proof. unfold tail_slot. by rewrite last_snoc. Qed.

Lemma tail_slot_app l1 l2 : l2 ≠ [] → tail_slot (l1 ++ l2) = tail_slot l2.
Proof.
  intros Hne. unfold tail_slot. rewrite last_app.
  destruct (last l2) eqn:Hlast; [done|].
  apply last_None in Hlast. done.
Qed.

(** Writing [d] through the tail slot of [l1] puts it between [l1] and [l2],
    provided its own Next field already points at [l2]. *)
Lemma chain_insert next h l1 l2 d :
  is_chain next h (l1 ++ l2) →
  NoDup (l1 ++ l2) →
  d ∉ l1 ++ l2 →
  next !! d = head l2 →
  is_chain
    (match last l1 with Some x => <[x := d]> next | None => next end)
    (match last l1 with Some _ => h | None => Some d end)
    (l1 ++ d :: l2).
Proof.
  revert h. induction l1 as [|a l1 IH]; intros h Hl Hnd Hd Hnext.
  - simpl in *. split; [done|]. rewrite Hnext.
    by rewrite <- (is_chain_head _ _ _ Hl).
  - simpl in Hl. destruct Hl as [-> Hl].
    simpl in Hnd. apply NoDup_cons in Hnd as [Ha Hnd].
    assert (Hda : d ≠ a) by (intros ->; apply Hd; by apply elem_of_cons; left).
    assert (Hd' : d ∉ l1 ++ l2) by (intros ?; apply Hd; by apply elem_of_cons; right).
    destruct l1 as [|b l1].
    + simpl in *. split; [done|]. rewrite lookup_insert_eq.
      split; [done|]. rewrite lookup_insert_ne by done. rewrite Hnext.
      apply (is_chain_frame next).
      * by rewrite <- (is_chain_head _ _ _ Hl).
      * intros d' Hd2. rewrite lookup_insert_ne; [done|]. intros ->. done.
    + specialize (IH _ Hl Hnd Hd' Hnext).
      change (last (a :: b :: l1)) with (last (b :: l1)).
      destruct (last (b :: l1)) as [x|] eqn:Hlast.
      * simpl. split; [done|].
        assert (Hxa : x ≠ a).
        { intros ->. apply Ha. apply elem_of_app. left.
          by apply last_Some_elem_of. }
        rewrite lookup_insert_ne by done. exact IH.
      * by apply last_None in Hlast.
Qed.
End Chains.

Section ReceiveChains.
Context `{QuicDefs}.
Variable pre : nat → preprocess_outcomes.
Variable deliver : nat → bool.
Implicit Types (s : recv_state) (ds done rem hs da seg l : list nat) (d : nat).

Lemma filter_ext_elem {A} (P Q : A → Prop) `{∀ x, Decision (P x)}
    `{∀ x, Decision (Q x)} (xs : list A) :
  (∀ x, x ∈ xs → (P x ↔ Q x)) → filter P xs = filter Q xs.
Proof.
  induction xs as [|a xs IH]; intros Hext; [done|].
  assert (Ha : P a ↔ Q a) by (apply Hext; by apply elem_of_cons; left).
  assert (Hxs : filter P xs = filter Q xs).
  { apply IH. intros x Hx. apply Hext. by apply elem_of_cons; right. }
  destruct (decide (P a)) as [HP|HP].
  - rewrite !filter_cons_True by tauto. by rewrite Hxs.
  - rewrite !filter_cons_False by tauto. done.
Qed.

Lemma elem_of_filter_split {A} (P : A → Prop) `{∀ x, Decision (P x)}
    (xs : list A) (x : A) :
  x ∈ filter P xs ++ filter (λ y, ¬ P y) xs ↔ x ∈ xs.
Proof.
  rewrite elem_of_app, !list_elem_of_filter.
  destruct (decide (P x)); tauto.
Qed.

(** Fields that writing through a slot does not touch. *)
Lemma slot_store_PacketOf sl v s : PacketOf (slot_store sl v s) = PacketOf s.
Proof. by destruct sl. Qed.
Lemma slot_store_DatagramChain sl v s :
  DatagramChain (slot_store sl v s) = DatagramChain s.
Proof. by destruct sl. Qed.
Lemma slot_store_ReleaseChainTail sl v s :
  ReleaseChainTail (slot_store sl v s) = ReleaseChainTail s.
Proof. by destruct sl. Qed.
Lemma slot_store_ConnectionChainTail sl v s :
  ConnectionChainTail (slot_store sl v s) = ConnectionChainTail s.
Proof. by destruct sl. Qed.
Lemma slot_store_ConnectionChainDataTail sl v s :
  ConnectionChainDataTail (slot_store sl v s) = ConnectionChainDataTail s.
Proof. by destruct sl. Qed.
Lemma slot_store_ConnectionChainLength sl v s :
  ConnectionChainLength (slot_store sl v s) = ConnectionChainLength s.
Proof. by destruct sl. Qed.
Lemma slot_store_Delivered sl v s : Delivered (slot_store sl v s) = Delivered s.
Proof. by destruct sl. Qed.

(** The members of the current subchain have been dealt with; they are not
    on the input any more. *)
Lemma chain_elem_done ds done rem hs da s d :
  recv_inv pre ds done rem hs da s → d ∈ hs ++ da → d ∈ done.
Proof.
  intros Hinv Hd. destruct (ri_sub _ _ _ _ _ _ _ Hinv) as (seg & Hseg & -> & ->).
  apply elem_of_filter_split in Hd. by eapply elem_of_sublist.
Qed.

Lemma chain_elem_not_rem ds done rem hs da s d :
  recv_inv pre ds done rem hs da s → d ∈ hs ++ da → d ∉ rem.
Proof.
  intros Hinv Hd Hrem.
  pose proof (chain_elem_done _ _ _ _ _ _ _ Hinv Hd) as Hdone.
  pose proof (ri_nodup _ _ _ _ _ _ _ Hinv) as Hnd.
  apply NoDup_app in Hnd as (_ & Hdisj & _). by apply (Hdisj d).
Qed.

Lemma chain_NoDup ds done rem hs da s :
  recv_inv pre ds done rem hs da s → NoDup (hs ++ da).
Proof. intros Hinv. eapply is_chain_NoDup, ri_chain, Hinv. Qed.

(** A write to the Next field of a datagram that is neither in the current
    subchain nor on the input, or to the release-chain variable, keeps the
    invariant. *)
Lemma store_off_chain_inv ds done rem hs da s sl v :
  recv_inv pre ds done rem hs da s →
  (sl = SlotReleaseChain ∨ ∃ r, sl = SlotNext r ∧ (r ∉ hs ++ da) ∧ r ∉ rem) →
  recv_inv pre ds done rem hs da (slot_store sl v s).
Proof.
  intros Hinv Hsl. destruct Hinv.
  constructor; rewrite ?slot_store_PacketOf, ?slot_store_DatagramChain,
    ?slot_store_ReleaseChainTail, ?slot_store_ConnectionChainTail,
    ?slot_store_ConnectionChainDataTail, ?slot_store_ConnectionChainLength,
    ?slot_store_Delivered; try done.
  - destruct Hsl as [->|(r & -> & Hr1 & Hr2)]; simpl; [done|].
    by apply is_chain_set_next.
  - destruct Hsl as [->|(r & -> & Hr1 & Hr2)]; simpl; [done|].
    by apply is_chain_set_next.
Qed.

(** Taking the head datagram off the input. *)
Lemma detach_datagram_inv ds done rem hs da s d :
  recv_inv pre ds done (d :: rem) hs da s →
  recv_inv pre ds done rem hs da (detach_datagram d s) ∧
  NextOf (detach_datagram d s) !! d = None ∧
  PacketOf (detach_datagram d s) = PacketOf s ∧
  d ∉ done ++ rem.
Proof.
  intros Hinv.
  pose proof (ri_nodup _ _ _ _ _ _ _ Hinv) as Hnd.
  apply NoDup_app in Hnd as (Hnd1 & Hdisj & Hnd2).
  apply NoDup_cons in Hnd2 as [Hdrem Hnd2].
  assert (Hddone : d ∉ done).
  { intros Hd. apply (Hdisj d Hd). by apply elem_of_cons; left. }
  assert (Hdchain : d ∉ hs ++ da).
  { intros Hd. apply Hddone. by eapply chain_elem_done. }
  split; [|split; [|split]].
  - destruct Hinv. unfold detach_datagram. constructor; simpl; try done.
    + simpl in ri_input0. destruct ri_input0 as [_ Hrem].
      by apply (is_chain_set_next _ _ _ d None).
    + by apply (is_chain_set_next _ _ _ d None).
    + apply NoDup_app. split; [done|]. split; [|done].
      intros x Hx Hx'. apply (Hdisj x Hx). by apply elem_of_cons; right.
  - unfold detach_datagram. simpl. apply lookup_delete_eq.
  - done.
  - intros [Hd|Hd]%elem_of_app; done.
Qed.

(** The packet scratch area of a datagram outside the subchain. *)
Lemma set_PacketOf_inv ds done rem hs da s d pkt :
  recv_inv pre ds done rem hs da s → d ∉ hs ++ da →
  recv_inv pre ds done rem hs da (set_PacketOf d pkt s).
Proof.
  intros Hinv Hd. destruct Hinv.
  assert (Hother : ∀ x, x ∈ hs ++ da →
            PacketOf (set_PacketOf d pkt s) !! x = PacketOf s !! x).
  { intros x Hx. simpl. destruct pkt; [|done].
    rewrite lookup_insert_ne; [done|]. intros ->. done. }
  constructor; try done.
  - intros x Hx. rewrite Hother by done. by apply ri_packets0.
  - intros d1 d2 p1 p2 H1 H2. rewrite !Hother by done. by apply ri_cid0.
Qed.

(** The datagram in hand joins those dealt with. *)
Lemma commit_datagram_inv ds done rem hs da s d :
  recv_inv pre ds done rem hs da s →
  d ∉ done ++ rem →
  done ++ [d] `sublist_of` ds →
  recv_inv pre ds (done ++ [d]) rem hs da s.
Proof.
  intros Hinv Hd Hsub. destruct Hinv. constructor; try done.
  - rewrite <- app_assoc. simpl. apply NoDup_app in ri_nodup0 as (? & Hdisj & ?).
    apply NoDup_app. split; [done|]. split.
    + intros x Hx [->|Hx']%elem_of_cons.
      * apply Hd. apply elem_of_app. by left.
      * by apply (Hdisj x).
    + apply NoDup_cons. split; [|done]. intros Hx. apply Hd, elem_of_app. by right.
  - destruct ri_sub0 as (seg & Hseg & Hhs & Hda). exists seg.
    split; [by apply sublist_inserts_r|done].
  - destruct ri_release0 as [Hr|(r & Hr & Hrd & Hrc)]; [by left|].
    right. exists r. split; [done|]. split; [|done]. apply elem_of_app. by left.
Qed.

(** A rejected datagram that is to be returned goes on the release chain. *)
Lemma release_datagram_inv ds done rem hs da s d :
  recv_inv pre ds done rem hs da s →
  d ∉ done ++ rem →
  done ++ [d] `sublist_of` ds →
  recv_inv pre ds (done ++ [d]) rem hs da (release_datagram d s).
Proof.
  intros Hinv Hd Hsub. unfold release_datagram.
  assert (Hst : recv_inv pre ds done rem hs da
                  (slot_store (ReleaseChainTail s) (Some d) s)).
  { apply store_off_chain_inv; [done|].
    destruct (ri_release _ _ _ _ _ _ _ Hinv) as [Hr|(r & Hr & Hrd & Hrc)];
      [by left|].
    right. exists r. split; [done|]. split; [done|].
    pose proof (ri_nodup _ _ _ _ _ _ _ Hinv) as Hnd.
    apply NoDup_app in Hnd as (_ & Hdisj & _). by apply Hdisj. }
  assert (Hdc : d ∉ hs ++ da).
  { intros Hc. apply Hd, elem_of_app. left. by eapply chain_elem_done. }
  apply (commit_datagram_inv _ _ _ _ _ _ d) in Hst; [|done..].
  destruct Hst. constructor; try done. simpl.
  right. exists d. split; [done|]. split; [|done].
  apply elem_of_app. right. by apply elem_of_cons; left.
Qed.

Lemma is_chain_None next l : is_chain next None l → l = [].
Proof. destruct l; [done|]. by intros [? _]. Qed.

Lemma dest_cid_differs_false Packet Ctx :
  dest_cid_differs Packet Ctx = false → DestCID Packet = DestCID Ctx.
Proof.
  unfold dest_cid_differs, DestCIDLen, memcmp_eq.
  intros [Hlen Hcmp]%orb_false_iff.
  apply negb_false_iff, bool_decide_eq_true_1 in Hlen.
  apply negb_false_iff, bool_decide_eq_true_1 in Hcmp.
  apply Nat2Z.inj in Hlen. rewrite firstn_all in Hcmp.
  rewrite Hlen, firstn_all in Hcmp. done.
Qed.

(** A call of QuicBindingDeliverPackets on the current subchain meets
    [delivered_ok]. *)
Lemma current_chain_delivered_ok ds done rem hs da s head :
  recv_inv pre ds done rem hs da s →
  ConnectionChain s = Some head →
  delivered_ok ds (head, ConnectionChainLength s, NextOf s, PacketOf s).
Proof.
  intros Hinv Hhead.
  destruct (ri_sub _ _ _ _ _ _ _ Hinv) as (seg & Hseg & Hhs & Hda).
  exists (hs ++ da), seg.
  split; [rewrite <- Hhead; apply Hinv|].
  split; [apply Hinv|].
  split; [intros d Hd; by apply (ri_packets _ _ _ _ _ _ _ Hinv)|].
  split.
  { intros d1 d2 p1 p2 H1 H2 Hp1 Hp2.
    pose proof (ri_cid _ _ _ _ _ _ _ Hinv d1 d2 p1 p2 H1 H2 Hp1 Hp2) as Hcid.
    unfold DestCIDLen. by rewrite Hcid. }
  split; [etrans; [exact Hseg|apply Hinv]|].
  assert (Hext : ∀ x, x ∈ seg → (handshake_in (PacketOf s) x ↔ is_handshake pre x)).
  { intros x Hx. unfold handshake_in, is_handshake.
    assert (Hxc : x ∈ hs ++ da) by (rewrite Hhs, Hda; by apply elem_of_filter_split).
    destruct (ri_packets _ _ _ _ _ _ _ Hinv x Hxc) as [_ ->]. done. }
  rewrite Hhs, Hda. f_equal.
  - symmetry. by apply filter_ext_elem.
  - symmetry. apply filter_ext_elem. intros x Hx. by rewrite (Hext x Hx).
Qed.

(** Delivering the current subchain and starting a new one. *)
Lemma deliver_and_restart_inv ds done rem hs da s head :
  recv_inv pre ds done rem hs da s →
  ConnectionChain s = Some head →
  let s' := start_new_chain (deliver_chain deliver head (ConnectionChainDataTail s) s) in
  recv_inv pre ds done rem [] [] s' ∧
  PacketOf s' = PacketOf s ∧
  (∀ x, x ∉ done → NextOf s' !! x = NextOf s !! x).
Proof.
  intros Hinv Hhead s'.
  pose proof (current_chain_delivered_ok _ _ _ _ _ _ _ Hinv Hhead) as Hok.
  assert (Hne : hs ++ da ≠ []).
  { intros Hnil. pose proof (ri_chain _ _ _ _ _ _ _ Hinv) as Hc.
    rewrite Hnil, Hhead in Hc. done. }
  assert (Hlast : ∃ x, ConnectionChainDataTail s = SlotNext x ∧ x ∈ done).
  { rewrite (ri_data_tail _ _ _ _ _ _ _ Hinv). unfold tail_slot.
    destruct (last (hs ++ da)) as [x|] eqn:Hl; [|by apply last_None in Hl].
    exists x. split; [done|]. eapply chain_elem_done; [exact Hinv|].
    by apply last_Some_elem_of. }
  destruct Hlast as (x & Hx & Hxdone).
  pose proof (ri_release _ _ _ _ _ _ _ Hinv) as Hrel.
  pose proof (ri_nodup _ _ _ _ _ _ _ Hinv) as Hnd.
  apply NoDup_app in Hnd as (_ & Hdisj & _).
  destruct Hinv. destruct s as [nx pk dc rc rct cc cct ccdt ccl dl].
  simpl in *. subst s'.
  unfold start_new_chain, deliver_chain, record_delivery. simpl.
  destruct (deliver _); simpl.
  - split; [|split; [done|done]].
    constructor; simpl; try done.
    + exists []. split; [apply sublist_nil_l|done].
    + intros d Hd. by apply elem_of_nil in Hd.
    + intros d1 d2 p1 p2 Hd. by apply elem_of_nil in Hd.
    + destruct Hrel as [?|(r & ? & ? & ?)]; [by left|].
      right. exists r. split; [done|]. split; [done|]. apply not_elem_of_nil.
    + apply Forall_app. split; [done|]. by constructor.
  - assert (Hframe : ∀ y, y ∉ done →
              NextOf (slot_store rct cc
                        (mkRecv nx pk dc rc rct cc cct ccdt ccl
                           (dl ++ [(head, ccl, nx, pk)]))) !! y = nx !! y).
    { intros y Hy. destruct Hrel as [->|(r & -> & Hr & _)]; simpl; [done|].
      unfold set_next. destruct cc; [rewrite lookup_insert_ne|rewrite lookup_delete_ne];
        try done; intros ->; done. }
    split; [|split].
    + constructor; simpl; try done.
      * rewrite slot_store_DatagramChain. simpl.
        eapply is_chain_frame; [exact ri_input0|].
        intros y Hy. apply Hframe. intros Hyd. by apply (Hdisj y).
      * exists []. split; [apply sublist_nil_l|done].
      * intros d Hd. by apply elem_of_nil in Hd.
      * intros d1 d2 p1 p2 Hd. by apply elem_of_nil in Hd.
      * right. exists x. split; [done|]. split; [done|]. apply not_elem_of_nil.
      * rewrite slot_store_Delivered. simpl.
        apply Forall_app. split; [done|]. by constructor.
    + by rewrite slot_store_PacketOf.
    + exact Hframe.
Qed.

(** The destination-CID test: afterwards every packet of the current
    subchain has the destination CID of the packet in hand. *)
Lemma split_chain_inv Binding Packet ds done rem hs da s :
  Exclusive Binding = false →
  recv_inv pre ds done rem hs da s →
  let s' := split_chain deliver Binding Packet s in
  ∃ hs' da',
    recv_inv pre ds done rem hs' da' s' ∧
    PacketOf s' = PacketOf s ∧
    (∀ x, x ∉ done → NextOf s' !! x = NextOf s !! x) ∧
    (∀ d' p', d' ∈ hs' ++ da' → PacketOf s' !! d' = Some p' →
       DestCID p' = DestCID Packet).
Proof.
  intros Hshared Hinv s'. subst s'. unfold split_chain.
  destruct (ConnectionChain s) as [head|] eqn:Hhead.
  - rewrite Hshared. simpl.
    assert (Hin : head ∈ hs ++ da).
    { pose proof (ri_chain _ _ _ _ _ _ _ Hinv) as Hc. rewrite Hhead in Hc.
      apply is_chain_head in Hc. by apply head_Some_elem_of. }
    destruct (ri_packets _ _ _ _ _ _ _ Hinv head Hin) as [[ph Hph] _].
    rewrite Hph. destruct (dest_cid_differs Packet ph) eqn:Hdiff.
    + destruct (deliver_and_restart_inv _ _ _ _ _ _ _ Hinv Hhead)
        as (Hinv' & Hpk & Hnx).
      exists [], []. split; [done|]. split; [done|]. split; [done|].
      intros d' p' Hd'. by apply elem_of_nil in Hd'.
    + exists hs, da. split; [done|]. split; [done|]. split; [done|].
      intros d' p' Hd' Hp'. rewrite (dest_cid_differs_false _ _ Hdiff).
      exact (ri_cid _ _ _ _ _ _ _ Hinv d' head p' ph Hd' Hin Hp' Hph).
  - exists hs, da. split; [done|]. split; [done|]. split; [done|].
    pose proof (ri_chain _ _ _ _ _ _ _ Hinv) as Hc. rewrite Hhead in Hc.
    apply is_chain_None in Hc. rewrite Hc.
    intros d' p' Hd'. by apply elem_of_nil in Hd'.
Qed.

(** What is left to check once the datagram in hand has been linked into
    the subchain. *)
Lemma recv_inv_after_insert ds done rem hs da s d Packet hs' da' s' :
  recv_inv pre ds done rem hs da s →
  d ∉ done ++ rem →
  done ++ [d] `sublist_of` ds →
  PacketOf s !! d = Some Packet →
  ValidateInvariant (pre d) = Some Packet →
  (∀ d' p', d' ∈ hs ++ da → PacketOf s !! d' = Some p' →
     DestCID p' = DestCID Packet) →
  (hs' = hs ++ [d] ∧ da' = da ∧ IsHandshakePkt Packet = true) ∨
  (hs' = hs ∧ da' = da ++ [d] ∧ IsHandshakePkt Packet = false) →
  is_chain (NextOf s') (ConnectionChain s') (hs' ++ da') →
  (∀ x, x ∈ rem → NextOf s' !! x = NextOf s !! x) →
  DatagramChain s' = DatagramChain s →
  ConnectionChainTail s' = tail_slot hs' →
  ConnectionChainDataTail s' = tail_slot (hs' ++ da') →
  ConnectionChainLength s' = (ConnectionChainLength s + 1) `mod` 2^32 →
  PacketOf s' = PacketOf s →
  ReleaseChainTail s' = ReleaseChainTail s →
  Delivered s' = Delivered s →
  recv_inv pre ds (done ++ [d]) rem hs' da' s'.
Proof.
  intros Hinv Hd Hsub Hpkt Hval Hcid Hcase Hchain Hframe Hdc Htail Hdtail Hlen
    Hpk Hrel Hdel.
  assert (Hddone : d ∉ done) by (intros ?; apply Hd, elem_of_app; by left).
  assert (Hdrem : d ∉ rem) by (intros ?; apply Hd, elem_of_app; by right).
  assert (Hdold : d ∉ hs ++ da).
  { intros Hc. apply Hddone. by eapply chain_elem_done. }
  assert (Hmem : ∀ x, x ∈ hs' ++ da' ↔ x ∈ hs ++ da ∨ x = d).
  { intros x. destruct Hcase as [(-> & -> & _)|(-> & -> & _)];
      rewrite !elem_of_app, ?list_elem_of_singleton; tauto. }
  assert (Hlength : length (hs' ++ da') = S (length (hs ++ da))).
  { destruct Hcase as [(-> & -> & _)|(-> & -> & _)];
      rewrite !length_app; simpl; lia. }
  assert (Hhsd : is_handshake pre d ↔ IsHandshakePkt Packet = true).
  { unfold is_handshake. rewrite Hval. simpl. split; [by intros [= ->]|by intros ->]. }
  pose proof (ri_nodup _ _ _ _ _ _ _ Hinv) as Hnd.
  apply NoDup_app in Hnd as (Hnd1 & Hdisj & Hnd2).
  destruct Hinv. constructor.
  - done.
  - rewrite Hdc. by eapply is_chain_frame.
  - done.
  - done.
  - done.
  - rewrite Hlen, ri_length0, Hlength, Nat2Z.inj_succ.
    rewrite Zplus_mod_idemp_l. f_equal; lia.
  - rewrite <- app_assoc. simpl. apply NoDup_app. split; [done|]. split.
    + intros x Hx [->|Hx']%elem_of_cons; [done|]. by apply (Hdisj x).
    + by apply NoDup_cons.
  - destruct ri_sub0 as (seg & Hseg & Hhs & Hda). exists (seg ++ [d]).
    split; [by apply sublist_app|]. rewrite !filter_app.
    destruct Hcase as [(-> & -> & Hh)|(-> & -> & Hh)].
    + rewrite (filter_cons_True _ d) by (by apply Hhsd).
      rewrite (filter_cons_False _ d) by (intros Hn; apply Hn; by apply Hhsd).
      rewrite !filter_nil, app_nil_r. by rewrite Hhs, Hda.
    + rewrite (filter_cons_False _ d) by (rewrite Hhsd, Hh; done).
      rewrite (filter_cons_True _ d) by (rewrite Hhsd, Hh; done).
      rewrite !filter_nil, app_nil_r. by rewrite Hhs, Hda.
  - intros x [Hx| ->]%Hmem; rewrite Hpk.
    + by apply ri_packets0.
    + rewrite Hpkt, Hval. split; [by eexists|done].
  - intros d1 d2 p1 p2 [H1| ->]%Hmem [H2| ->]%Hmem; rewrite Hpk.
    + by apply ri_cid0.
    + rewrite Hpkt. intros Hp1 [= <-]. by eapply Hcid.
    + rewrite Hpkt. intros [= <-] Hp2. symmetry. by eapply Hcid.
    + rewrite Hpkt. by intros [= <-] [= <-].
  - rewrite Hrel. destruct ri_release0 as [?|(r & Hr & Hrd & Hrc)]; [by left|].
    right. exists r. split; [done|]. split; [apply elem_of_app; by left|].
    intros [?| ->]%Hmem; done.
  - by rewrite Hdel.
Qed.

(** The slot that ConnectionChainTail points at holds the first data
    packet, if there is one. *)
Lemma tail_slot_load ds done rem hs da s :
  recv_inv pre ds done rem hs da s →
  slot_load s (tail_slot hs) = head da.
Proof.
  intros Hinv. pose proof (ri_chain _ _ _ _ _ _ _ Hinv) as Hc.
  unfold tail_slot. destruct (last hs) as [x|] eqn:Hlast; simpl.
  - by eapply is_chain_last_next.
  - apply last_None in Hlast. subst hs. by apply is_chain_head in Hc.
Qed.

(** Writing the datagram through the tail slot of [l1], where the subchain
    is [l1 ++ l2] and the datagram's Next field already points at [l2]. *)
Lemma slot_store_tail_chain s l1 l2 d :
  is_chain (NextOf s) (ConnectionChain s) (l1 ++ l2) →
  d ∉ l1 ++ l2 →
  NextOf s !! d = head l2 →
  let s' := slot_store (tail_slot l1) (Some d) s in
  is_chain (NextOf s') (ConnectionChain s') (l1 ++ d :: l2) ∧
  (∀ x, x ∉ l1 → NextOf s' !! x = NextOf s !! x).
Proof.
  intros Hc Hd Hnext s'. subst s'.
  pose proof (chain_insert _ _ _ _ _ Hc (is_chain_NoDup _ _ _ Hc) Hd Hnext) as Hins.
  unfold tail_slot. destruct (last l1) as [x|] eqn:Hlast; simpl.
  - split; [done|]. intros y Hy. rewrite lookup_insert_ne; [done|].
    intros ->. apply Hy. by apply last_Some_elem_of.
  - done.
Qed.

(** Linking the datagram in hand into the current subchain. *)
Lemma insert_datagram_inv ds done rem hs da s d Packet :
  recv_inv pre ds done rem hs da s →
  d ∉ done ++ rem →
  done ++ [d] `sublist_of` ds →
  NextOf s !! d = None →
  PacketOf s !! d = Some Packet →
  ValidateInvariant (pre d) = Some Packet →
  (∀ d' p', d' ∈ hs ++ da → PacketOf s !! d' = Some p' →
     DestCID p' = DestCID Packet) →
  ∃ hs' da', recv_inv pre ds (done ++ [d]) rem hs' da' (insert_datagram d Packet s).
Proof.
  intros Hinv Hd Hsub Hnext Hpkt Hval Hcid.
  assert (Hddone : d ∉ done) by (intros ?; apply Hd, elem_of_app; by left).
  assert (Hdrem : d ∉ rem) by (intros ?; apply Hd, elem_of_app; by right).
  assert (Hdold : d ∉ hs ++ da).
  { intros Hc. apply Hddone. by eapply chain_elem_done. }
  assert (Hoff : ∀ x, x ∈ rem → x ∉ hs ++ da).
  { intros x Hx Hc. by apply (chain_elem_not_rem _ _ _ _ _ _ _ Hinv Hc). }
  pose proof (ri_chain _ _ _ _ _ _ _ Hinv) as Hchain.
  pose proof (ri_tail _ _ _ _ _ _ _ Hinv) as Htail.
  pose proof (ri_data_tail _ _ _ _ _ _ _ Hinv) as Hdtail.
  pose proof (tail_slot_load _ _ _ _ _ _ Hinv) as Hload.
  destruct s as [nx pk dc rc rct cc cct ccdt ccl dl]. simpl in *. subst cct ccdt.
  unfold insert_datagram, set_ConnectionChainLength. simpl.
  set (s0 := mkRecv nx pk dc rc rct cc (tail_slot hs) (tail_slot (hs ++ da))
               ((ccl + 1) `mod` 2^32) dl).
  assert (Hload0 : slot_load s0 (tail_slot hs) = head da).
  { rewrite <- Hload. by destruct (tail_slot hs). }
  destruct (IsHandshakePkt Packet) eqn:Hhs; simpl.
  - (* handshake packet *)
    rewrite Hload0.
    destruct da as [|after da]; simpl.
    + (* no data packet yet *)
      destruct (slot_store_tail_chain s0 hs [] d) as [Hc' Hfr]; [done..|].
      exists (hs ++ [d]), [].
      refine (recv_inv_after_insert ds done rem hs [] _ d Packet (hs ++ [d]) [] _
                Hinv Hd Hsub Hpkt Hval Hcid
                (or_introl (conj eq_refl (conj eq_refl Hhs))) _ _ _ _ _ _ _ _ _).
      * rewrite app_nil_r. exact Hc'.
      * intros x Hx. simpl. apply Hfr. intros Hxh. apply (Hoff x Hx).
        apply elem_of_app. by left.
      * simpl. by rewrite slot_store_DatagramChain.
      * simpl. by rewrite tail_slot_snoc.
      * simpl. by rewrite app_nil_r, tail_slot_snoc.
      * simpl. by rewrite slot_store_ConnectionChainLength.
      * simpl. by rewrite slot_store_PacketOf.
      * simpl. by rewrite slot_store_ReleaseChainTail.
      * simpl. by rewrite slot_store_Delivered.
    + (* before the first data packet *)
      set (s1 := mkRecv (<[d := after]> nx) pk dc rc rct cc (tail_slot hs)
                   (tail_slot (hs ++ after :: da)) ((ccl + 1) `mod` 2^32) dl).
      assert (Hc1 : is_chain (NextOf s1) (ConnectionChain s1) (hs ++ after :: da)).
      { subst s1. simpl. apply (is_chain_set_next _ _ _ d (Some after)); done. }
      destruct (slot_store_tail_chain s1 hs (after :: da) d) as [Hc' Hfr];
        [done|done|subst s1; simpl; apply lookup_insert_eq|].
      exists (hs ++ [d]), (after :: da).
      refine (recv_inv_after_insert ds done rem hs (after :: da) _ d Packet
                (hs ++ [d]) (after :: da) _
                Hinv Hd Hsub Hpkt Hval Hcid
                (or_introl (conj eq_refl (conj eq_refl Hhs))) _ _ _ _ _ _ _ _ _).
      * rewrite <- app_assoc. exact Hc'.
      * intros x Hx. simpl. rewrite Hfr.
        -- subst s1. simpl. rewrite lookup_insert_ne; [done|]. intros ->. done.
        -- intros Hxh. apply (Hoff x Hx). apply elem_of_app. by left.
      * simpl. by rewrite slot_store_DatagramChain.
      * simpl. by rewrite tail_slot_snoc.
      * simpl. rewrite slot_store_ConnectionChainDataTail. simpl.
        rewrite <- app_assoc. simpl.
        rewrite !(tail_slot_app hs) by done.
        unfold tail_slot. by rewrite last_cons_cons.
      * simpl. by rewrite slot_store_ConnectionChainLength.
      * simpl. by rewrite slot_store_PacketOf.
      * simpl. by rewrite slot_store_ReleaseChainTail.
      * simpl. by rewrite slot_store_Delivered.
  - (* data packet *)
    destruct (slot_store_tail_chain s0 (hs ++ da) [] d) as [Hc' Hfr];
      [by rewrite app_nil_r|by rewrite app_nil_r|done|].
    exists hs, (da ++ [d]).
    refine (recv_inv_after_insert ds done rem hs da _ d Packet hs (da ++ [d]) _
              Hinv Hd Hsub Hpkt Hval Hcid
              (or_intror (conj eq_refl (conj eq_refl Hhs))) _ _ _ _ _ _ _ _ _).
    + rewrite app_assoc. exact Hc'.
    + intros x Hx. simpl. apply Hfr. by apply Hoff.
    + simpl. by rewrite slot_store_DatagramChain.
    + simpl. rewrite slot_store_ConnectionChainTail. done.
    + simpl. by rewrite app_assoc, tail_slot_snoc.
    + simpl. by rewrite slot_store_ConnectionChainLength.
    + simpl. by rewrite slot_store_PacketOf.
    + simpl. by rewrite slot_store_ReleaseChainTail.
    + simpl. by rewrite slot_store_Delivered.
Qed.

(** An accepted datagram has validated invariants, and its scratch area
    holds them. *)
Lemma preprocess_accepted Binding o (rel : bool) pkt :
  QuicBindingPreprocessPacket Binding o = (true, rel, pkt) →
  ∃ Packet, ValidateInvariant o = Some Packet ∧ pkt = Some Packet.
Proof.
  unfold QuicBindingPreprocessPacket.
  destruct (ValidateInvariant o) as [Packet|]; [|discriminate].
  intros Hrun. exists Packet. split; [done|].
  repeat match type of Hrun with
         | context [if ?c then _ else _] => destruct c
         end; congruence.
Qed.

(** One turn of the loop. *)
Lemma receive_step_inv Binding ds done rem hs da s d :
  Exclusive Binding = false →
  ds = done ++ d :: rem →
  recv_inv pre ds done (d :: rem) hs da s →
  ∃ hs' da',
    recv_inv pre ds (done ++ [d]) rem hs' da' (receive_step pre deliver Binding d s).
Proof.
  intros Hshared Hds Hinv.
  destruct (detach_datagram_inv _ _ _ _ _ _ _ Hinv) as (Hinv1 & Hnext1 & Hpk1 & Hd).
  assert (Hsub : done ++ [d] `sublist_of` ds).
  { rewrite Hds. apply sublist_app; [done|]. apply sublist_skip, sublist_nil_l. }
  assert (Hddone : d ∉ done) by (intros ?; apply Hd, elem_of_app; by left).
  assert (Hdold : d ∉ hs ++ da).
  { intros Hc. apply Hddone. by eapply chain_elem_done. }
  unfold receive_step.
  destruct (QuicBindingPreprocessPacket Binding (pre d)) as [[ok rel] pkt] eqn:Hpre.
  pose proof (set_PacketOf_inv _ _ _ _ _ _ d pkt Hinv1 Hdold) as Hinv2.
  destruct ok; cbn [negb].
  - destruct (preprocess_accepted _ _ _ _ Hpre) as (Packet & Hval & ->).
    assert (Hpkt : PacketOf (set_PacketOf d (Some Packet) (detach_datagram d s)) !! d
                   = Some Packet) by apply lookup_insert_eq.
    rewrite Hpkt.
    destruct (split_chain_inv Binding Packet _ _ _ _ _ _ Hshared Hinv2)
      as (hs2 & da2 & Hinv3 & Hpk3 & Hnx3 & Hcid3).
    apply (insert_datagram_inv _ _ _ hs2 da2); try done.
    + rewrite Hnx3 by done. exact Hnext1.
    + by rewrite Hpk3.
  - destruct rel.
    + exists hs, da. by apply release_datagram_inv.
    + exists hs, da. by apply commit_datagram_inv.
Qed.

(** The loop runs to the end of the input within [length rem] turns. *)
Lemma receive_loop_inv Binding ds rem :
  Exclusive Binding = false →
  ∀ fuel done hs da s,
    ds = done ++ rem →
    (length rem ≤ fuel)%nat →
    recv_inv pre ds done rem hs da s →
    ∃ s' hs' da',
      receive_loop pre deliver fuel Binding s = Some s' ∧
      recv_inv pre ds ds [] hs' da' s'.
Proof.
  intros Hshared. induction rem as [|d rem IH]; intros fuel done hs da s Hds Hfuel Hinv.
  - pose proof (ri_input _ _ _ _ _ _ _ Hinv) as Hin. simpl in Hin.
    rewrite app_nil_r in Hds. subst done.
    exists s, hs, da. split; [|done].
    destruct fuel; simpl; by rewrite Hin.
  - pose proof (ri_input _ _ _ _ _ _ _ Hinv) as [Hin _].
    destruct fuel as [|fuel]; [simpl in Hfuel; lia|].
    simpl. rewrite Hin.
    destruct (receive_step_inv Binding _ _ _ _ _ _ _ Hshared Hds Hinv)
      as (hs1 & da1 & Hinv1).
    apply (IH fuel (done ++ [d]) hs1 da1); [|simpl in Hfuel; lia|done].
    by rewrite <- app_assoc.
Qed.

(** The last subchain. *)
Lemma receive_finish_delivered ds hs da s :
  recv_inv pre ds ds [] hs da s →
  Forall (delivered_ok ds) (Delivered (receive_finish deliver s)).
Proof.
  intros Hinv. unfold receive_finish.
  destruct (ConnectionChain s) as [head|] eqn:Hhead; [|apply Hinv].
  pose proof (current_chain_delivered_ok _ _ _ _ _ _ _ Hinv Hhead) as Hok.
  unfold deliver_chain, record_delivery. simpl.
  destruct (deliver _); simpl; rewrite ?slot_store_Delivered; simpl.
  - apply Forall_app. split; [apply Hinv|by constructor].
  - apply Forall_app. split; [apply Hinv|by constructor].
Qed.

(** C3: on a non-exclusive binding QuicBindingReceive comes to an end on
    every NULL-terminated datagram chain, and every subchain it passes to
    QuicBindingDeliverPackets is a NULL-terminated chain of the stated
    length whose packets all carry the same destination CID (length and
    bytes), made of datagrams of the input taken in arrival order with the
    handshake packets in front of the others, each class in arrival order. *)
Theorem receive_subchains_ordered (Binding : QUIC_BINDING) (next : gmap nat nat)
    (chain : nat) ds (fuel : nat) :
  Exclusive Binding = false →
  is_chain next (Some chain) ds →
  (length ds ≤ fuel)%nat →
  ∃ s,
    QuicBindingReceive pre deliver fuel Binding next chain = Some s ∧
    Forall (delivered_ok ds) (Delivered s).
Proof.
  intros Hshared Hchain Hfuel.
  set (s0 := mkRecv next ∅ (Some chain) None SlotReleaseChain None
               SlotConnectionChain SlotConnectionChain 0 []).
  assert (Hinit : recv_inv pre ds [] ds [] [] s0).
  { constructor; simpl; try done.
    - apply sublist_nil_l.
    - by eapply is_chain_NoDup.
    - exists []. split; [apply sublist_nil_l|done].
    - intros d Hd. by apply elem_of_nil in Hd.
    - by left. }
  destruct (receive_loop_inv Binding ds ds Hshared fuel [] [] [] s0 eq_refl Hfuel Hinit)
    as (s' & hs' & da' & Hloop & Hinv').
  exists (receive_finish deliver s'). split.
  - unfold QuicBindingReceive. fold s0. by rewrite Hloop.
  - by eapply receive_finish_delivered.
Qed.
End ReceiveChains.

(** The theorem on the example chain of five datagrams. *)
Lemma receive_subchains_ordered_witness :
  ∃ s,
    @QuicBindingReceive example_defs example_pre (λ _, true) 5 example_binding
      example_next 1 = Some s ∧
    Forall (delivered_ok [1; 2; 3; 4; 5]%nat) (Delivered s).
Proof.
  apply (@receive_subchains_ordered example_defs example_pre (λ _, true)
           example_binding example_next 1%nat [1; 2; 3; 4; 5]%nat 5%nat).
  - reflexivity.
  - vm_compute. repeat split.
  - simpl. lia.
Defined.

(** * Further properties of the modelled code *)

(** ** QuicBindingProcessStatelessOperation: the send context *)

Section SendContextPaths.
Context `{QuicDefs} `{QuicLib}.

Lemma disposals_cons_same c e trace :
  disposes c e = true → disposals c (e :: trace) = S (disposals c trace).
Proof. intros He. unfold disposals. by rewrite filter_cons_True. Qed.

Lemma disposals_cons_other c e trace :
  disposes c e = false → disposals c (e :: trace) = disposals c trace.
Proof.
  intros He. unfold disposals. rewrite filter_cons_False; [done|].
  rewrite He. discriminate.
Qed.

(** Whatever the operation type, the inbound packet and the outcome of the
    datagram allocation: the send context allocated at entry is handed to the
    datapath or freed exactly once, except that it is freed twice when the
    Retry datagram cannot be allocated; no other send context is touched; and
    when no send context can be allocated nothing is called at all. *)
Theorem process_stateless_operation_disposals (Binding : QUIC_BINDING)
    (OperationType : QUIC_OPERATION_TYPE) (p : QUIC_RECV_PACKET) (c c' : nat)
    (dg : option (nat → Z)) (r : rng) :
  let trace :=
    process_stateless_operation Binding OperationType p
      (mkSendOutcomes (Some c) dg r) in
  disposals c trace =
    match OperationType, dg with
    | QUIC_OPER_TYPE_RETRY, None => 2%nat
    | _, _ => 1%nat
    end ∧
  (c' ≠ c → disposals c' trace = 0%nat) ∧
  process_stateless_operation Binding OperationType p
    (mkSendOutcomes None dg r) = [].
Proof.
  intros trace. subst trace.
  split; [|split; [|done]].
  - destruct OperationType, dg; unfold process_stateless_operation; simpl;
      rewrite ?disposals_cons_same by (simpl; by rewrite bool_decide_eq_true);
      reflexivity.
  - intros Hne.
    destruct OperationType, dg; unfold process_stateless_operation; simpl;
      rewrite ?disposals_cons_other
        by (simpl; by rewrite bool_decide_eq_false);
      reflexivity.
Qed.
End SendContextPaths.

(** ** The Stateless Reset datagram *)

Section StatelessResetLayout.
Context `{QuicDefs} `{QuicLib}.





End StatelessResetLayout.


(** ** Retry tokens: minting and validation *)

Section RetryRoundTrip.
Context `{QuicDefs} `{QuicLib}.

(** The Retry packet sent in reply to [p] carries the encryption of a token
    holding the remote address and the destination CID of [p], under an IV
    made of the fresh connection ID.  When a later packet [p'] presents that
    token, and decryption recovers what was encrypted, the token is accepted
    exactly when [p'] comes from the remote address of [p]; from any other
    address it is dropped as an address mismatch. *)
Theorem retry_token_round_trip (Binding : QUIC_BINDING)
    (p p' : QUIC_RECV_PACKET) (c : nat) (old : nat → Z) (r : rng) :
  let tok := retry_encrypted_token p r in
  let Buffer :=
    QuicPacketEncodeRetryD23 (HdrVersion p) (SourceCIDBytes p)
      (retry_new_dest_cid r) (DestCID p) tok
      QuicPacketMaxBufferSizeForRetryD23 in
  Z.of_nat (length tok) = sizeof_QUIC_RETRY_TOKEN_CONTENTS →
  DestCIDLen p <= sizeof_OrigConnId →
  QuicRetryTokenDecrypt p' tok = Some (retry_token p) →
  process_stateless_operation Binding QUIC_OPER_TYPE_RETRY p
    (mkSendOutcomes (Some c) (Some old) r) =
    [DataPathBindingSendFromTo (PktLocalAddress p) (PktRemoteAddress p) c
       (RawDatagram (Z.of_nat (length Buffer)) Buffer)] ∧
  QuicBindingProcessRetryToken p' (Z.of_nat (length tok)) tok =
    if bool_decide (PktRemoteAddress p' = PktRemoteAddress p)
    then (true, []) else (false, [Drop_RetryTokenAddrMismatch]).
Proof.
  intros tok Buffer Hlen Hcid Hdec. split.
  - unfold process_stateless_operation.
    cbn [AllocSendContext AllocSendDatagram Random].
    rewrite (surjective_pairing (QuicRandom _ r)). reflexivity.
  - unfold QuicBindingProcessRetryToken.
    rewrite bool_decide_eq_true_2 by done. cbn [negb].
    rewrite Hdec. cbn [retry_token TokOrigConnIdLength TokRemoteAddress].
    rewrite bool_decide_eq_false_2 by lia.
    unfold QuicAddrCompare.
    destruct (decide (PktRemoteAddress p' = PktRemoteAddress p)) as [He|Hne].
    + rewrite (bool_decide_eq_true_2 (PktRemoteAddress p = _)) by done.
      by rewrite bool_decide_eq_true_2.
    + rewrite (bool_decide_eq_false_2 (PktRemoteAddress p = _)) by done.
      by rewrite bool_decide_eq_false_2.
Qed.
End RetryRoundTrip.

(** The theorem on a token minted for port 5000 and replayed from port
    5001. *)
Lemma retry_token_round_trip_witness :
  let p := example_long_packet 0xff000017 [] 5000 in
  let p' := example_long_packet 0xff000017 [] 5001 in
  let tok := @retry_encrypted_token example_retry_defs example_lib p (λ _, 9) in
  @QuicBindingProcessRetryToken example_retry_defs example_lib p'
    (Z.of_nat (length tok)) tok = (false, [Drop_RetryTokenAddrMismatch]).
Proof.
  exact (proj2 (@retry_token_round_trip example_retry_defs example_lib
                  example_binding (example_long_packet 0xff000017 [] 5000)
                  (example_long_packet 0xff000017 [] 5001) 7%nat (λ _, 0)
                  (λ _, 9) eq_refl ltac:(vm_compute; discriminate) eq_refl)).
Defined.

(** ** QuicBindingGetListener: what a lookup does to the registry *)

Section GetListenerEffect.
Implicit Types (L : QUIC_LISTENER) (ls : list QUIC_LISTENER).

Lemma set_Rundown_same L : set_Rundown L (Rundown L) = L.
Proof. by destruct L. Qed.

Lemma set_Listeners_same (b : QUIC_BINDING) : set_Listeners b (Listeners b) = b.
Proof. by destruct b. Qed.

(** The inner loop on one well-formed ALPN entry: it runs off the end when
    no listener matches, and otherwise stops at the first listener that
    matches, acquired or not. *)
Lemma get_listener_scan_decides Addr (alpn rest : list Z) ls :
  (Forall (λ L, listener_matches Addr alpn L = false) ls ∧
   get_listener_scan Addr (Z.of_nat (length alpn)) (alpn ++ rest) ls =
     (None, ls)) ∨
  (∃ l1 L l2, ls = l1 ++ L :: l2 ∧
     Forall (λ L', listener_matches Addr alpn L' = false) l1 ∧
     listener_matches Addr alpn L = true ∧
     get_listener_scan Addr (Z.of_nat (length alpn)) (alpn ++ rest) ls =
       (Some (if RundownReleased (Rundown L) then None
              else Some (ListenerPtr L)),
        if RundownReleased (Rundown L) then ls else acquired_in l1 L l2)).
Proof.
  induction ls as [|E ls IH].
  { left. by split; [constructor|]. }
  rewrite get_listener_scan_cons.
  destruct (listener_matches Addr alpn E) eqn:HE.
  - right. exists [], E, ls. split; [done|]. split; [constructor|].
    split; [done|]. unfold QuicRundownAcquire, acquired_in.
    destruct (RundownReleased (Rundown E)); simpl; [|done].
    by rewrite set_Rundown_same.
  - destruct IH as [[Hno ->]|(l1 & L & l2 & -> & Hl1 & HL & ->)].
    + left. split; [by constructor|done].
    + right. exists (E :: l1), L, l2. split; [done|].
      split; [by constructor|]. split; [done|].
      simpl. by destruct (RundownReleased (Rundown L)).
Qed.

(** The outer loop on a well-formed ALPN list. *)
Lemma get_listener_loop_decides fuel Addr (alpns : list (list Z)) ls :
  (length alpns ≤ fuel)%nat →
  (Forall (λ x, Forall (λ L, listener_matches Addr x L = false) ls) alpns ∧
   get_listener_loop fuel Addr (alpn_list alpns) ls = (None, ls)) ∨
  (∃ before alpn after l1 L l2,
     alpns = before ++ alpn :: after ∧ ls = l1 ++ L :: l2 ∧
     Forall (λ x, Forall (λ L', listener_matches Addr x L' = false) ls) before ∧
     Forall (λ L', listener_matches Addr alpn L' = false) l1 ∧
     listener_matches Addr alpn L = true ∧
     get_listener_loop fuel Addr (alpn_list alpns) ls =
       (if RundownReleased (Rundown L) then None else Some (ListenerPtr L),
        if RundownReleased (Rundown L) then ls else acquired_in l1 L l2)).
Proof.
  revert fuel. induction alpns as [|a alpns IH]; intros fuel Hfuel.
  { left. split; [constructor|]. by destruct fuel. }
  destruct fuel as [|fuel]; [simpl in Hfuel; lia|].
  assert (Hunfold : alpn_list (a :: alpns) =
                    Z.of_nat (length a) :: (a ++ alpn_list alpns)) by done.
  rewrite Hunfold. cbn [get_listener_loop].
  destruct (get_listener_scan_decides Addr a (alpn_list alpns) ls)
    as [[Hno ->]|(l1 & L & l2 & Hls & Hl1 & HL & ->)].
  - rewrite Nat2Z.id, drop_app_length.
    destruct (IH fuel ltac:(simpl in Hfuel; lia))
      as [[Hall ->]|(before & alpn & after & l1 & L & l2 & -> & Hls & Hb & Hl1
                     & HL & ->)].
    + left. split; [by constructor|done].
    + right. exists (a :: before), alpn, after, l1, L, l2.
      split; [done|]. split; [done|]. split; [by constructor|]. done.
  - right. exists [], a, alpns, l1, L, l2.
    split; [done|]. split; [done|]. split; [constructor|].
    split; [done|]. split; [done|]. done.
Qed.

(** On a prevalidated ALPN list (a sequence of length-prefixed entries):
    when QuicBindingGetListener returns a listener, that listener is the
    first one, in the order of the offered entries and then of the registry,
    whose address and ALPN match, it was not being torn down, and the only
    change to the binding is the one rundown reference taken on it.  When it
    returns NULL the binding is left exactly as it was, and either no
    listener matches any offered entry or the first match is being torn
    down. *)
Theorem get_listener_effect (b : QUIC_BINDING) (Info : QUIC_NEW_CONNECTION_INFO)
    (alpns : list (list Z)) :
  AlpnList Info = alpn_list alpns →
  let first_match before alpn after l1 L l2 :=
    alpns = before ++ alpn :: after ∧ Listeners b = l1 ++ L :: l2 ∧
    Forall (λ x, Forall (λ L', listener_matches (InfoLocalAddress Info) x L'
                                = false) (Listeners b)) before ∧
    Forall (λ L', listener_matches (InfoLocalAddress Info) alpn L' = false) l1 ∧
    listener_matches (InfoLocalAddress Info) alpn L = true in
  match QuicBindingGetListener b Info with
  | (Some ptr, b') =>
    ∃ before alpn after l1 L l2, first_match before alpn after l1 L l2 ∧
      ListenerPtr L = ptr ∧
      RundownReleased (Rundown L) = false ∧
      b' = set_Listeners b (acquired_in l1 L l2)
  | (None, b') =>
    b' = b ∧
    (Forall (λ x, Forall (λ L', listener_matches (InfoLocalAddress Info) x L'
                                 = false) (Listeners b)) alpns ∨
     ∃ before alpn after l1 L l2, first_match before alpn after l1 L l2 ∧
       RundownReleased (Rundown L) = true)
  end.
Proof.
  intros Halpn first_match. subst first_match.
  unfold QuicBindingGetListener. rewrite Halpn.
  destruct (get_listener_loop_decides (length (alpn_list alpns))
              (InfoLocalAddress Info) alpns (Listeners b)
              (alpn_list_length alpns))
    as [[Hall ->]|(before & alpn & after & l1 & L & l2 & Ha & Hls & Hb & Hl1
                   & HL & ->)].
  - split; [apply set_Listeners_same|by left].
  - destruct (RundownReleased (Rundown L)) eqn:Hrel.
    + split; [apply set_Listeners_same|]. right.
      by exists before, alpn, after, l1, L, l2.
    + by exists before, alpn, after, l1, L, l2.
Qed.
End GetListenerEffect.

(** The theorem on a registry holding the live listener of the example and
    a client offering hq and then h3: the listener is returned for h3 and
    one rundown reference is taken. *)
Lemma get_listener_effect_witness :
  let b :=
    (QuicBindingRegisterListener example_binding example_live_listener true).2 in
  (QuicBindingGetListener b example_info).1 = Some 2%nat ∧
  ∃ before alpn after l1 L l2,
    [ALPN_HQ; ALPN_H3] = before ++ alpn :: after ∧
    Listeners b = l1 ++ L :: l2 ∧
    listener_matches (example_addr 443) alpn L = true ∧
    ListenerPtr L = 2%nat ∧
    (QuicBindingGetListener b example_info).2 =
      set_Listeners b (acquired_in l1 L l2).
Proof.
  intros b. split; [reflexivity|].
  pose proof (get_listener_effect b example_info [ALPN_HQ; ALPN_H3] eq_refl)
    as Heff.
  change (QuicBindingGetListener b example_info)
    with (Some 2%nat, (QuicBindingGetListener b example_info).2) in Heff.
  destruct Heff as (before & alpn & after & l1 & L & l2
                    & (Ha & Hls & _ & _ & HL) & Hptr & _ & Hb).
  by exists before, alpn, after, l1, L, l2.
Defined.

(** ** Registering and unregistering a listener *)

Section RegisterRoundTrip.
Implicit Types (L New : QUIC_LISTENER) (ls : list QUIC_LISTENER).

Lemma filter_other_ptrs (p : nat) ls :
  Forall (λ x, ListenerPtr x ≠ p) ls →
  filter (λ l, ListenerPtr l ≠ p) ls = ls.
Proof.
  induction 1 as [|x ls Hx _ IH]; [done|].
  rewrite filter_cons_True by done. by rewrite IH.
Qed.

Lemma filter_inserted New l1 l2 :
  Forall (λ x, ListenerPtr x ≠ ListenerPtr New) (l1 ++ l2) →
  filter (λ l, ListenerPtr l ≠ ListenerPtr New) (l1 ++ New :: l2) = l1 ++ l2.
Proof.
  intros Hall. rewrite filter_app, filter_cons_False by (intros Hne; by apply Hne).
  rewrite <- filter_app. by apply filter_other_ptrs.
Qed.

(** A listener object that is not in the registry.  When
    QuicBindingRegisterListener accepts it, the object is linked in the
    registry, which then reports a registered listener, and unregistering
    it gives back the binding as it was before the registration.  When the
    registration is refused (a duplicate, or the lookup partitioning failed
    and the object was unlinked again) the binding is left as it was. *)
Theorem register_unregister_round_trip (b : QUIC_BINDING) New (MaximizeOk : bool) :
  Forall (λ x, ListenerPtr x ≠ ListenerPtr New) (Listeners b) →
  let r := QuicBindingRegisterListener b New MaximizeOk in
  (r.1 = true →
   New ∈ Listeners r.2 ∧ QuicBindingHasListenerRegistered r.2 = true ∧
   QuicBindingUnregisterListener r.2 (ListenerPtr New) = b) ∧
  (r.1 = false → r.2 = b).
Proof.
  intros Hfresh r. subst r. unfold QuicBindingRegisterListener.
  assert (Hunreg : QuicBindingUnregisterListener b (ListenerPtr New) = b).
  { unfold QuicBindingUnregisterListener.
    rewrite filter_other_ptrs by done. apply set_Listeners_same. }
  assert (Hins : ∀ l1 l2, Listeners b = l1 ++ l2 →
            QuicBindingUnregisterListener (set_Listeners b (l1 ++ New :: l2))
              (ListenerPtr New) = b).
  { intros l1 l2 Hls. unfold QuicBindingUnregisterListener. simpl.
    rewrite filter_inserted by (by rewrite <- Hls).
    rewrite <- Hls. destruct b; reflexivity. }
  assert (Hreg : ∀ l1 l2,
            QuicBindingHasListenerRegistered (set_Listeners b (l1 ++ New :: l2))
            = true).
  { intros l1 l2. unfold QuicBindingHasListenerRegistered. simpl.
    rewrite bool_decide_eq_false_2; [done|]. by destruct l1. }
  destruct (register_search New (Listeners b) 0) as [Link [|]]; [|done].
  set (b1 := match Link with
             | Some i => set_Listeners b
                           (take i (Listeners b) ++ New :: drop i (Listeners b))
             | None => set_Listeners b (Listeners b ++ [New])
             end).
  assert (Hb1 : ∃ l1 l2, Listeners b = l1 ++ l2 ∧
                  b1 = set_Listeners b (l1 ++ New :: l2)).
  { subst b1. destruct Link as [i|].
    - exists (take i (Listeners b)), (drop i (Listeners b)).
      by rewrite take_drop.
    - exists (Listeners b), []. by rewrite app_nil_r. }
  destruct Hb1 as (l1 & l2 & Hls & Hb1). rewrite Hb1.
  destruct (bool_decide (Listeners b = []) && negb MaximizeOk) eqn:Hmax; simpl.
  - rewrite (Hins l1 l2 Hls). split; [done|]. done.
  - split; [|done]. intros _. split; [|split; [apply Hreg|by apply Hins]].
    apply elem_of_app. right. by left.
Qed.
End RegisterRoundTrip.

(** The theorem on a listener registered on the registry that already
    holds the torn-down v4 listener of the example: it is linked, and
    unregistering it gives the registry back. *)
Lemma register_unregister_round_trip_witness :
  let b :=
    (QuicBindingRegisterListener example_binding example_torn_down_listener
       true).2 in
  let r := QuicBindingRegisterListener b example_live_listener true in
  r.1 = true ∧
  example_live_listener ∈ Listeners r.2 ∧
  QuicBindingUnregisterListener r.2 (ListenerPtr example_live_listener) = b.
Proof.
  intros b r. split; [reflexivity|].
  destruct (proj1 (register_unregister_round_trip b example_live_listener true
                     ltac:(repeat constructor; vm_compute; discriminate))
              eq_refl) as (Hin & _ & Hback).
  split; [exact Hin|exact Hback].
Defined.

(** ** Stateless contexts: allocation and release *)

Section StatelessContextLife.
Context `{QuicDefs} `{QuicLib}.

Lemma age_out_accounted TimeMs l st t count :
  ctx_accounted l st →
  let r := age_out TimeMs l st t count in
  ctx_accounted r.1.1.1 r.1.1.2.
Proof.
  revert st t count. induction l as [|p rest IH]; intros st t count Hacc; [done|].
  simpl. destruct (st !! p) as [c|] eqn:Hp; [|done].
  case_bool_decide; [done|].
  apply IH. intros q cq Hq.
  destruct (IsProcessed c) eqn:Hproc.
  - destruct (decide (q = p)) as [->|Hne]; [by rewrite lookup_delete_eq in Hq|].
    rewrite lookup_delete_ne in Hq by done.
    destruct (Hacc q cq Hq) as (Hl & Hx & Hd).
    split; [|done]. intros Hne'. apply Hl in Hne'.
    apply elem_of_cons in Hne' as [?|?]; [done|done].
  - destruct (decide (q = p)) as [->|Hne].
    + rewrite lookup_insert_eq in Hq. injection Hq as <-.
      destruct (Hacc p c Hp) as (Hl & Hx & Hd).
      split; [done|]. by split.
    + rewrite lookup_insert_ne in Hq by done.
      destruct (Hacc q cq Hq) as (Hl & Hx & Hd).
      split; [|done]. intros Hne'. apply Hl in Hne'.
      apply elem_of_cons in Hne' as [?|?]; [done|done].
Qed.

Lemma create_stateless_operation_accounted (s : QUIC_BINDING * ctx_store)
    Worker Datagram TimeMs AllocOk :
  ctx_accounted (StatelessOperList s.1) s.2 →
  let r :=
    QuicBindingCreateStatelessOperation s.1 s.2 Worker Datagram TimeMs AllocOk in
  ctx_accounted (StatelessOperList r.1.1.2) r.1.2.
Proof.
  intros Hacc. unfold QuicBindingCreateStatelessOperation.
  pose proof (age_out_accounted TimeMs (StatelessOperList s.1) s.2
                (StatelessOperTable s.1) (StatelessOperCount s.1) Hacc) as Hage.
  destruct (age_out _ _ _ _ _) as [[[l st1] t] count]. simpl in Hage.
  case_bool_decide; [done|].
  destruct (bucket_has_address _ _ _); [done|].
  destruct AllocOk; [|done]. simpl.
  intros q cq Hq.
  destruct (decide (q = fresh (dom st1))) as [->|Hne].
  - rewrite lookup_insert_eq in Hq. injection Hq as <-. simpl.
    split; [intros _; apply elem_of_app; right; by left|].
    split; [done|]. split; [by eexists|done].
  - rewrite lookup_insert_ne in Hq by done.
    destruct (Hage q cq Hq) as (Hl & Hx & Hd).
    split; [|done]. intros Hne'. apply elem_of_app. left. by apply Hl.
Qed.

Lemma release_stateless_operation_accounted l (st : ctx_store)
    StatelessCtx ReturnDatagram :
  ctx_accounted l st →
  ctx_accounted l
    (QuicBindingReleaseStatelessOperation st StatelessCtx ReturnDatagram).1.
Proof.
  intros Hacc. unfold QuicBindingReleaseStatelessOperation.
  destruct (st !! StatelessCtx) as [c|] eqn:Hc; [|done].
  destruct (IsExpired c) eqn:Hexp; simpl; intros q cq Hq.
  - destruct (decide (q = StatelessCtx)) as [->|Hne];
      [by rewrite lookup_delete_eq in Hq|].
    rewrite lookup_delete_ne in Hq by done. by apply Hacc.
  - destruct (decide (q = StatelessCtx)) as [->|Hne].
    + rewrite lookup_insert_eq in Hq. injection Hq as <-. simpl.
      destruct (Hacc _ c Hc) as (Hl & Hx & Hd).
      split; [done|]. split; [by rewrite Hexp|].
      split; [done|]. by intros [? ?].
    + rewrite lookup_insert_ne in Hq by done. by apply Hacc.
Qed.

(** After any sequence of QuicBindingCreateStatelessOperation and
    QuicBindingReleaseStatelessOperation calls on a new binding, every
    context still allocated is accounted for: if it has not expired it is
    still in the binding's list, it is never both expired and processed (such
    a context has been freed), and it holds its datagram exactly as long as
    it is unprocessed. *)
Theorem stateless_contexts_accounted (ShareBinding HasRemote : bool)
    (reserved : Z) (salt : list Z) (ops : list stateless_op) :
  let s :=
    run_stateless_ops
      (QuicBindingInitialize ShareBinding HasRemote reserved salt, ∅) ops in
  ctx_accounted (StatelessOperList s.1) s.2.
Proof.
  intros s. subst s.
  set (s0 := (QuicBindingInitialize ShareBinding HasRemote reserved salt, ∅)).
  assert (H0' : ctx_accounted (StatelessOperList s0.1) s0.2)
    by (intros p c Hp; simpl in Hp; by rewrite lookup_empty in Hp).
  clearbody s0. revert s0 H0'.
  induction ops as [|op ops IH]; intros s0 Hacc; [done|].
  simpl. apply IH. destruct op as [W D T ok|p rd]; simpl.
  - by apply create_stateless_operation_accounted.
  - by apply release_stateless_operation_accounted.
Qed.
End StatelessContextLife.

(** ** Stateless operations: one per remote address and expiration window *)

Section StatelessWindow.
Context `{QuicDefs} `{QuicLib}.
Hypothesis Hmax : 0 <= QUIC_MAX_BINDING_STATELESS_OPERATIONS < 2^32.

(** A tracked context that has not expired survives the ageing loop. *)
Lemma age_out_keeps TimeMs l (st : ctx_store) t count q c :
  q ∈ l → st !! q = Some c →
  QuicTimeDiff32 (CreationTimeMs c) TimeMs <
    QUIC_STATELESS_OPERATION_EXPIRATION_MS →
  let r := age_out TimeMs l st t count in
  q ∈ r.1.1.1 ∧ r.1.1.2 !! q = Some c.
Proof.
  revert st t count. induction l as [|p rest IH]; intros st t count Hq Hc Hnew.
  { by apply elem_of_nil in Hq. }
  simpl. destruct (st !! p) as [cp|] eqn:Hp; [|done].
  case_bool_decide as Hexp; [done|].
  assert (Hne : q ≠ p).
  { intros ->. rewrite Hp in Hc. injection Hc as ->. lia. }
  apply elem_of_cons in Hq as [?|Hq]; [done|].
  apply IH; [done| |done].
  destruct (IsProcessed cp).
  - by rewrite lookup_delete_ne.
  - by rewrite lookup_insert_ne.
Qed.

Lemma bucket_has_address_true (st : ctx_store) RemoteAddress bucket q c :
  q ∈ bucket → st !! q = Some c → CtxRemoteAddress c = RemoteAddress →
  bucket_has_address st RemoteAddress bucket = true.
Proof.
  intros Hq Hc Haddr. induction bucket as [|e bucket IH].
  { by apply elem_of_nil in Hq. }
  simpl. destruct (decide (e = q)) as [->|Hne].
  - rewrite Hc. unfold QuicAddrCompare. by rewrite bool_decide_eq_true_2.
  - apply elem_of_cons in Hq as [?|Hq]; [done|].
    destruct (st !! e) as [ce|]; [|by apply IH].
    destruct (QuicAddrCompare _ _); [done|by apply IH].
Qed.

(** When every tracked context has expired the ageing loop empties the
    list. *)
Lemma age_out_all TimeMs l (st : ctx_store) t count :
  NoDup l →
  (∀ p, p ∈ l → ∃ c, st !! p = Some c ∧
     QuicTimeDiff32 (CreationTimeMs c) TimeMs >=
       QUIC_STATELESS_OPERATION_EXPIRATION_MS) →
  (age_out TimeMs l st t count).1.1.1 = [].
Proof.
  revert st t count. induction l as [|p rest IH]; intros st t count Hnd Hall;
    [done|].
  apply NoDup_cons in Hnd as [Hp Hnd].
  destruct (Hall p ltac:(by left)) as (c & Hc & Hexp).
  simpl. rewrite Hc. rewrite bool_decide_eq_false_2 by lia.
  apply IH; [done|]. intros q Hq.
  assert (Hne : q ≠ p) by (by intros ->).
  destruct (Hall q ltac:(by right)) as (cq & Hcq & Hq').
  exists cq. split; [|done].
  destruct (IsProcessed c).
  - by rewrite lookup_delete_ne.
  - by rewrite lookup_insert_ne.
Qed.

(** While a context for a remote address is tracked and has not expired, a
    further QuicBindingCreateStatelessOperation for a datagram from that
    address allocates nothing and returns NULL; the packet is dropped as
    already tracked (or because the binding is at its maximum), and the
    tracked context stays as it is. *)
Theorem stateless_duplicate_suppressed (ShareBinding HasRemote : bool)
    (reserved : Z) (salt : list Z) (ops : list stateless_op)
    (q : nat) (c : QUIC_STATELESS_CONTEXT) Worker Datagram TimeMs AllocOk :
  let s :=
    run_stateless_ops
      (QuicBindingInitialize ShareBinding HasRemote reserved salt, ∅) ops in
  q ∈ StatelessOperList s.1 →
  s.2 !! q = Some c →
  CtxRemoteAddress c = PktRemoteAddress (RecvPacket Datagram) →
  QuicTimeDiff32 (CreationTimeMs c) TimeMs <
    QUIC_STATELESS_OPERATION_EXPIRATION_MS →
  let r :=
    QuicBindingCreateStatelessOperation s.1 s.2 Worker Datagram TimeMs AllocOk in
  r.1.1.1 = None ∧
  (r.2 = [Drop_MaxBindingOperationsReached] ∨
   r.2 = [Drop_AlreadyInStatelessOperTable]) ∧
  q ∈ StatelessOperList r.1.1.2 ∧ r.1.2 !! q = Some c ∧
  dom r.1.2 ⊆ dom s.2.
Proof.
  intros s Hq Hc Haddr Hnew r.
  assert (Hinv : binding_table_inv s)
    by apply (run_stateless_ops_inv Hmax), (initial_table_inv Hmax).
  subst r. unfold QuicBindingCreateStatelessOperation.
  pose proof (age_out_keeps TimeMs _ _ (StatelessOperTable s.1)
                (StatelessOperCount s.1) q c Hq Hc Hnew) as Hkeep.
  pose proof (age_out_inv Hmax TimeMs _ _ _ _ Hinv) as Hage.
  destruct (age_out _ _ _ _ _) as [[[l st1] t] count].
  simpl in Hkeep, Hage. destruct Hkeep as [Hql Hqc]. destruct Hage as [Hinv1 Hdom].
  case_bool_decide; [simpl; by eauto 6|].
  rewrite (bucket_has_address_true st1 _ _ q c); [simpl; by eauto 6| |done|done].
  apply (inv_table _ _ _ _ Hinv1). split; [done|].
  exists c. split; [done|]. by rewrite Haddr.
Qed.

(** Once every tracked context has expired, the next
    QuicBindingCreateStatelessOperation empties the tracking list and, when
    the maximum is not zero and the pool allocates, admits the datagram: it
    returns a context holding the datagram and its remote address,
    unprocessed and unexpired, as the only tracked one. *)
Theorem stateless_admitted_after_expiry (ShareBinding HasRemote : bool)
    (reserved : Z) (salt : list Z) (ops : list stateless_op)
    Worker Datagram TimeMs :
  let s :=
    run_stateless_ops
      (QuicBindingInitialize ShareBinding HasRemote reserved salt, ∅) ops in
  0 < QUIC_MAX_BINDING_STATELESS_OPERATIONS →
  (∀ p c, p ∈ StatelessOperList s.1 → s.2 !! p = Some c →
     QuicTimeDiff32 (CreationTimeMs c) TimeMs >=
       QUIC_STATELESS_OPERATION_EXPIRATION_MS) →
  let r :=
    QuicBindingCreateStatelessOperation s.1 s.2 Worker Datagram TimeMs true in
  ∃ ctx, r.1.1.1 = Some ctx ∧ r.2 = [] ∧
    r.1.2 !! ctx =
      Some (mkStatelessCtx Worker (Some Datagram)
              (PktRemoteAddress (RecvPacket Datagram)) TimeMs false false false) ∧
    StatelessOperList r.1.1.2 = [ctx] ∧
    StatelessOperCount r.1.1.2 = 1.
Proof.
  intros s Hpos Hall r.
  assert (Hinv : binding_table_inv s)
    by apply (run_stateless_ops_inv Hmax), (initial_table_inv Hmax).
  subst r. unfold QuicBindingCreateStatelessOperation.
  assert (Hexp : ∀ p, p ∈ StatelessOperList s.1 → ∃ c, s.2 !! p = Some c ∧
            QuicTimeDiff32 (CreationTimeMs c) TimeMs >=
              QUIC_STATELESS_OPERATION_EXPIRATION_MS).
  { intros p Hp. destruct (inv_live _ _ _ _ Hinv p Hp) as (c & Hc & _).
    exists c. split; [done|]. by apply (Hall p c). }
  pose proof (age_out_all TimeMs (StatelessOperList s.1) s.2
                (StatelessOperTable s.1) (StatelessOperCount s.1)
                (inv_nodup _ _ _ _ Hinv) Hexp) as Hnil.
  pose proof (age_out_inv Hmax TimeMs _ _ _ _ Hinv) as Hage.
  destruct (age_out _ _ _ _ _) as [[[l st1] t] count].
  simpl in Hnil, Hage. destruct Hage as [Hinv1 Hdom]. subst l.
  pose proof (inv_count _ _ _ _ Hinv1) as Hcount. simpl in Hcount. subst count.
  rewrite bool_decide_eq_false_2 by lia.
  assert (Hbucket : ∀ h, QuicHashtableLookup t h = []).
  { intros h. destruct (QuicHashtableLookup t h) as [|e b] eqn:Hb; [done|].
    assert (He : e ∈ QuicHashtableLookup t h) by (rewrite Hb; by left).
    apply (inv_table _ _ _ _ Hinv1) in He as [He _]. by apply elem_of_nil in He. }
  rewrite Hbucket. simpl.
  exists (fresh (dom st1)).
  split; [done|]. split; [done|].
  split; [by rewrite lookup_insert_eq|]. done.
Qed.
End StatelessWindow.

(** The theorems on a binding tracking one context, created at time 1000
    for port 5000: a second datagram from that port at time 1010 is
    refused, and one at time 1200 is admitted. *)
Lemma stateless_duplicate_suppressed_witness :
  let s :=
    @run_stateless_ops example_defs example_lib (example_binding, ∅)
      [OpCreate 0 (mkDatagram 1 (example_short_packet 60 5000)) 1000 true] in
  (@QuicBindingCreateStatelessOperation example_defs example_lib s.1 s.2 0%nat
     (mkDatagram 2 (example_short_packet 60 5000)) 1010 true).1.1.1 = None.
Proof.
  refine (proj1 (@stateless_duplicate_suppressed example_defs example_lib
                   ltac:(simpl; lia) true false 0x1a2a3a4a [7; 7; 7]
                   [OpCreate 0 (mkDatagram 1 (example_short_packet 60 5000))
                      1000 true]
                   0%nat
                   (mkStatelessCtx 0 (Some (mkDatagram 1 (example_short_packet 60 5000)))
                      (example_addr 5000) 1000 false false false)
                   0%nat (mkDatagram 2 (example_short_packet 60 5000)) 1010 true
                   _ _ _ _)).
  - vm_compute. by left.
  - vm_compute. reflexivity.
  - reflexivity.
  - vm_compute. reflexivity.
Defined.

Lemma stateless_admitted_after_expiry_witness :
  let s :=
    @run_stateless_ops example_defs example_lib (example_binding, ∅)
      [OpCreate 0 (mkDatagram 1 (example_short_packet 60 5000)) 1000 true] in
  ∃ ctx,
    (@QuicBindingCreateStatelessOperation example_defs example_lib s.1 s.2 0%nat
       (mkDatagram 2 (example_short_packet 60 5000)) 1200 true).1.1.1 = Some ctx.
Proof.
  destruct (@stateless_admitted_after_expiry example_defs example_lib
              ltac:(simpl; lia) true false 0x1a2a3a4a [7; 7; 7]
              [OpCreate 0 (mkDatagram 1 (example_short_packet 60 5000))
                 1000 true]
              0%nat (mkDatagram 2 (example_short_packet 60 5000)) 1200)
    as (ctx & Hctx & _).
  - simpl. lia.
  - intros p c Hp Hc.
    assert (Hp' : p = 0%nat).
    { vm_compute in Hp. by apply list_elem_of_singleton in Hp. }
    subst p. vm_compute in Hc. injection Hc as <-. vm_compute. discriminate.
  - exists ctx. exact Hctx.
Defined.

(** ** QuicBindingQueueStatelessOperation: who owns the datagram *)

Section QueueOwnership.
Context `{QuicDefs} `{QuicLib}.

Lemma age_out_unowned TimeMs l st t count D :
  datagram_unowned st D →
  datagram_unowned (age_out TimeMs l st t count).1.1.2 D.
Proof.
  revert st t count. induction l as [|p rest IH]; intros st t count Hun; [done|].
  simpl. destruct (st !! p) as [c|] eqn:Hp; [|done].
  case_bool_decide; [done|].
  apply IH. intros q cq d Hq.
  destruct (IsProcessed c).
  - apply lookup_delete_Some in Hq as [_ Hq]. by apply (Hun q).
  - destruct (decide (q = p)) as [->|Hne].
    + rewrite lookup_insert_eq in Hq. injection Hq as <-. simpl. by apply (Hun p).
    + rewrite lookup_insert_ne in Hq by done. by apply (Hun q).
Qed.

(** The two ways QuicBindingQueueStatelessOperation ends for a datagram no
    context holds yet. *)
Lemma queue_stateless_operation_cases (b : QUIC_BINDING) (st : ctx_store)
    (OperType : QUIC_OPERATION_TYPE) (D : QUIC_RECV_DATAGRAM)
    (o : queue_outcomes) :
  datagram_unowned st D →
  (∃ b' st' ctx c,
     QuicBindingQueueStatelessOperation b st OperType D o =
       (true, b', st', Some (OperType, ctx)) ∧
     st' !! ctx = Some c ∧ CtxDatagram c = Some D ∧
     CtxWorker c = LibraryWorker o ∧ IsProcessed c = false ∧
     ∀ p c' d, st' !! p = Some c' → CtxDatagram c' = Some d →
       DgPtr d = DgPtr D → p = ctx) ∨
  (∃ b' st',
     QuicBindingQueueStatelessOperation b st OperType D o =
       (false, b', st', None) ∧
     datagram_unowned st' D).
Proof.
  intros Hun. unfold QuicBindingQueueStatelessOperation.
  destruct (WorkerPoolIsNull o); [right; by eauto|].
  destruct (WorkerIsOverloaded o); [right; by eauto|].
  unfold QuicBindingCreateStatelessOperation.
  pose proof (age_out_unowned (NowMs o) (StatelessOperList b) st
                (StatelessOperTable b) (StatelessOperCount b) D Hun) as Hage.
  destruct (age_out _ _ _ _ _) as [[[l st1] t] count]. simpl in Hage.
  case_bool_decide; [right; by eauto|].
  destruct (bucket_has_address _ _ _); [right; by eauto|].
  destruct (CtxAllocOk o); [|right; by eauto]. cbn [negb].
  set (ctx := fresh (dom st1)).
  assert (Hfresh : st1 !! ctx = None)
    by (apply not_elem_of_dom, is_fresh).
  destruct (OperAllocOk o); cbn [negb].
  - left. do 4 eexists. split; [reflexivity|].
    split; [by rewrite lookup_insert_eq|]. simpl.
    split; [done|]. split; [done|]. split; [done|].
    intros p c d Hp Hd Hptr. destruct (decide (p = ctx)) as [|Hne]; [done|].
    rewrite lookup_insert_ne in Hp by done. by destruct (Hage p c d Hp Hd).
  - right. do 2 eexists. split; [reflexivity|].
    unfold QuicBindingReleaseStatelessOperation. rewrite lookup_insert_eq. simpl.
    intros p c d Hp. destruct (decide (p = ctx)) as [->|Hne].
    + rewrite lookup_insert_eq in Hp. by injection Hp as <-.
    + rewrite !lookup_insert_ne in Hp by done. by apply (Hage p).
Qed.

(** The caller gives up the datagram exactly when
    QuicBindingQueueStatelessOperation returns TRUE.  For a datagram no
    context holds yet: on TRUE an operation of the requested type is queued
    whose context, on the library worker and unprocessed, is the one and only
    holder of the datagram; on FALSE nothing is queued and no context holds
    the datagram, also when the operation allocation fails after the context
    was created. *)
Theorem queue_stateless_operation_owns_datagram (b : QUIC_BINDING)
    (st : ctx_store) (OperType : QUIC_OPERATION_TYPE) (D : QUIC_RECV_DATAGRAM)
    (o : queue_outcomes) :
  datagram_unowned st D →
  let r := QuicBindingQueueStatelessOperation b st OperType D o in
  match r.2 with
  | Some (ty, ctx) =>
    r.1.1.1 = true ∧ ty = OperType ∧
    (∃ c, r.1.2 !! ctx = Some c ∧ CtxDatagram c = Some D ∧
          CtxWorker c = LibraryWorker o ∧ IsProcessed c = false) ∧
    ∀ p c d, r.1.2 !! p = Some c → CtxDatagram c = Some d →
      DgPtr d = DgPtr D → p = ctx
  | None => r.1.1.1 = false ∧ datagram_unowned r.1.2 D
  end.
Proof.
  intros Hun r. subst r.
  destruct (queue_stateless_operation_cases b st OperType D o Hun)
    as [(b' & st' & ctx & c & -> & Hc & Hd & Hw & Hp & Huniq)
       |(b' & st' & -> & Hun')]; simpl.
  - split; [done|]. split; [done|]. split; [by exists c|done].
  - done.
Qed.
End QueueOwnership.

(** The theorem on a new binding with the operation allocation failing:
    the context that was created no longer holds the datagram. *)
Lemma queue_stateless_operation_owns_datagram_witness :
  let D := mkDatagram 1 (example_short_packet 60 5000) in
  let r :=
    @QuicBindingQueueStatelessOperation example_defs example_lib example_binding
      ∅ QUIC_OPER_TYPE_RETRY D (mkQueueOutcomes false 0 false 1000 true false) in
  r.1.1.1 = false ∧ datagram_unowned r.1.2 D.
Proof.
  refine (@queue_stateless_operation_owns_datagram example_defs example_lib
            example_binding ∅ QUIC_OPER_TYPE_RETRY
            (mkDatagram 1 (example_short_packet 60 5000))
            (mkQueueOutcomes false 0 false 1000 true false) _).
  intros p c d Hp. by rewrite lookup_empty in Hp.
Defined.

(** ** QuicBindingCreateConnection: refusals and acceptance *)

Section CreateConnectionPaths.
Context `{QuicDefs}.

Lemma fresh_connection_unused (cs : conn_store) : cs !! fresh (dom cs) = None.
Proof. apply not_elem_of_dom, is_fresh. Qed.

(** Releasing both references of a connection that holds exactly those two
    frees it. *)
Lemma release_twice_frees (cs : conn_store) (c : nat) x :
  cs !! c = None → RefCount x = 2 →
  QuicConnRelease c (QuicConnRelease c (<[c := x]> cs)) = cs.
Proof.
  intros Hc Hx. unfold QuicConnRelease at 2. rewrite lookup_insert_eq, Hx.
  rewrite bool_decide_eq_false_2 by lia. rewrite insert_insert_eq.
  unfold QuicConnRelease. rewrite lookup_insert_eq. simpl.
  by apply delete_insert_id.
Qed.

(** When QuicConnInitialize fails, the worker is overloaded, or the binding
    is being cleaned up, QuicBindingCreateConnection returns NULL and, apart
    from the one drop it logs, leaves everything as it was: the connection
    object it made is freed again, and neither the binding's handshake count
    nor the handshake memory usage nor the worker's queue has changed. *)
Theorem create_connection_refused (s : create_state) (o : create_outcomes) :
  ConnInitializeOk o = false ∨ CreateWorkerOverloaded o = true ∨
    TryAddRefBindingOk o = false →
  ∃ reason,
    QuicBindingCreateConnection s o = Returns (None, log_drop reason s) ∧
    reason =
      if negb (ConnInitializeOk o) then Drop_FailedToInitializeNewConnection
      else if CreateWorkerOverloaded o then Drop_WorkerOverloaded
      else Drop_CleanUpInProgress.
Proof.
  intros Hfail. unfold QuicBindingCreateConnection.
  pose proof (fresh_connection_unused (CsConns s)) as Hfresh.
  set (New := fresh (dom (CsConns s))) in *.
  destruct (ConnInitializeOk o); cbn [negb]; [|by eexists].
  destruct (CreateWorkerOverloaded o).
  - eexists. split; [|reflexivity].
    unfold create_connection_exit, log_drop, QuicConnAddRef, conn_update. simpl.
    rewrite !alter_insert_eq. simpl.
    rewrite release_twice_frees by done. done.
  - destruct (TryAddRefBindingOk o); cbn [negb].
    { destruct Hfail as [?|[?|?]]; done. }
    eexists. split; [|reflexivity].
    unfold create_connection_exit, log_drop, QuicConnAddRef, conn_update. simpl.
    rewrite !alter_insert_eq. simpl.
    rewrite release_twice_frees by done. done.
Qed.

(** When every step succeeds, QuicBindingCreateConnection returns a
    connection object that was not allocated before, now holding the handle
    owner's and the lookup result's references, bound to the binding and
    assigned to the worker on whose queue it has been put; the binding's
    handshake count has grown by one and the handshake memory usage by
    QUIC_CONN_HANDSHAKE_MEMORY_USAGE (on the 64-bit counter); no other
    connection is touched and nothing is logged. *)
Theorem create_connection_accepted (s : create_state) (o : create_outcomes) :
  ConnInitializeOk o = true → CreateWorkerOverloaded o = false →
  TryAddRefBindingOk o = true → LookupAdd o = LookupInserted →
  ∃ New,
    CsConns s !! New = None ∧
    QuicBindingCreateConnection s o =
      Returns (Some New,
        mkCreateState
          (set_HandshakeConnections (CsBinding s)
             (HandshakeConnections (CsBinding s) + 1))
          (<[New := mkConn 2 true (Some (CreateWorker o)) true 0
                      (BackUpOper new_connection)
                      (BackupApiContext new_connection) []]> (CsConns s))
          ((CurrentHandshakeMemoryUsage s + QUIC_CONN_HANDSHAKE_MEMORY_USAGE)
             `mod` 2^64)
          (WorkerConnQ s ++ [(CreateWorker o, New)])
          (CsDrops s)).
Proof.
  intros Hinit Hload Hbind Hadd. exists (fresh (dom (CsConns s))).
  split; [apply fresh_connection_unused|].
  unfold QuicBindingCreateConnection. rewrite Hinit, Hload, Hbind, Hadd.
  cbn [negb]. unfold QuicConnAddRef, conn_update. simpl.
  by rewrite !alter_insert_eq.
Qed.
End CreateConnectionPaths.

(** The theorems on the example state: with the worker overloaded nothing
    but the logged drop remains; with every step succeeding a connection is
    returned. *)
Lemma create_connection_refused_witness :
  ∃ reason,
    @QuicBindingCreateConnection example_defs (example_create_state 0)
      (mkCreateOutcomes true 0 true true LookupInserted) =
    Returns (None, log_drop reason (example_create_state 0)) ∧
    reason = Drop_WorkerOverloaded.
Proof.
  apply (@create_connection_refused example_defs (example_create_state 0)
           (mkCreateOutcomes true 0 true true LookupInserted)).
  right. left. reflexivity.
Defined.

Lemma create_connection_accepted_witness :
  ∃ New r,
    CsConns (example_create_state 0) !! New = None ∧
    @QuicBindingCreateConnection example_defs (example_create_state 0)
      (mkCreateOutcomes true 0 false true LookupInserted) =
    Returns (Some New, r).
Proof.
  destruct (@create_connection_accepted example_defs (example_create_state 0)
              (mkCreateOutcomes true 0 false true LookupInserted)
              eq_refl eq_refl eq_refl eq_refl) as (New & Hnew & Hrun).
  exists New. eexists. split; [exact Hnew|exact Hrun].
Defined.

(** ** QuicBindingDeliverPackets *)

Section DeliverPacketsProperties.
Context `{QuicDefs} `{QuicLib}.

(** Taking and releasing a reference on a live connection changes nothing. *)
Lemma release_after_addref (cs : conn_store) (c : nat) x :
  cs !! c = Some x → 0 < RefCount x →
  QuicConnRelease c (QuicConnAddRef c cs) = cs.
Proof.
  intros Hc Hx. unfold QuicConnRelease, QuicConnAddRef, conn_update.
  rewrite lookup_alter_eq, Hc. simpl.
  rewrite bool_decide_eq_false_2 by lia.
  apply map_eq. intros i. destruct (decide (i = c)) as [->|Hne].
  - rewrite lookup_insert_eq, Hc. f_equal. destruct x. simpl. f_equal. lia.
  - rewrite lookup_insert_ne by done. by rewrite lookup_alter_ne.
Qed.

(** A subchain whose destination CID is found in the lookup table is queued
    on that connection, with its length, and TRUE is returned; nothing else
    changes, the lookup's reference on the connection having been released
    again. *)
Theorem deliver_packets_found (s : deliver_state) (D : QUIC_RECV_DATAGRAM)
    (n : Z) (o : deliver_outcomes) (c : nat) (x : QUIC_CONNECTION) :
  LookupFind o = Some c →
  CsConns (DsCreate s) !! c = Some x →
  0 < RefCount x →
  QuicBindingDeliverPackets s D n o =
    Returns (true,
             mkDeliverState (DsCreate s) (DsCtx s) (DsOperQ s)
               (DsRecvQ s ++ [(c, DgPtr D, n)])).
Proof.
  intros Hfind Hc Hx. unfold QuicBindingDeliverPackets. rewrite Hfind.
  destruct s as [[b cs mem wq dr] st oq rq]. simpl in Hc.
  unfold deliver_to_connection, set_CsConns. simpl.
  by rewrite (release_after_addref _ c x Hc Hx).
Qed.
End DeliverPacketsProperties.

(** The theorem on the example: the chain headed by datagram 7 is queued on
    the connection at address 1. *)
Lemma deliver_packets_found_witness :
  @QuicBindingDeliverPackets example_defs example_lib example_deliver_state
    (mkDatagram 7 (example_short_packet 60 5000)) 3
    (example_deliver_outcomes (Some 1%nat)) =
  Returns (true,
           mkDeliverState (example_create_state 0) ∅ [] [(1%nat, 7%nat, 3)]).
Proof.
  apply (@deliver_packets_found example_defs example_lib example_deliver_state
           (mkDatagram 7 (example_short_packet 60 5000)) 3
           (example_deliver_outcomes (Some 1%nat)) 1%nat
           (example_existing_connection 0)).
  - reflexivity.
  - vm_compute. reflexivity.
  - simpl. lia.
Defined.

Section DeliverPacketsOwnership.
Context `{QuicDefs} `{QuicLib}.

Lemma queue_stateless_reset_cases (b : QUIC_BINDING) (st : ctx_store)
    (D : QUIC_RECV_DATAGRAM) (o : queue_outcomes) :
  QuicBindingQueueStatelessReset b st D o = (false, b, st, None) ∨
  (IsLongHeader (RecvPacket D) = false ∧
   BufferLength (RecvPacket D) > QUIC_MIN_STATELESS_RESET_PACKET_LENGTH ∧
   Exclusive b = false ∧
   QuicBindingQueueStatelessReset b st D o =
     QuicBindingQueueStatelessOperation b st QUIC_OPER_TYPE_STATELESS_RESET D o).
Proof.
  unfold QuicBindingQueueStatelessReset.
  destruct (IsLongHeader (RecvPacket D)); [by left|].
  case_bool_decide; [by left|].
  destruct (Exclusive b); [by left|].
  right. split; [done|]. split; [lia|]. done.
Qed.

(** What a queued stateless operation leaves behind, in terms of the
    delivery state. *)
Lemma after_queue_owner (s : deliver_state) (b : QUIC_BINDING)
    (OperType : QUIC_OPERATION_TYPE) (D : QUIC_RECV_DATAGRAM)
    (o : queue_outcomes) ok s' :
  datagram_unowned (DsCtx s) D →
  after_queue s (QuicBindingQueueStatelessOperation b (DsCtx s) OperType D o) =
    (ok, s') →
  DsRecvQ s' = DsRecvQ s ∧
  if ok then
    ∃ ctx c, DsOperQ s' = DsOperQ s ++ [(OperType, ctx)] ∧
      DsCtx s' !! ctx = Some c ∧ CtxDatagram c = Some D ∧
      IsProcessed c = false ∧
      ∀ p c' d, DsCtx s' !! p = Some c' → CtxDatagram c' = Some d →
        DgPtr d = DgPtr D → p = ctx
  else DsOperQ s' = DsOperQ s ∧ datagram_unowned (DsCtx s') D.
Proof.
  intros Hun Hrun.
  destruct (queue_stateless_operation_cases b (DsCtx s) OperType D o Hun)
    as [(b' & st' & ctx & c & Hq & Hc & Hd & Hw & Hp & Huniq)
       |(b' & st' & Hq & Hun')];
    rewrite Hq in Hrun; simpl in Hrun; injection Hrun as <- <-; simpl.
  - split; [done|]. by exists ctx, c.
  - split; [done|]. split; [by rewrite app_nil_r|done].
Qed.

(** QuicBindingDeliverPackets returns TRUE exactly when it has passed the
    subchain on.  For a head datagram that no stateless context holds, a run
    that returns TRUE has either queued the chain on one connection (and
    then no context holds it), or queued one Stateless Reset or Retry
    operation whose unprocessed context is the only holder of the datagram;
    a run that returns FALSE has queued nothing and no context holds the
    datagram, so the caller may release it. *)
Theorem deliver_packets_ownership (s : deliver_state) (D : QUIC_RECV_DATAGRAM)
    (n : Z) (o : deliver_outcomes) (ok : bool) (s' : deliver_state) :
  datagram_unowned (DsCtx s) D →
  QuicBindingDeliverPackets s D n o = Returns (ok, s') →
  if ok then
    (∃ c, DsRecvQ s' = DsRecvQ s ++ [(c, DgPtr D, n)] ∧
          DsOperQ s' = DsOperQ s ∧ datagram_unowned (DsCtx s') D) ∨
    (∃ ty ctx c d,
       DsOperQ s' = DsOperQ s ++ [(ty, ctx)] ∧ DsRecvQ s' = DsRecvQ s ∧
       (ty = QUIC_OPER_TYPE_STATELESS_RESET ∨ ty = QUIC_OPER_TYPE_RETRY) ∧
       DsCtx s' !! ctx = Some c ∧ CtxDatagram c = Some d ∧
       DgPtr d = DgPtr D ∧ IsProcessed c = false ∧
       ∀ p c' d', DsCtx s' !! p = Some c' → CtxDatagram c' = Some d' →
         DgPtr d' = DgPtr D → p = ctx)
  else
    DsRecvQ s' = DsRecvQ s ∧ DsOperQ s' = DsOperQ s ∧
    datagram_unowned (DsCtx s') D.
Proof.
  intros Hun Hrun. unfold QuicBindingDeliverPackets in Hrun.
  destruct (LookupFind o) as [c|].
  { injection Hrun as <- <-. left. exists c. by simpl. }
  destruct (QuicBindingShouldCreateConnection _ _ _); cbn [negb] in Hrun.
  - destruct (QuicBindingShouldRetryConnection _ _ _ _ _)
      as [[retry Packet1] DropPacket].
    destruct retry.
    + injection Hrun as Hrun.
      set (D1 := mkDatagram (DgPtr D) Packet1) in *.
      assert (Hun1 : datagram_unowned (DsCtx s) D1) by exact Hun.
      destruct (after_queue_owner s _ _ D1 _ ok s' Hun1 Hrun) as [Hrq Hres].
      destruct ok.
      * right. destruct Hres as (ctx & c & Hoq & Hc & Hd & Hp & Huniq).
        exists QUIC_OPER_TYPE_RETRY, ctx, c, D1.
        split; [done|]. split; [done|]. split; [by right|].
        split; [done|]. split; [done|]. split; [done|]. split; [done|].
        exact Huniq.
      * destruct Hres as [Hoq Hun']. split; [done|]. split; [done|]. exact Hun'.
    + destruct DropPacket; cbn [negb] in Hrun.
      { injection Hrun as <- <-. done. }
      destruct (QuicBindingCreateConnection _ _) as [|[[c|] cs]]; [done|..];
        injection Hrun as <- <-; simpl.
      * left. exists c. done.
      * done.
  - injection Hrun as Hrun.
    destruct (queue_stateless_reset_cases (CsBinding (DsCreate s)) (DsCtx s) D
                (DeliverQueue o)) as [Hq|(_ & _ & _ & Hq)];
      rewrite Hq in Hrun.
    + simpl in Hrun. injection Hrun as <- <-. simpl.
      split; [done|]. split; [by rewrite app_nil_r|done].
    + destruct (after_queue_owner s _ _ D _ ok s' Hun Hrun) as [Hrq Hres].
      destruct ok.
      * right. destruct Hres as (ctx & c & Hoq & Hc & Hd & Hp & Huniq).
        exists QUIC_OPER_TYPE_STATELESS_RESET, ctx, c, D.
        split; [done|]. split; [done|]. split; [by left|].
        split; [done|]. split; [done|]. split; [done|]. split; [done|].
        exact Huniq.
      * destruct Hres as [Hoq Hun']. split; [done|]. split; [done|]. exact Hun'.
Qed.
End DeliverPacketsOwnership.

(** The theorem on a short-header datagram of 60 bytes that matches no
    connection: a Stateless Reset is queued and its context holds the
    datagram. *)
Lemma deliver_packets_ownership_witness :
  let D := mkDatagram 7 (example_short_packet 60 5000) in
  let run :=
    @QuicBindingDeliverPackets example_defs example_lib example_deliver_state
      D 1 (example_deliver_outcomes None) in
  let s' := (deliver_result run example_deliver_state).2 in
  (∃ c, DsRecvQ s' = [] ++ [(c, 7%nat, 1)] ∧ DsOperQ s' = [] ∧
        datagram_unowned (DsCtx s') D) ∨
  (∃ ty ctx c d,
     DsOperQ s' = [] ++ [(ty, ctx)] ∧ DsRecvQ s' = [] ∧
     (ty = QUIC_OPER_TYPE_STATELESS_RESET ∨ ty = QUIC_OPER_TYPE_RETRY) ∧
     DsCtx s' !! ctx = Some c ∧ CtxDatagram c = Some d ∧
     DgPtr d = 7%nat ∧ IsProcessed c = false ∧
     ∀ p c' d', DsCtx s' !! p = Some c' → CtxDatagram c' = Some d' →
       DgPtr d' = 7%nat → p = ctx).
Proof.
  intros D run s'.
  refine (@deliver_packets_ownership example_defs example_lib
            example_deliver_state D 1 (example_deliver_outcomes None)
            true s' _ _).
  - intros p c d Hp. simpl in Hp. by rewrite lookup_empty in Hp.
  - vm_compute. reflexivity.
Defined.

Section DeliverPacketsCreation.
Context `{QuicDefs} `{QuicLib}.

Lemma create_connection_exit_worker_queue NewConnection Connection
    (BindingRefAdded : bool) (s : create_state) r s' :
  create_connection_exit NewConnection Connection BindingRefAdded s =
    Returns (r, s') →
  WorkerConnQ s' = WorkerConnQ s.
Proof.
  unfold create_connection_exit. destruct BindingRefAdded.
  - destruct Connection as [c|]; [|done].
    destruct (claim_backup_oper _ _) as [[[|] cs']|]; [| |done];
      intros Hr; by injection Hr as <- <-.
  - intros Hr. by injection Hr as <- <-.
Qed.

(** QuicBindingCreateConnection puts a connection on a worker's queue only
    when it returns that connection as new. *)
Lemma create_connection_worker_queue (s : create_state) (o : create_outcomes)
    r s' :
  QuicBindingCreateConnection s o = Returns (r, s') →
  WorkerConnQ s' = WorkerConnQ s ∨
  (r = Some (fresh (dom (CsConns s))) ∧
   WorkerConnQ s' =
     WorkerConnQ s ++ [(CreateWorker o, fresh (dom (CsConns s)))]).
Proof.
  unfold QuicBindingCreateConnection.
  destruct (ConnInitializeOk o); cbn [negb];
    [|intros Hr; injection Hr as <- <-; by left].
  destruct (CreateWorkerOverloaded o).
  { intros Hr%create_connection_exit_worker_queue. by left. }
  destruct (TryAddRefBindingOk o); cbn [negb].
  2:{ intros Hr%create_connection_exit_worker_queue. by left. }
  destruct (LookupAdd o).
  - intros Hr. injection Hr as <- <-. by right.
  - intros Hr%create_connection_exit_worker_queue. by left.
  - intros Hr%create_connection_exit_worker_queue. by left.
Qed.

Lemma queue_stateless_operation_binding (b : QUIC_BINDING) (st : ctx_store)
    OperType D (o : queue_outcomes) :
  ∃ n t l,
    (QuicBindingQueueStatelessOperation b st OperType D o).1.1.2 =
      set_Stateless b n t l.
Proof.
  assert (Hsame : b = set_Stateless b (StatelessOperCount b)
                        (StatelessOperTable b) (StatelessOperList b))
    by (by destruct b).
  unfold QuicBindingQueueStatelessOperation.
  destruct (WorkerPoolIsNull o); [by eauto|].
  destruct (WorkerIsOverloaded o); [by eauto|].
  unfold QuicBindingCreateStatelessOperation.
  destruct (age_out _ _ _ _ _) as [[[l st1] t] count].
  case_bool_decide; [simpl; by eauto|].
  destruct (bucket_has_address _ _ _); [simpl; by eauto|].
  destruct (CtxAllocOk o); [|simpl; by eauto]. cbn [negb].
  destruct (OperAllocOk o); simpl; by eauto.
Qed.

Lemma after_queue_create_state (s : deliver_state) (b : QUIC_BINDING)
    OperType D (o : queue_outcomes) :
  ∃ n t l,
    DsCreate (after_queue s
                (QuicBindingQueueStatelessOperation b (DsCtx s) OperType D o)).2
    = set_CsBinding (DsCreate s) (set_Stateless b n t l).
Proof.
  destruct (queue_stateless_operation_binding b (DsCtx s) OperType D o)
    as (n & t & l & Hb).
  exists n, t, l. unfold after_queue.
  destruct (QuicBindingQueueStatelessOperation _ _ _ _ _) as [[[ok b'] st'] op].
  simpl in *. by rewrite Hb.
Qed.

(** A connection is put on a worker's queue only for a subchain that matches
    no connection and whose head is a long-header packet, not of the
    Version Negotiation version, that may create a connection, on a binding
    with a registered listener, and only when retry gating neither asks for
    a Retry nor drops the packet.  The connection is then a new object, the
    subchain is queued on it, and TRUE is returned. *)
Theorem deliver_packets_new_connection (s : deliver_state)
    (D : QUIC_RECV_DATAGRAM) (n : Z) (o : deliver_outcomes) (ok : bool)
    (s' : deliver_state) :
  QuicBindingDeliverPackets s D n o = Returns (ok, s') →
  WorkerConnQ (DsCreate s') ≠ WorkerConnQ (DsCreate s) →
  LookupFind o = None ∧
  IsLongHeader (RecvPacket D) = true ∧
  QuicBindingHasListenerRegistered (CsBinding (DsCreate s)) = true ∧
  HdrVersion (RecvPacket D) ≠ QUIC_VERSION_VER_NEG ∧
  CanCreateNewConnection o = true ∧
  (∃ Packet1,
     QuicBindingShouldRetryConnection (RetryMemoryLimit o) (QuicTotalMemory o)
       (CurrentHandshakeMemoryUsage (DsCreate s)) (RecvPacket D) false =
     (false, Packet1, false)) ∧
  ok = true ∧
  ∃ New,
    CsConns (DsCreate s) !! New = None ∧
    WorkerConnQ (DsCreate s') =
      WorkerConnQ (DsCreate s) ++ [(CreateWorker (DeliverCreate o), New)] ∧
    DsRecvQ s' = DsRecvQ s ++ [(New, DgPtr D, n)].
Proof.
  intros Hrun Hq. unfold QuicBindingDeliverPackets in Hrun.
  destruct (LookupFind o) as [c|].
  { injection Hrun as <- <-. by destruct Hq. }
  destruct (QuicBindingShouldCreateConnection _ _ _) eqn:Hshould;
    cbn [negb] in Hrun.
  2:{ injection Hrun as Hrun. exfalso. apply Hq.
      destruct (queue_stateless_reset_cases (CsBinding (DsCreate s)) (DsCtx s) D
                  (DeliverQueue o)) as [Hr|(_ & _ & _ & Hr)];
        rewrite Hr in Hrun.
      - simpl in Hrun. by injection Hrun as <- <-.
      - destruct (after_queue_create_state s (CsBinding (DsCreate s))
                    QUIC_OPER_TYPE_STATELESS_RESET D (DeliverQueue o))
          as (k & t & l & Hs).
        rewrite Hrun in Hs. simpl in Hs. by rewrite Hs. }
  unfold QuicBindingShouldCreateConnection in Hshould.
  destruct (IsLongHeader (RecvPacket D)); [|done].
  destruct (QuicBindingHasListenerRegistered _); [|done].
  case_bool_decide as Hver; [done|].
  destruct (CanCreateNewConnection o); [|done].
  destruct (QuicBindingShouldRetryConnection _ _ _ _ _)
    as [[retry Packet1] DropPacket].
  destruct retry.
  { injection Hrun as Hrun. exfalso. apply Hq.
    destruct (after_queue_create_state s (CsBinding (DsCreate s))
                QUIC_OPER_TYPE_RETRY (mkDatagram (DgPtr D) Packet1)
                (DeliverQueue o)) as (k & t & l & Hs).
    rewrite Hrun in Hs. simpl in Hs. by rewrite Hs. }
  destruct DropPacket; cbn [negb] in Hrun.
  { injection Hrun as <- <-. by destruct Hq. }
  destruct (QuicBindingCreateConnection _ _) as [|[r cs]] eqn:Hcreate; [done|].
  destruct (create_connection_worker_queue _ _ _ _ Hcreate) as [Hsame|[-> Hnew]].
  { exfalso. apply Hq. destruct r; injection Hrun as <- <-; exact Hsame. }
  injection Hrun as <- <-. simpl.
  split; [done|]. split; [done|]. split; [done|]. split; [done|].
  split; [done|]. split; [by exists Packet1|]. split; [done|].
  exists (fresh (dom (CsConns (DsCreate s)))).
  split; [apply not_elem_of_dom, is_fresh|]. done.
Qed.
End DeliverPacketsCreation.

(** The theorem on a long-header packet arriving at a listening binding
    with handshake memory to spare: a new connection takes the chain. *)
Lemma deliver_packets_new_connection_witness :
  let D := mkDatagram 7 (example_long_packet 0xff000017 [] 5000) in
  let run :=
    @QuicBindingDeliverPackets example_defs example_lib example_listening_state
      D 1 example_create_deliver_outcomes in
  let s' := (deliver_result run example_listening_state).2 in
  ∃ New,
    CsConns (DsCreate example_listening_state) !! New = None ∧
    WorkerConnQ (DsCreate s') = [] ++ [(0%nat, New)] ∧
    DsRecvQ s' = [] ++ [(New, 7%nat, 1)].
Proof.
  intros D run s'.
  refine (proj2 (proj2 (proj2 (proj2 (proj2 (proj2 (proj2
            (@deliver_packets_new_connection example_defs example_lib
               example_listening_state D 1 example_create_deliver_outcomes
               true s' _ _)))))))).
  - vm_compute. reflexivity.
  - vm_compute. discriminate.
Defined.

(** ** QuicBindingUninitialize *)

Section UninitializeCleanup.
Context `{QuicDefs} `{QuicLib}.
Hypothesis Hmax : 0 <= QUIC_MAX_BINDING_STATELESS_OPERATIONS < 2^32.


End UninitializeCleanup.

